(** * Basal metabolic rate calculator ([script.js])

    A shallow embedding of the calculator's logic and the properties of its
    specification.

    JavaScript numbers are IEEE-754 binary64 values; they are modelled by
    Rocq's primitive [float], whose operations are the same binary64
    operations (round to nearest, ties to even), specified by [Prim2SF] and
    the [SF64*] functions of the standard library.  Every statement below is
    about that arithmetic: overflow to an infinity, [NaN] and the rounding
    of each operation are part of it.  Strings are byte strings holding the
    UTF-8 encoding of the script's literals. *)

From Stdlib Require Import ZArith QArith Qround Floats String Ascii Bool List Sorted.
From Stdlib Require Import Lia Lqa.
Import ListNotations.

Set Warnings "-inexact-float".

#[local] Open Scope float_scope.

(* ================================================================= *)
(** * The runtime: numbers, truthiness, [Math.round] and values *)

Module JS.

Definition number := float.

(** [ToBoolean] on a number: [NaN], [+0] and [-0] are falsy, every other
    number is truthy. *)
Definition ToBoolean (x : number) : bool := negb (is_zero x || is_nan x).

(** The logical not [!x] of a number. *)
Definition not (x : number) : bool := negb (ToBoolean x).

(** [Math.round], first on the library's [spec_float] view of a number: the
    nearest integer, a tie going up.  For a finite [x = (-1)^s * m * 2^e]
    with [e < 0] the result is [floor (x + 1/2)], computed exactly on
    integers; when that integer is zero the result keeps the sign of [x]
    ([Math.round(-0.2)] is [-0]).  Zeros, infinities, [NaN] and the numbers
    with [0 <= e], which are integers, are returned unchanged. *)
Definition SFround (x : spec_float) : spec_float :=
  match x with
  | S754_finite s m e =>
      if (0 <=? e)%Z then x
      else
        match ((cond_Zopp s (2 * Zpos m) + 2 ^ (- e)) / 2 ^ (1 - e))%Z with
        | Z0 => S754_zero s
        | n => binary_normalize prec emax n 0 false
        end
  | _ => x
  end.

Definition Math_round (x : number) : number := SF2Prim (SFround (Prim2SF x)).

(** [Number.isInteger]: a finite number with no fractional part.  With
    [x = (-1)^s * m * 2^e] and [e < 0] that is: [2^(-e)] divides [m].
    ([Number.isFinite] and [Number.isNaN] are [is_finite] and [is_nan] of
    the primitive floats.) *)
Definition Number_isInteger (x : number) : bool :=
  match Prim2SF x with
  | S754_zero _ => true
  | S754_finite _ m e => ((0 <=? e) || (Zpos m mod 2 ^ (- e) =? 0))%Z
  | _ => false
  end.

(** Strict equality [===] of two strings. *)
Definition strict_eq (a b : string) : bool := String.eqb a b.

(** The JavaScript values a function of the script can complete with. *)
#[warning="-register-all"]
Inductive Value :=
| VUndefined
| VBoolean (b : bool)
| VNumber (x : number)
| VString (s : string)
| VObject (props : list (string * Value)).

End JS.

Import JS.

(* ================================================================= *)
(** * [calculateBMR] *)

(** [function calculateBMR(gender, age, height, weight)], lines 17-27. *)
Definition calculateBMR (gender : string) (age height weight : number) : number :=
  let bmr :=
    if strict_eq gender "male"
    then 88.362 + (13.397 * weight) + (4.799 * height) - (5.677 * age)
    else 447.593 + (9.247 * weight) + (3.098 * height) - (4.330 * age)
  in
  Math_round bmr.

(* ================================================================= *)
(** * [validateInputs] *)

(** The object [{ isValid, message }] returned by [validateInputs]. *)
Record ValidationResult := { isValid : bool; message : string }.

(** The three messages of the script, as written in it. *)
Definition age_message : string := "请输入有效的年龄（1-120岁）".
Definition height_message : string := "请输入有效的身高（50-250厘米）".
Definition weight_message : string := "请输入有效的体重（20-300公斤）".

(** The three conditions of the [if] statements, lines 37, 41 and 45. *)
Definition age_rejected (age : number) : bool :=
  JS.not age || (age <? 1) || (120 <? age).
Definition height_rejected (height : number) : bool :=
  JS.not height || (height <? 50) || (250 <? height).
Definition weight_rejected (weight : number) : bool :=
  JS.not weight || (weight <? 20) || (300 <? weight).

(** [function validateInputs(age, height, weight)], lines 36-50. *)
Definition validateInputs (age height weight : number) : ValidationResult :=
  if age_rejected age then
    {| isValid := false; message := age_message |}
  else if height_rejected height then
    {| isValid := false; message := height_message |}
  else if weight_rejected weight then
    {| isValid := false; message := weight_message |}
  else
    {| isValid := true; message := "" |}.

(* ================================================================= *)
(** * The page and [performCalculation] *)

(** What [performCalculation] reads from the document: the [value] of the
    checked [gender] radio button and the [value] of the three number
    fields.  The markup is not part of the script; it is taken to provide
    these four elements. *)
Record Form := {
  gender_checked : string;
  age_value : string;
  height_value : string;
  weight_value : string
}.

(** The calls the script makes while it runs, in the order it makes them. *)
Inductive Call :=
| validateInputs_called (age height weight : number)
| calculateBMR_called (gender : string) (age height weight : number)
| showError_called (message : string)
| displayResult_called (bmr : number).

Record World := { page : Form; calls : list Call }.

(** Scripts thread the world: a small state monad. *)
Definition Script (A : Type) : Type := World -> A * World.

Definition ret {A} (a : A) : Script A := fun w => (a, w).

Definition bind {A B} (c : Script A) (k : A -> Script B) : Script B :=
  fun w => let (a, w') := c w in k a w'.

Notation "x <- c ;; k" := (bind c (fun x => k))
  (at level 61, c at next level, right associativity).
Notation "c ;; k" := (bind c (fun _ => k))
  (at level 61, right associativity).

Definition read {A} (field : Form -> A) : Script A :=
  fun w => (field (page w), w).

Definition record (c : Call) : Script unit :=
  fun w => (tt, {| page := page w; calls := calls w ++ [c] |}).

(** Calling one of the two pure functions records the call and returns what
    the function returns. *)
Definition call_validateInputs (age height weight : number) : Script ValidationResult :=
  record (validateInputs_called age height weight) ;;
  ret (validateInputs age height weight).

Definition call_calculateBMR (gender : string) (age height weight : number) : Script number :=
  record (calculateBMR_called gender age height weight) ;;
  ret (calculateBMR gender age height weight).

(** [showError] and [displayResult] only touch the presentation of the page;
    what matters here is that they were called, and with what. *)
Definition showError (message : string) : Script Value :=
  record (showError_called message) ;; ret VUndefined.

Definition displayResult (bmr : number) : Script Value :=
  record (displayResult_called bmr) ;; ret VUndefined.

Section PerformCalculation.

(** The two parsing builtins of the runtime. *)
Variable parseInt : string -> number.
Variable parseFloat : string -> number.

(** [function performCalculation()], lines 88-107. *)
Definition performCalculation : Script Value :=
  gender <- read gender_checked ;;
  age <- read (fun f => parseInt (age_value f)) ;;
  height <- read (fun f => parseFloat (height_value f)) ;;
  weight <- read (fun f => parseFloat (weight_value f)) ;;
  validation <- call_validateInputs age height weight ;;
  if negb (isValid validation) then
    showError (message validation) ;;
    ret VUndefined
  else
    bmr <- call_calculateBMR gender age height weight ;;
    displayResult bmr ;;
    ret VUndefined.

End PerformCalculation.

(* ================================================================= *)
(** * The specification's vocabulary *)

(** The Harris-Benedict reference formula as the specification states it
    (section 4.2): a gender with two variants, one set of constants for
    each, and [base + per_kg * weight + per_cm * height - per_year * age]. *)
Inductive Gender := Male | Female.

Record Coefficients := {
  base : number;
  per_kg : number;
  per_cm : number;
  per_year : number
}.

Definition harris_benedict (g : Gender) : Coefficients :=
  match g with
  | Male => {| base := 88.362; per_kg := 13.397; per_cm := 4.799; per_year := 5.677 |}
  | Female => {| base := 447.593; per_kg := 9.247; per_cm := 3.098; per_year := 4.330 |}
  end.

Definition linear_formula (c0 c1 c2 c3 age height weight : number) : number :=
  c0 + c1 * weight + c2 * height - c3 * age.

Definition reference_BMR (g : Gender) (age height weight : number) : number :=
  let c := harris_benedict g in
  linear_formula (base c) (per_kg c) (per_cm c) (per_year c) age height weight.

(** The same formula in exact rational arithmetic, with the decimal constants
    of the specification, and the nearest integer with a tie rounded up. *)
Definition decimal_BMR (g : Gender) (age height weight : Q) : Q :=
  match g with
  | Male =>
      (88362 # 1000) + (13397 # 1000) * weight + (4799 # 1000) * height
      - (5677 # 1000) * age
  | Female =>
      (447593 # 1000) + (9247 # 1000) * weight + (3098 # 1000) * height
      - (4330 # 1000) * age
  end%Q.

Definition nearest_integer (q : Q) : Z := Qfloor (q + (1 # 2)).

(** Any gender value other than [male] is treated as [female]. *)
Definition gender_of (gender : string) : Gender :=
  if strict_eq gender "male" then Male else Female.

(** The fields of a measurement that [validateInputs] checks, in the order
    of its [if] statements. *)
Inductive Field := Age | Height | Weight.

Definition rule_order : list Field := [Age; Height; Weight].

Definition rejected (f : Field) (age height weight : number) : bool :=
  match f with
  | Age => age_rejected age
  | Height => height_rejected height
  | Weight => weight_rejected weight
  end.

Definition message_of (f : Field) : string :=
  match f with
  | Age => age_message
  | Height => height_message
  | Weight => weight_message
  end.

(** The age message as the specification words it (section 4.1). *)
Definition spec_age_message : string := "please enter a valid age (1–120)".

(** The tagged results [{ ok: true, bmr }] and [{ ok: false, message }] of
    the specification's [performCalculation] (section 4.3). *)
Definition spec_ok (bmr : number) : Value :=
  VObject [("ok"%string, VBoolean true); ("bmr"%string, VNumber bmr)].
Definition spec_error (msg : string) : Value :=
  VObject [("ok"%string, VBoolean false); ("message"%string, VString msg)].

(** A stand-in for [parseInt] and [parseFloat] on the strings made of decimal
    digits only, where both builtins return the number the digits denote;
    every other string is mapped to [NaN]. *)
Fixpoint digits (s : string) (acc : Z) : option Z :=
  match s with
  | EmptyString => Some acc
  | String c rest =>
      let d := (Z.of_nat (nat_of_ascii c) - 48)%Z in
      if ((0 <=? d) && (d <=? 9))%Z then digits rest (10 * acc + d)%Z else None
  end.

Definition parse_digits (s : string) : number :=
  match s with
  | EmptyString => nan
  | _ =>
      match digits s 0 with
      | Some n => SF2Prim (binary_normalize prec emax n 0 false)
      | None => nan
      end
  end.

(** The form of the specification's first test vector, and the same form
    with an age of zero. *)
Definition form_male_30 : Form :=
  {| gender_checked := "male"; age_value := "30";
     height_value := "175"; weight_value := "70" |}.

Definition form_male_0 : Form :=
  {| gender_checked := "male"; age_value := "0";
     height_value := "175"; weight_value := "70" |}.

(* ================================================================= *)
(** * The document

    The functions below [performCalculation] work on the document: the
    error banner of [showError], the result and input sections, the form
    controls, the timers and the scroll position.  [Document] holds the part
    of the page they read and write.  The markup is not part of the script;
    it is taken to provide the elements the script looks up
    ([.calculator], [#bmrResult], [#resultSection], [.input-section], the
    three number fields and the [gender] radio group with a [male] button
    and one button checked), as distinct elements. *)

Module Dom.

(** A node: its identity, and what [showError] sets on the element it
    creates. *)
Record Node := {
  node_id : nat;
  tagName : string;
  className : string;
  textContent : string;
  cssText : string
}.

(** The two closures the script passes to [setTimeout], with the variable
    each one captures. *)
Inductive Callback :=
| remove_errorDiv (errorDiv : Node)
| scroll_resultSection.

Record Timer := { callback : Callback; delay : Z }.

(** The scroll requests: [resultSection.scrollIntoView({ behavior: 'smooth',
    block: 'start' })] and [window.scrollTo({ top: 0, behavior: 'smooth' })]. *)
Inductive Scroll :=
| scrollIntoView_resultSection
| scrollTo_top.

Record Document := {
  form : Form;                     (* the [value]s of the form controls *)
  calculator : list Node;          (* the child nodes of [.calculator] *)
  bmrResult : string;              (* [textContent] of [#bmrResult] *)
  resultSection_display : string;  (* [style.display] of [#resultSection] *)
  inputSection_display : string;   (* [style.display] of [.input-section] *)
  timers : list Timer;             (* pending timers, oldest first *)
  scrolls : list Scroll;           (* the scroll requests made, oldest first *)
  next_id : nat                    (* the identity of the next node created *)
}.

Definition set_form (f : Form) (d : Document) : Document :=
  {| form := f; calculator := calculator d; bmrResult := bmrResult d;
     resultSection_display := resultSection_display d;
     inputSection_display := inputSection_display d;
     timers := timers d; scrolls := scrolls d; next_id := next_id d |}.

Definition set_calculator (children : list Node) (d : Document) : Document :=
  {| form := form d; calculator := children; bmrResult := bmrResult d;
     resultSection_display := resultSection_display d;
     inputSection_display := inputSection_display d;
     timers := timers d; scrolls := scrolls d; next_id := next_id d |}.

Definition set_bmrResult (text : string) (d : Document) : Document :=
  {| form := form d; calculator := calculator d; bmrResult := text;
     resultSection_display := resultSection_display d;
     inputSection_display := inputSection_display d;
     timers := timers d; scrolls := scrolls d; next_id := next_id d |}.

Definition set_resultSection_display (display : string) (d : Document) : Document :=
  {| form := form d; calculator := calculator d; bmrResult := bmrResult d;
     resultSection_display := display;
     inputSection_display := inputSection_display d;
     timers := timers d; scrolls := scrolls d; next_id := next_id d |}.

Definition set_inputSection_display (display : string) (d : Document) : Document :=
  {| form := form d; calculator := calculator d; bmrResult := bmrResult d;
     resultSection_display := resultSection_display d;
     inputSection_display := display;
     timers := timers d; scrolls := scrolls d; next_id := next_id d |}.

Definition set_timers (ts : list Timer) (d : Document) : Document :=
  {| form := form d; calculator := calculator d; bmrResult := bmrResult d;
     resultSection_display := resultSection_display d;
     inputSection_display := inputSection_display d;
     timers := ts; scrolls := scrolls d; next_id := next_id d |}.

Definition set_scrolls (ss : list Scroll) (d : Document) : Document :=
  {| form := form d; calculator := calculator d; bmrResult := bmrResult d;
     resultSection_display := resultSection_display d;
     inputSection_display := inputSection_display d;
     timers := timers d; scrolls := ss; next_id := next_id d |}.

Definition set_next_id (n : nat) (d : Document) : Document :=
  {| form := form d; calculator := calculator d; bmrResult := bmrResult d;
     resultSection_display := resultSection_display d;
     inputSection_display := inputSection_display d;
     timers := timers d; scrolls := scrolls d; next_id := n |}.

(** ** The operations of the browser the script uses *)

(** [document.createElement(tagName)]: a new node, not yet in the page. *)
Definition createElement (tag : string) (d : Document) : Node * Document :=
  ({| node_id := next_id d; tagName := tag; className := "";
      textContent := ""; cssText := "" |},
   set_next_id (S (next_id d)) d).

Definition set_className (value : string) (n : Node) : Node :=
  {| node_id := node_id n; tagName := tagName n; className := value;
     textContent := textContent n; cssText := cssText n |}.

Definition set_textContent (value : string) (n : Node) : Node :=
  {| node_id := node_id n; tagName := tagName n; className := className n;
     textContent := value; cssText := cssText n |}.

Definition set_cssText (value : string) (n : Node) : Node :=
  {| node_id := node_id n; tagName := tagName n; className := className n;
     textContent := textContent n; cssText := value |}.

(** Nodes are compared by identity. *)
Definition same_node (a b : Node) : bool := Nat.eqb (node_id a) (node_id b).

(** [parent.firstChild]: [null] when there is no child. *)
Definition firstChild (children : list Node) : option Node := hd_error children.

(** [parent.insertBefore(newNode, referenceNode)] on the children of the
    parent: [newNode] goes before [referenceNode], or at the end when the
    reference is [null]; a reference that is not a child is an error
    ([None]). *)
Fixpoint insertBefore (newNode : Node) (referenceNode : option Node)
    (children : list Node) : option (list Node) :=
  match referenceNode with
  | None => Some (children ++ [newNode])
  | Some r =>
      match children with
      | [] => None
      | c :: rest =>
          if same_node r c then Some (newNode :: children)
          else option_map (cons c) (insertBefore newNode referenceNode rest)
      end
  end.

(** [node.parentNode], as a truth value: the only parent a created node
    gets is [.calculator]. *)
Definition parentNode (n : Node) (d : Document) : bool :=
  existsb (same_node n) (calculator d).

(** [node.remove()]. *)
Definition remove (n : Node) (d : Document) : Document :=
  set_calculator (filter (fun c => negb (same_node n c)) (calculator d)) d.

(** [setTimeout(callback, delay)]. *)
Definition setTimeout (cb : Callback) (ms : Z) (d : Document) : Document :=
  set_timers (timers d ++ [{| callback := cb; delay := ms |}]) d.

Definition scroll (s : Scroll) (d : Document) : Document :=
  set_scrolls (scrolls d ++ [s]) d.

Definition set_age_value (value : string) (f : Form) : Form :=
  {| gender_checked := gender_checked f; age_value := value;
     height_value := height_value f; weight_value := weight_value f |}.

Definition set_height_value (value : string) (f : Form) : Form :=
  {| gender_checked := gender_checked f; age_value := age_value f;
     height_value := value; weight_value := weight_value f |}.

Definition set_weight_value (value : string) (f : Form) : Form :=
  {| gender_checked := gender_checked f; age_value := age_value f;
     height_value := height_value f; weight_value := value |}.

(** Checking a radio button unchecks the other buttons of its group: the
    checked [gender] value becomes the value of that button. *)
Definition set_checked (value : string) (f : Form) : Form :=
  {| gender_checked := value; age_value := age_value f;
     height_value := height_value f; weight_value := weight_value f |}.

(** ** The functions of the script *)

(** The style of the banner, lines 61-70. *)
Definition error_style : string := "
        background: #ff6b6b;
        color: white;
        padding: 15px;
        border-radius: 8px;
        margin-bottom: 20px;
        text-align: center;
        font-weight: 500;
        animation: slideDown 0.3s ease-out;
    ".

(** [function showError(message)], lines 56-83. *)
Definition showError (message : string) (d : Document) : Document :=
  let (errorDiv, d) := createElement "div" d in
  let errorDiv := set_className "error-message" errorDiv in
  let errorDiv := set_textContent message errorDiv in
  let errorDiv := set_cssText error_style errorDiv in
  let firstChild := firstChild (calculator d) in
  match insertBefore errorDiv firstChild (calculator d) with
  | Some children =>
      let d := set_calculator children d in
      setTimeout (remove_errorDiv errorDiv) 3000 d
  | None => d
  end.

(** The body of a timer's callback: lines 79-81 and line 126. *)
Definition run_callback (cb : Callback) (d : Document) : Document :=
  match cb with
  | remove_errorDiv errorDiv =>
      if parentNode errorDiv d then remove errorDiv d else d
  | scroll_resultSection => scroll scrollIntoView_resultSection d
  end.

Section Script.

(** The builtins of the runtime the script calls. *)
Variable parseInt : string -> number.
Variable parseFloat : string -> number.
Variable toLocaleString : number -> string.

(** [function displayResult(bmr)], lines 113-128. *)
Definition displayResult (bmr : number) (d : Document) : Document :=
  let d := set_bmrResult (toLocaleString bmr) d in
  let d := set_resultSection_display "block" d in
  let d := set_inputSection_display "none" d in
  setTimeout scroll_resultSection 100 d.

(** [function performCalculation()], lines 88-107, on the document. *)
Definition performCalculation (d : Document) : Document :=
  let gender := gender_checked (form d) in
  let age := parseInt (age_value (form d)) in
  let height := parseFloat (height_value (form d)) in
  let weight := parseFloat (weight_value (form d)) in
  let validation := validateInputs age height weight in
  if negb (isValid validation) then
    showError (message validation) d
  else
    let bmr := calculateBMR gender age height weight in
    displayResult bmr d.

(** [function resetCalculator()], lines 133-150. *)
Definition resetCalculator (d : Document) : Document :=
  let d := set_resultSection_display "none" d in
  let d := set_inputSection_display "block" d in
  let d := set_form (set_age_value "" (form d)) d in
  let d := set_form (set_height_value "" (form d)) d in
  let d := set_form (set_weight_value "" (form d)) d in
  let d := set_form (set_checked "male" (form d)) d in
  scroll scrollTo_top d.

(** ** What happens to the page

    The page calls the two functions the script exposes on [window]
    (lines 219-220); a key pressed in a number field runs the listener of
    [addEnterKeySupport] (lines 178-182); a pending timer fires; the user
    changes the controls. *)
Inductive Event :=
| call_performCalculation
| call_resetCalculator
| keypress (key : string)
| timeout (i : nat)
| user_input (f : Form).

(** The [i]-th pending timer fires: it is no longer pending, and its
    callback runs. *)
Definition fire (i : nat) (d : Document) : Document :=
  match nth_error (timers d) i with
  | Some t =>
      run_callback (callback t)
        (set_timers (firstn i (timers d) ++ skipn (S i) (timers d)) d)
  | None => d
  end.

Definition handle (e : Event) (d : Document) : Document :=
  match e with
  | call_performCalculation => performCalculation d
  | call_resetCalculator => resetCalculator d
  | keypress key => if strict_eq key "Enter" then performCalculation d else d
  | timeout i => fire i d
  | user_input f => set_form f d
  end.

Definition run (events : list Event) (d : Document) : Document :=
  fold_left (fun d e => handle e d) events d.

(** A validated result is on display: the input section is hidden and
    [#bmrResult] shows [calculateBMR] of measurements [validateInputs]
    accepts, an integer between -85 and 5302. *)
Definition validated_result (d : Document) : Prop :=
  inputSection_display d = "none"%string
  /\ exists (gender : string) (age height weight : number),
       isValid (validateInputs age height weight) = true
       /\ bmrResult d = toLocaleString (calculateBMR gender age height weight)
       /\ Number_isInteger (calculateBMR gender age height weight) = true
       /\ (-85 <=? calculateBMR gender age height weight) = true
       /\ (calculateBMR gender age height weight <=? 5302) = true.

End Script.

(** ** Error banners

    A banner as [showError] builds it for one of the three messages of
    [validateInputs], and the timer that removes it. *)
Definition validation_messages : list string :=
  [age_message; height_message; weight_message].

Definition error_banner (n : Node) : Prop :=
  tagName n = "div"%string /\ className n = "error-message"%string
  /\ cssText n = error_style /\ In (textContent n) validation_messages.

Definition dismissal_pending (d : Document) (n : Node) : Prop :=
  In {| callback := remove_errorDiv n; delay := 3000 |} (timers d).

(** Newer nodes have larger identities. *)
Definition newer (a b : Node) : Prop := (node_id b < node_id a)%nat.

(** What the banners of a page [d] reached from [d0] satisfy: they come
    before the children [d0] had, each waits for its timer, newest first,
    and they and the nodes the timers hold were created after [d0]. *)
Definition banners_of (d0 d : Document) (banners : list Node) : Prop :=
  calculator d = banners ++ calculator d0
  /\ Forall error_banner banners
  /\ Forall (dismissal_pending d) banners
  /\ StronglySorted newer banners.

Definition created_since (d0 d : Document) (banners : list Node) : Prop :=
  Forall (fun b => (next_id d0 <= node_id b < next_id d)%nat) banners
  /\ Forall (fun t => match callback t with
                      | remove_errorDiv e => (next_id d0 <= node_id e)%nat
                      | scroll_resultSection => True
                      end) (timers d).

(** A page as the markup may provide it, before the script has touched
    it: two children in [.calculator], no inline style, nothing pending. *)
Definition markup_node (id : nat) : Node :=
  {| node_id := id; tagName := "div"; className := ""; textContent := "";
     cssText := "" |}.

Definition loaded_page (f : Form) : Document :=
  {| form := f; calculator := [markup_node 0; markup_node 1]; bmrResult := "";
     resultSection_display := ""; inputSection_display := "";
     timers := []; scrolls := []; next_id := 2 |}.

End Dom.

(* ================================================================= *)
(** * The grid of binary64 values

    Every finite binary64 number is an integer multiple of [2^-1074].  The
    position [ord x] of a number on that grid is an integer, and the
    operations of the formula, which round to nearest with ties to even, are
    described on it by integer functions.  Products of two grid positions
    live on the finer grid of step [2^-2148]. *)

Module Grid.

#[local] Open Scope Z_scope.

(** [N / 2^k] rounded to the nearest integer, ties to the even one. *)
Definition rne_div (N k : Z) : Z :=
  let q := N / 2 ^ k in
  match (2 * (N mod 2 ^ k) ?= 2 ^ k) with
  | Lt => q
  | Eq => if Z.even q then q else q + 1
  | Gt => q + 1
  end.

(** What characterises [q] as that rounding of [M / 2^k]. *)
Definition rne_spec (M k q : Z) : Prop :=
  (2 * q - 1) * 2 ^ k <= 2 * M <= (2 * q + 1) * 2 ^ k
  /\ (2 * M = (2 * q + 1) * 2 ^ k -> Z.even q = true)
  /\ (2 * M = (2 * q - 1) * 2 ^ k -> Z.even q = true).

(** The state of the standard library's shift register after [j] right
    shifts of [M]: quotient, round bit and sticky bit. *)
Definition shr_state (M : Z) (j : Z) : shr_record :=
  {| shr_m := M / 2 ^ j;
     shr_r := Z.odd (2 * M / 2 ^ j);
     shr_s := negb (2 * M mod 2 ^ j =? 0) |}.

(** The position given to the infinities: far enough for every product and
    sum with it to stay beyond the overflow threshold [2^2098]. *)
Definition BIG : Z := 2 ^ 3172.

Definition ord (x : spec_float) : Z :=
  match x with
  | S754_zero _ => 0
  | S754_infinity s => cond_Zopp s BIG
  | S754_nan => 0
  | S754_finite s m e => cond_Zopp s (Zpos m * 2 ^ (e + 1074))
  end.

Definition grid (x : float) : Z := ord (Prim2SF x).

(** The real number a finite [x] denotes: its grid position times [2^-1074]. *)
Definition exact (x : float) : Q := Qmake (grid x) (2 ^ 1074)%positive.

(** Rounding of [N * 2^-2148], [0 <= N], to the grid: 53 significant bits,
    or the grid step itself for the small values. *)
Definition rnd (N : Z) : Z :=
  let j := Z.max (Zdigits2 N - 1127) 0 in
  rne_div N (1074 + j) * 2 ^ j.

(** Overflow: a rounded value of [2^1024] or more becomes an infinity. *)
Definition clamp (v : Z) : Z := if v <? 2 ^ 2098 then v else BIG.

(** Rounding of a signed value [N * 2^-2148] to the grid. *)
Definition round_fine (N : Z) : Z :=
  if N <? 0 then - clamp (rnd (- N)) else clamp (rnd N).

(** [Math.round] on grid positions: [floor (x + 1/2)]. *)
Definition round_int (g : Z) : Z := (g + 2 ^ 1073) / 2 ^ 1074 * 2 ^ 1074.

Definition SFfinite (x : spec_float) : bool :=
  match x with
  | S754_zero _ | S754_finite _ _ _ => true
  | _ => false
  end.

(** [within K x]: [x] is a number at most [K] grid steps away from zero. *)
Definition within (K : Z) (x : float) : Prop :=
  is_nan x = false /\ - K <= grid x <= K.

(** A bound on the formula for inputs within [K], and the check that no
    intermediate result overflows. *)
Definition term_bound (c : float) (K : Z) : Z := round_fine (Z.abs (grid c) * K).

Definition linear_bound (c0 c1 c2 c3 : float) (K : Z) : Z :=
  let s1 := round_fine ((Z.abs (grid c0) + term_bound c1 K) * 2 ^ 1074) in
  let s2 := round_fine ((s1 + term_bound c2 K) * 2 ^ 1074) in
  round_fine ((s2 + term_bound c3 K) * 2 ^ 1074).

Definition no_overflow (c0 c1 c2 c3 : float) (K : Z) : bool :=
  let limit := 2 ^ 2098 in
  let t1 := term_bound c1 K in
  let t2 := term_bound c2 K in
  let t3 := term_bound c3 K in
  let s1 := round_fine ((Z.abs (grid c0) + t1) * 2 ^ 1074) in
  let s2 := round_fine ((s1 + t2) * 2 ^ 1074) in
  let s3 := round_fine ((s2 + t3) * 2 ^ 1074) in
  (K <? limit) && (t1 <? limit) && (t2 <? limit) && (t3 <? limit)
  && (s1 <? limit) && (s2 <? limit) && (s3 <? limit).

End Grid.

(** The binary64 constants [c] of a formula are close to the decimal
    constants [k0/1000 ... k3/1000]: the base is below [2^9] and the three
    slopes below [2^4], each within half a unit of its last place of its
    decimal. *)
Definition close_to_decimal (c : Coefficients) (k0 k1 k2 k3 : Z) : Prop :=
  ((Z.abs (Grid.grid (base c)) <= 2 ^ (9 + 1074)
    /\ Z.abs (1000 * Grid.grid (base c) - k0 * 2 ^ 1074) <= 500 * 2 ^ 1030)
   /\ (Z.abs (Grid.grid (per_kg c)) <= 2 ^ (4 + 1074)
       /\ Z.abs (1000 * Grid.grid (per_kg c) - k1 * 2 ^ 1074) <= 500 * 2 ^ 1025)
   /\ (Z.abs (Grid.grid (per_cm c)) <= 2 ^ (4 + 1074)
       /\ Z.abs (1000 * Grid.grid (per_cm c) - k2 * 2 ^ 1074) <= 500 * 2 ^ 1025)
   /\ (Z.abs (Grid.grid (per_year c)) <= 2 ^ (4 + 1074)
       /\ Z.abs (1000 * Grid.grid (per_year c) - k3 * 2 ^ 1074) <= 500 * 2 ^ 1025))%Z.

(* ================================================================= *)
(** * Binary64 arithmetic on the grid *)

Module Binary64.

Import Grid.

#[local] Open Scope Z_scope.

(** ** Comparisons *)

Lemma SFcompare_antisym (a b : spec_float) (c : comparison) :
  SFcompare a b = Some c -> SFcompare b a = Some (CompOpp c).
Proof.
  destruct a as [sa|sa| |sa ma ea], b as [sb|sb| |sb mb eb]; simpl;
    try discriminate;
    try (destruct sa); try (destruct sb);
    intros H; inversion H; subst; clear H; try reflexivity.
  - rewrite (Z.compare_antisym ea eb).
    destruct (ea ?= eb)%Z; simpl; try reflexivity.
    rewrite (Pos.compare_cont_antisym ma mb Eq). reflexivity.
  - rewrite (Z.compare_antisym ea eb).
    destruct (ea ?= eb)%Z; simpl; try reflexivity.
    f_equal. symmetry. apply (Pos.compare_cont_antisym ma mb Eq).
Qed.

Lemma SFleb_SFltb_false (a b : spec_float) :
  SFleb a b = true -> SFltb b a = false.
Proof.
  unfold SFleb, SFltb. intros H.
  destruct (SFcompare a b) as [c|] eqn:E; [|discriminate].
  rewrite (SFcompare_antisym _ _ _ E).
  destruct c; simpl; try reflexivity; discriminate.
Qed.

Lemma leb_ltb_false (x y : float) : (x <=? y)%float = true -> (y <? x)%float = false.
Proof. rewrite FloatAxioms.leb_spec, FloatAxioms.ltb_spec. apply SFleb_SFltb_false. Qed.

(** A number that is at least a positive number is truthy. *)
Lemma above_positive_truthy (lo x : float) :
  (0 <? lo)%float = true -> (lo <=? x)%float = true -> ToBoolean x = true.
Proof.
  unfold ToBoolean, is_zero, is_nan.
  rewrite FloatAxioms.ltb_spec, FloatAxioms.leb_spec, !FloatAxioms.eqb_spec.
  change (Prim2SF 0%float) with (S754_zero false).
  unfold SFltb, SFleb, SFeqb.
  destruct (Prim2SF lo) as [sl|sl| |sl ml el], (Prim2SF x) as [s|s| |s m e];
    simpl; try discriminate;
    try (destruct sl); try discriminate; try (destruct s); try discriminate;
    try reflexivity.
  all: intros _ _; rewrite Z.compare_refl; simpl;
    rewrite Pos.compare_cont_refl; reflexivity.
Qed.

(** ** Shifts of the mantissa

    The standard library rounds a mantissa by shifting it right one bit at a
    time, keeping a round bit and a sticky bit.  After [j] shifts the
    register holds [shr_state M j], and the rounding of what it holds is
    [rne_div M j]. *)

Lemma digits2_pos_size (p : positive) : digits2_pos p = Pos.size p.
Proof. induction p; simpl; congruence. Qed.

Lemma digits2_pos_bounds (p : positive) :
  2 ^ (Zpos (digits2_pos p) - 1) <= Zpos p < 2 ^ Zpos (digits2_pos p).
Proof.
  rewrite digits2_pos_size. split.
  - pose proof (Pos.size_le p) as H.
    assert (E : 2 ^ Zpos (Pos.size p) = 2 * 2 ^ (Zpos (Pos.size p) - 1)).
    { rewrite <- Z.pow_succ_r by lia. f_equal. lia. }
    assert (H' : (2 ^ Zpos (Pos.size p) <= Zpos (p~0))).
    { rewrite <- Pos2Z.inj_pow. apply Pos2Z.pos_le_pos. exact H. }
    lia.
  - pose proof (Pos.size_gt p) as H.
    rewrite <- Pos2Z.inj_pow. apply Pos2Z.pos_lt_pos. exact H.
Qed.

Lemma iter_pos_nat {A} (f : A -> A) (p : positive) (x : A) :
  iter_pos f p x = Nat.iter (Pos.to_nat p) f x.
Proof.
  revert x. induction p as [p IH | p IH |]; intros x; cbn [iter_pos].
  - rewrite !IH. rewrite Pos2Nat.inj_xI.
    replace (S (2 * Pos.to_nat p))%nat with (Pos.to_nat p + (Pos.to_nat p + 1))%nat by lia.
    rewrite !Nat.iter_add. simpl. reflexivity.
  - rewrite !IH. rewrite Pos2Nat.inj_xO.
    replace (2 * Pos.to_nat p)%nat with (Pos.to_nat p + Pos.to_nat p)%nat by lia.
    rewrite Nat.iter_add. reflexivity.
  - reflexivity.
Qed.

Lemma shr_1_nonneg (m : Z) (r s : bool) :
  0 <= m ->
  shr_1 {| shr_m := m; shr_r := r; shr_s := s |}
  = {| shr_m := m / 2; shr_r := Z.odd m; shr_s := r || s |}.
Proof.
  intros Hm. destruct m as [|p|p]; [reflexivity| |lia].
  destruct p as [p|p|]; simpl.
  - f_equal. rewrite Pos2Z.inj_xI. apply (Z.div_unique _ 2 _ 1); lia.
  - f_equal. rewrite Pos2Z.inj_xO. apply (Z.div_unique _ 2 _ 0); lia.
  - reflexivity.
Qed.

Lemma shr_state_step (M j : Z) :
  0 <= M -> 0 <= j -> shr_1 (shr_state M j) = shr_state M (j + 1).
Proof.
  intros HM Hj. unfold shr_state.
  assert (HP : 0 < 2 ^ j) by (apply Z.pow_pos_nonneg; lia).
  rewrite shr_1_nonneg by (apply Z.div_pos; lia).
  rewrite Z.pow_add_r, Z.pow_1_r by lia.
  rewrite <- !Z.div_div by lia.
  f_equal.
  - f_equal. 
    pose proof (Z.div_mod (2 * M) (2 ^ j) ltac:(lia)) as E1.
    pose proof (Z.mod_pos_bound (2 * M) (2 ^ j) HP) as B1.
    pose proof (Z.div_mod M (2 ^ j) ltac:(lia)) as E2.
    pose proof (Z.mod_pos_bound M (2 ^ j) HP) as B2.
    apply (Z.div_unique _ 2 _ (if (2 * (M mod 2 ^ j) <? 2 ^ j) then 0 else 1)).
    + destruct (2 * (M mod 2 ^ j) <? 2 ^ j); lia.
    + destruct (Z.ltb_spec (2 * (M mod 2 ^ j)) (2 ^ j)); nia.
  - set (X := 2 * M). set (P := 2 ^ j) in *.
    rewrite Z.rem_mul_r by lia.
    pose proof (Z.mod_pos_bound X P HP) as B1.
    rewrite (Zmod_odd (X / P)).
    destruct (Z.odd (X / P)); cbn [orb].
    + symmetry. apply negb_true_iff, Z.eqb_neq. lia.
    + f_equal. f_equal. lia.
Qed.

Lemma shr_state_0 (M : Z) : shr_record_of_loc M loc_Exact = shr_state M 0.
Proof.
  unfold shr_state, shr_record_of_loc.
  rewrite Z.pow_0_r, !Z.div_1_r, Z.mod_1_r, Z.odd_mul. reflexivity.
Qed.

Lemma shr_state_iter (M : Z) (n : nat) :
  0 <= M -> Nat.iter n shr_1 (shr_state M 0) = shr_state M (Z.of_nat n).
Proof.
  intros HM. induction n as [|n IH].
  - reflexivity.
  - rewrite Nat.iter_succ, IH, shr_state_step by lia. f_equal. lia.
Qed.

Lemma shr_exact (M e n : Z) :
  0 <= M ->
  shr (shr_record_of_loc M loc_Exact) e n = (shr_state M (Z.max n 0), e + Z.max n 0).
Proof.
  intros HM. rewrite shr_state_0. destruct n as [|p|p]; simpl shr.
  - rewrite Z.add_0_r. reflexivity.
  - rewrite iter_pos_nat, shr_state_iter, positive_nat_Z by assumption.
    rewrite Z.max_l by lia. reflexivity.
  - rewrite Z.add_0_r. reflexivity.
Qed.

Lemma round_of_bits (m m' : Z) (r s : bool) :
  round_nearest_even m (loc_of_shr_record {| shr_m := m'; shr_r := r; shr_s := s |})
  = if r then (if s then m + 1 else if Z.even m then m else m + 1) else m.
Proof. destruct r, s; reflexivity. Qed.

Lemma round_shr_state (M k : Z) :
  0 <= M -> 0 <= k ->
  round_nearest_even (shr_m (shr_state M k)) (loc_of_shr_record (shr_state M k))
  = rne_div M k.
Proof.
  intros HM Hk. unfold shr_state at 2. rewrite round_of_bits.
  unfold shr_state, rne_div, shr_m.
  set (P := 2 ^ k).
  assert (HP : 0 < P) by (apply Z.pow_pos_nonneg; lia).
  pose proof (Z.div_mod (2 * M) P ltac:(lia)) as E1.
  pose proof (Z.mod_pos_bound (2 * M) P HP) as B1.
  pose proof (Z.div_mod M P ltac:(lia)) as E2.
  pose proof (Z.mod_pos_bound M P HP) as B2.
  set (A := 2 * M / P) in *. set (B := (2 * M) mod P) in *.
  set (q := M / P) in *. set (r := M mod P) in *.
  destruct (Z.compare_spec (2 * r) P) as [C | C | C].
  - (* tie *)
    assert (A = 2 * q + 1) as EA by nia.
    assert (B = 0) as EB by nia.
    rewrite EB. replace (Z.odd A) with true.
    2:{ rewrite EA, Z.odd_add, Z.odd_mul. reflexivity. }
    reflexivity.
  - assert (A = 2 * q) as EA by nia.
    replace (Z.odd A) with false by (rewrite EA, Z.odd_mul; reflexivity).
    reflexivity.
  - assert (A = 2 * q + 1) as EA by nia.
    assert (B <> 0) as NB by nia.
    replace (Z.odd A) with true by (rewrite EA, Z.odd_add, Z.odd_mul; reflexivity).
    apply Z.eqb_neq in NB. rewrite NB. reflexivity.
Qed.

(** ** Rounding to nearest, ties to even

    [rne_div M k] is the one integer that satisfies [rne_spec]; it is monotone
    in [M], exact on multiples of [2^k], and unchanged when numerator and
    divisor are scaled together. *)

Lemma even_succ_false (q : Z) : Z.even q = false -> Z.even (q + 1) = true.
Proof.
  intros H. rewrite Z.even_add, H. reflexivity.
Qed.

Lemma rne_div_spec (M k : Z) : 0 <= k -> rne_spec M k (rne_div M k).
Proof.
  intros Hk. unfold rne_spec, rne_div.
  set (P := 2 ^ k).
  assert (HP : 0 < P) by (apply Z.pow_pos_nonneg; lia).
  pose proof (Z.div_mod M P ltac:(lia)) as E.
  pose proof (Z.mod_pos_bound M P HP) as B.
  set (q := M / P) in *. set (r := M mod P) in *.
  assert (Ev : Z.even q = true \/ Z.even q = false) by (destruct (Z.even q); auto).
  destruct (Z.compare_spec (2 * r) P) as [C | C | C];
    [destruct (Z.even q) eqn:Ev'| |];
    (split; [nia|split]); intros H;
    first [ exact Ev' | apply even_succ_false; exact Ev' | exfalso; nia ].
Qed.

Lemma rne_spec_unique (M k q1 q2 : Z) :
  0 <= k -> rne_spec M k q1 -> rne_spec M k q2 -> q1 = q2.
Proof.
  intros Hk (B1 & U1 & D1) (B2 & U2 & D2).
  assert (HP : 0 < 2 ^ k) by (apply Z.pow_pos_nonneg; lia).
  set (P := 2 ^ k) in *.
  destruct (Z.lt_trichotomy q1 q2) as [L | [E | G]]; [|assumption|].
  - assert (q2 = q1 + 1) by nia. subst q2.
    assert (2 * M = (2 * q1 + 1) * P) by nia.
    assert (2 * M = (2 * (q1 + 1) - 1) * P) by nia.
    specialize (U1 ltac:(assumption)). specialize (D2 ltac:(assumption)).
    rewrite Z.even_add, U1 in D2. discriminate.
  - assert (q1 = q2 + 1) by nia. subst q1.
    assert (2 * M = (2 * q2 + 1) * P) by nia.
    assert (2 * M = (2 * (q2 + 1) - 1) * P) by nia.
    specialize (U2 ltac:(assumption)). specialize (D1 ltac:(assumption)).
    rewrite Z.even_add, U2 in D1. discriminate.
Qed.

Lemma rne_div_mono (M1 M2 k : Z) :
  0 <= k -> M1 <= M2 -> rne_div M1 k <= rne_div M2 k.
Proof.
  intros Hk HM.
  destruct (rne_div_spec M1 k Hk) as (B1 & U1 & D1).
  destruct (rne_div_spec M2 k Hk) as (B2 & U2 & D2).
  assert (HP : 0 < 2 ^ k) by (apply Z.pow_pos_nonneg; lia).
  set (P := 2 ^ k) in *. set (q1 := rne_div M1 k) in *. set (q2 := rne_div M2 k) in *.
  destruct (Z.le_gt_cases q1 q2) as [L | G]; [assumption|exfalso].
  assert (q1 = q2 + 1) by nia.
  assert (2 * M2 = (2 * q2 + 1) * P) by nia.
  assert (2 * M1 = (2 * q1 - 1) * P) by nia.
  specialize (U2 ltac:(assumption)). specialize (D1 ltac:(assumption)).
  replace q1 with (q2 + 1) in D1 by lia.
  rewrite Z.even_add, U2 in D1. discriminate.
Qed.

Lemma rne_div_exact (m k : Z) : 0 <= k -> rne_div (m * 2 ^ k) k = m.
Proof.
  intros Hk. symmetry. apply (rne_spec_unique (m * 2 ^ k) k); auto using rne_div_spec.
  assert (HP : 0 < 2 ^ k) by (apply Z.pow_pos_nonneg; lia).
  unfold rne_spec. repeat split; try nia.
Qed.

Lemma rne_div_scale (M k t : Z) :
  0 <= k -> 0 <= t -> rne_div (M * 2 ^ t) (k + t) = rne_div M k.
Proof.
  intros Hk Ht. symmetry. apply (rne_spec_unique (M * 2 ^ t) (k + t)); [lia| |apply rne_div_spec; lia].
  destruct (rne_div_spec M k Hk) as (B & U & D).
  assert (HP : 0 < 2 ^ k) by (apply Z.pow_pos_nonneg; lia).
  assert (HT : 0 < 2 ^ t) by (apply Z.pow_pos_nonneg; lia).
  unfold rne_spec. rewrite Z.pow_add_r by lia.
  set (P := 2 ^ k) in *. set (T := 2 ^ t) in *. set (q := rne_div M k) in *.
  repeat split; try nia.
  - intros H. apply U. nia.
  - intros H. apply D. nia.
Qed.

Lemma rne_div_lower (M k c : Z) : 0 <= k -> c * 2 ^ k <= M -> c <= rne_div M k.
Proof.
  intros Hk H. rewrite <- (rne_div_exact c k Hk). apply rne_div_mono; assumption.
Qed.

Lemma rne_div_upper (M k c : Z) : 0 <= k -> M <= c * 2 ^ k -> rne_div M k <= c.
Proof.
  intros Hk H. rewrite <- (rne_div_exact c k Hk). apply rne_div_mono; assumption.
Qed.

(** ** Digits *)

Lemma Zdigits2_bounds (M : Z) :
  0 < M -> 0 < Zdigits2 M /\ 2 ^ (Zdigits2 M - 1) <= M < 2 ^ Zdigits2 M.
Proof.
  destruct M as [|p|p]; try lia. intros _. simpl Zdigits2.
  split; [lia | apply digits2_pos_bounds].
Qed.

Lemma Zdigits2_unique (M d : Z) :
  2 ^ (d - 1) <= M < 2 ^ d -> 0 < M -> Zdigits2 M = d.
Proof.
  intros [L U] HM.
  destruct (Zdigits2_bounds M HM) as (Hd & L' & U').
  assert (0 < d).
  { destruct (Z.lt_ge_cases 0 d) as [?|?]; [assumption|].
    destruct (Z.eq_dec d 0) as [->|?].
    - simpl in U. lia.
    - rewrite Z.pow_neg_r in U by lia. lia. }
  destruct (Z.lt_trichotomy (Zdigits2 M) d) as [C | [C | C]]; [|assumption|]; exfalso.
  - assert (2 ^ Zdigits2 M <= 2 ^ (d - 1)) by (apply Z.pow_le_mono_r; lia). lia.
  - assert (2 ^ d <= 2 ^ (Zdigits2 M - 1)) by (apply Z.pow_le_mono_r; lia). lia.
Qed.

Lemma Zdigits2_shift (M t : Z) :
  0 < M -> 0 <= t -> Zdigits2 (M * 2 ^ t) = Zdigits2 M + t.
Proof.
  intros HM Ht.
  destruct (Zdigits2_bounds M HM) as (Hd & L & U).
  assert (HT : 0 < 2 ^ t) by (apply Z.pow_pos_nonneg; lia).
  apply Zdigits2_unique; [|nia].
  replace (Zdigits2 M + t - 1) with ((Zdigits2 M - 1) + t) by lia.
  rewrite !Z.pow_add_r by lia. nia.
Qed.

Lemma fexp64 (x : Z) : fexp prec emax x = Z.max (x - 53) (-1074).
Proof. reflexivity. Qed.

Lemma rne_div_nonneg (M k : Z) : 0 <= k -> 0 <= M -> 0 <= rne_div M k.
Proof.
  intros Hk HM. apply rne_div_lower; [assumption | lia].
Qed.

Lemma bra_unfold (s : bool) (M E : Z) :
  0 <= M ->
  binary_round_aux prec emax s M E loc_Exact =
    let k := Z.max (fexp prec emax (Zdigits2 M + E) - E) 0 in
    let m1 := rne_div M k in
    let e1 := E + k in
    let k2 := Z.max (fexp prec emax (Zdigits2 m1 + e1) - e1) 0 in
    match m1 / 2 ^ k2 with
    | Z0 => S754_zero s
    | Zpos m => if e1 + k2 <=? emax - prec then S754_finite s m (e1 + k2) else S754_infinity s
    | Zneg _ => S754_nan
    end.
Proof.
  intros HM. unfold binary_round_aux, shr_fexp.
  rewrite (shr_exact M E _ HM).
  rewrite round_shr_state by lia.
  rewrite shr_exact by (apply rne_div_nonneg; lia).
  reflexivity.
Qed.

(** ** Rounding in the library is rounding on the grid

    [binary_round_aux] applied to a mantissa [M] and an exponent [E] returns
    the valid number whose grid position is the rounding [rnd] of the value
    [M * 2^E], or an infinity when that position is beyond the largest
    finite one. *)

(** Large powers of two are kept symbolic in linear arithmetic. *)
Tactic Notation "symbolic" constr(t) "as" ident(x) := set (x := t) in *; clearbody x.

Tactic Notation "symbolic" constr(t) := let pw := fresh "pw" in symbolic t as pw.

Lemma pow2_double (k : Z) : 0 <= k -> 2 ^ (k + 1) = 2 * 2 ^ k.
Proof. intros H. rewrite Z.add_1_r. apply Z.pow_succ_r. assumption. Qed.

Lemma pow2_1074 : 2 ^ 1074 = 2 * 2 ^ 1073.
Proof. apply (pow2_double 1073). discriminate. Qed.

Lemma pow2_pos (k : Z) : 0 <= k -> 0 < 2 ^ k.
Proof. intros. apply Z.pow_pos_nonneg; lia. Qed.

Lemma pow2_split (a b : Z) : 0 <= a -> 0 <= b -> 2 ^ (a + b) = 2 ^ a * 2 ^ b.
Proof. intros. apply Z.pow_add_r; assumption. Qed.

(** Bounds on a mantissa shifted left, with the powers kept symbolic. *)
Lemma mul_pow2_lt (m a j n : Z) :
  0 <= a -> 0 <= j -> m < 2 ^ a -> a + j <= n -> m * 2 ^ j < 2 ^ n.
Proof.
  intros Ha Hj Hm Hn.
  apply Z.lt_le_trans with (2 ^ a * 2 ^ j).
  - apply Z.mul_lt_mono_pos_r; [apply pow2_pos|]; assumption.
  - rewrite <- pow2_split by assumption. apply Z.pow_le_mono_r; lia.
Qed.

Lemma mul_pow2_le (m a j n : Z) :
  0 <= a -> 0 <= j -> m <= 2 ^ a -> a + j <= n -> m * 2 ^ j <= 2 ^ n.
Proof.
  intros Ha Hj Hm Hn.
  apply Z.le_trans with (2 ^ a * 2 ^ j).
  - apply Z.mul_le_mono_nonneg_r; [apply Z.lt_le_incl, pow2_pos|]; assumption.
  - rewrite <- pow2_split by assumption. apply Z.pow_le_mono_r; lia.
Qed.

Lemma mul_pow2_ge (m a j n : Z) :
  0 <= a -> 0 <= j -> 2 ^ a <= m -> n <= a + j -> 2 ^ n <= m * 2 ^ j.
Proof.
  intros Ha Hj Hm Hn.
  apply Z.le_trans with (2 ^ a * 2 ^ j).
  - rewrite <- pow2_split by assumption. apply Z.pow_le_mono_r; lia.
  - apply Z.mul_le_mono_nonneg_r; [apply Z.lt_le_incl, pow2_pos|]; assumption.
Qed.

Lemma bra_spec (s : bool) (M : positive) (E : Z) :
  -2148 <= E -> E <= fexp prec emax (Zdigits2 (Zpos M) + E) ->
  let r := binary_round_aux prec emax s (Zpos M) E loc_Exact in
  valid_binary r = true /\ r <> S754_nan
  /\ ord r = cond_Zopp s (clamp (rnd (Zpos M * 2 ^ (E + 2148)))).
Proof.
  intros HE HF r. subst r.
  rewrite bra_unfold by lia.
  destruct (Zdigits2_bounds (Zpos M) ltac:(lia)) as (Hd & ML & MU).
  set (d := Zdigits2 (Zpos M)) in *.
  rewrite fexp64 in HF.
  (* the rounding of the fine-grained value is the rounding of the mantissa *)
  unfold rnd. rewrite Zdigits2_shift by lia. fold d.
  set (j := Z.max (d + (E + 2148) - 1127) 0).
  assert (Hj : 0 <= j) by lia.
  cbv zeta. rewrite (fexp64 (d + E)).
  set (k := Z.max (Z.max (d + E - 53) (-1074) - E) 0).
  assert (Hk : 0 <= k) by lia.
  assert (Ek : 1074 + j = k + (E + 2148)) by lia.
  rewrite Ek, rne_div_scale by lia.
  assert (Ee : E + k = j - 1074) by lia.
  rewrite Ee.
  assert (Hdk : d <= k + 53) by lia.
  set (m1 := rne_div (Zpos M) k).
  assert (Hm0 : 0 <= m1) by (apply rne_div_nonneg; lia).
  assert (Hm1 : m1 <= 2 ^ 53).
  { apply rne_div_upper; [lia|].
    assert (2 ^ d <= 2 ^ (k + 53)) by (apply Z.pow_le_mono_r; lia).
    rewrite (Z.add_comm k 53), pow2_split in H by lia. lia. }
  assert (Hm2 : 0 < j -> 2 ^ 52 <= m1).
  { intros Hjp. apply rne_div_lower; [lia|].
    assert (d = k + 53) by lia.
    replace (d - 1) with (52 + k) in ML by lia.
    rewrite pow2_split in ML by lia. lia. }
  rewrite fexp64.
  destruct (Z.eq_dec m1 (2 ^ 53)) as [Ecarry | Ncarry].
  - (* the mantissa was rounded up to 2^53 *)
    rewrite Ecarry.
    change (Zdigits2 (2 ^ 53)) with 54.
    replace (Z.max (Z.max (54 + (j - 1074) - 53) (-1074) - (j - 1074)) 0) with 1 by lia.
    change (2 ^ 53 / 2 ^ 1) with (Zpos (2 ^ 52)).
    change (emax - prec) with 971.
    destruct (Z.leb_spec (j - 1074 + 1) 971) as [Hov | Hov].
    + split; [|split]; [ | discriminate | ].
      * unfold valid_binary, bounded, canonical_mantissa. rewrite fexp64.
        change (emax - prec) with 971.
        change (Zpos (digits2_pos (2 ^ 52))) with 53.
        apply andb_true_intro. split; [apply Z.eqb_eq | apply Z.leb_le]; lia.
      * unfold ord. f_equal.
        replace (j - 1074 + 1 + 1074) with (1 + j) by lia.
        rewrite pow2_split by lia.
        assert (Hlt : 2 ^ 53 * 2 ^ j < 2 ^ 2098).
        { rewrite <- pow2_split by lia. apply Z.pow_lt_mono_r; lia. }
        unfold clamp. apply Z.ltb_lt in Hlt. rewrite Hlt.
        change (Zpos (2 ^ 52)) with (2 ^ 52). change (2 ^ 53) with (2 ^ 52 * 2 ^ 1). ring.
    + split; [|split]; [reflexivity | discriminate | ].
      unfold ord. f_equal.
      assert (Hge : 2 ^ 2098 <= 2 ^ 53 * 2 ^ j).
      { rewrite <- pow2_split by lia. apply Z.pow_le_mono_r; lia. }
      unfold clamp. apply Z.ltb_ge in Hge. rewrite Hge. reflexivity.
  - (* no carry *)
    assert (Hm1' : m1 < 2 ^ 53) by lia.
    destruct (Z.eq_dec m1 0) as [Ez | Nz].
    + rewrite Ez. change (Zdigits2 0) with 0.
      rewrite Z.div_0_l by (apply Z.pow_nonzero; lia).
      split; [|split]; [reflexivity | discriminate | ].
      unfold ord, clamp. rewrite Z.mul_0_l. destruct s; reflexivity.
    + assert (Hmp : 0 < m1) by lia.
      destruct (Zdigits2_bounds m1 Hmp) as (Hd1 & L1 & U1).
      assert (Hd53 : Zdigits2 m1 <= 53).
      { destruct (Z.le_gt_cases (Zdigits2 m1) 53) as [?|G]; [assumption|exfalso].
        assert (2 ^ 53 <= 2 ^ (Zdigits2 m1 - 1)) by (apply Z.pow_le_mono_r; lia). lia. }
      assert (Hd53' : 0 < j -> Zdigits2 m1 = 53).
      { intros Hjp. specialize (Hm2 Hjp).
        apply Zdigits2_unique; [|lia]. change (53 - 1) with 52. lia. }
      assert (Ek2 : Z.max (Z.max (Zdigits2 m1 + (j - 1074) - 53) (-1074) - (j - 1074)) 0 = 0) by lia.
      rewrite Ek2. rewrite Z.pow_0_r, Z.div_1_r, Z.add_0_r.
      destruct m1 as [|p|p]; try lia.
      change (emax - prec) with 971.
      destruct (Z.leb_spec (j - 1074) 971) as [Hov | Hov].
      * split; [|split]; [ | discriminate | ].
        -- unfold valid_binary, bounded, canonical_mantissa. rewrite fexp64.
           change (emax - prec) with 971.
           change (Zpos (digits2_pos p)) with (Zdigits2 (Zpos p)).
           apply andb_true_intro. split; [apply Z.eqb_eq | apply Z.leb_le]; lia.
        -- unfold ord. f_equal.
           replace (j - 1074 + 1074) with j by lia.
           assert (Hlt : Zpos p * 2 ^ j < 2 ^ 2098).
           { apply (mul_pow2_lt _ 53); lia. }
           unfold clamp. apply Z.ltb_lt in Hlt. rewrite Hlt. reflexivity.
      * split; [|split]; [reflexivity | discriminate | ].
        unfold ord. f_equal.
        assert (Hge : 2 ^ 2098 <= Zpos p * 2 ^ j).
        { specialize (Hm2 ltac:(lia)). apply (mul_pow2_ge _ 52); lia. }
        unfold clamp. apply Z.ltb_ge in Hge. rewrite Hge. reflexivity.
Qed.

(** The rounding is monotone: this is what makes every operation of the
    formula monotone. *)
Lemma Zdigits2_mono (N1 N2 : Z) : 0 < N1 -> N1 <= N2 -> Zdigits2 N1 <= Zdigits2 N2.
Proof.
  intros H1 H12.
  destruct (Zdigits2_bounds N1 H1) as (Hd1 & L1 & U1).
  destruct (Zdigits2_bounds N2 ltac:(lia)) as (Hd2 & L2 & U2).
  destruct (Z.le_gt_cases (Zdigits2 N1) (Zdigits2 N2)) as [?|G]; [assumption|exfalso].
  assert (2 ^ Zdigits2 N2 <= 2 ^ (Zdigits2 N1 - 1)) by (apply Z.pow_le_mono_r; lia).
  lia.
Qed.

Lemma rnd_0 : rnd 0 = 0.
Proof. reflexivity. Qed.

Lemma rnd_nonneg (N : Z) : 0 <= N -> 0 <= rnd N.
Proof.
  intros HN. unfold rnd.
  set (j := Z.max (Zdigits2 N - 1127) 0).
  assert (0 <= rne_div N (1074 + j)) by (apply rne_div_nonneg; lia).
  assert (0 < 2 ^ j) by (apply pow2_pos; lia).
  nia.
Qed.

Lemma rnd_mono (N1 N2 : Z) : 0 <= N1 -> N1 <= N2 -> rnd N1 <= rnd N2.
Proof.
  intros H1 H12.
  destruct (Z.eq_dec N1 0) as [-> | NZ].
  { rewrite rnd_0. apply rnd_nonneg; lia. }
  assert (P1 : 0 < N1) by lia. assert (P2 : 0 < N2) by lia.
  pose proof (Zdigits2_mono N1 N2 P1 H12) as Hd.
  destruct (Zdigits2_bounds N1 P1) as (Hd1 & L1 & U1).
  destruct (Zdigits2_bounds N2 P2) as (Hd2 & L2 & U2).
  unfold rnd.
  set (d1 := Zdigits2 N1) in *. set (d2 := Zdigits2 N2) in *.
  set (j1 := Z.max (d1 - 1127) 0). set (j2 := Z.max (d2 - 1127) 0).
  assert (Hj : j1 <= j2) by lia.
  assert (Q1 : 0 < 2 ^ j1) by (apply pow2_pos; lia).
  assert (Q2 : 0 < 2 ^ j2) by (apply pow2_pos; lia).
  destruct (Z.eq_dec j1 j2) as [E | NE].
  - rewrite <- E.
    pose proof (rne_div_mono N1 N2 (1074 + j1) ltac:(lia) H12). nia.
  - assert (Hlt : j1 + 1 <= j2) by lia.
    assert (Ed2 : d2 = 1127 + j2) by lia.
    assert (A1 : rne_div N1 (1074 + j1) <= 2 ^ 53).
    { apply rne_div_upper; [lia|].
      assert (2 ^ d1 <= 2 ^ (53 + (1074 + j1))) by (apply Z.pow_le_mono_r; lia).
      rewrite pow2_split in H by lia. lia. }
    assert (A2 : 2 ^ 52 <= rne_div N2 (1074 + j2)).
    { apply rne_div_lower; [lia|].
      replace (d2 - 1) with (52 + (1074 + j2)) in L2 by lia.
      rewrite pow2_split in L2 by lia. lia. }
    assert (A0 : 0 <= rne_div N1 (1074 + j1)) by (apply rne_div_nonneg; lia).
    assert (2 ^ (j1 + 1) <= 2 ^ j2) by (apply Z.pow_le_mono_r; lia).
    rewrite pow2_split in H by lia.
    change (2 ^ 1) with 2 in H. change (2 ^ 53) with (2 * 2 ^ 52) in A1.
    assert (0 < 2 ^ 52) by (apply pow2_pos; lia).
    set (a1 := rne_div N1 (1074 + j1)) in *. set (a2 := rne_div N2 (1074 + j2)) in *.
    set (c := 2 ^ 52) in *.
    apply Z.le_trans with (2 * c * 2 ^ j1); [nia|].
    apply Z.le_trans with (c * 2 ^ j2); nia.
Qed.

Lemma clamp_mono (a b : Z) : a <= b -> clamp a <= clamp b.
Proof.
  intros H. unfold clamp.
  assert (2 ^ 2098 < BIG) by (apply Z.pow_lt_mono_r; lia).
  destruct (Z.ltb_spec a (2 ^ 2098)), (Z.ltb_spec b (2 ^ 2098));
    symbolic (2 ^ 2098); lia.
Qed.

Lemma clamp_nonneg (a : Z) : 0 <= a -> 0 <= clamp a.
Proof.
  intros H. unfold clamp. destruct (Z.ltb_spec a (2 ^ 2098)); [assumption|].
  apply Z.pow_nonneg; lia.
Qed.

Lemma round_fine_mono (N1 N2 : Z) : N1 <= N2 -> round_fine N1 <= round_fine N2.
Proof.
  intros H. unfold round_fine.
  destruct (Z.ltb_spec N1 0), (Z.ltb_spec N2 0); try lia.
  - assert (clamp (rnd (- N2)) <= clamp (rnd (- N1))) by (apply clamp_mono, rnd_mono; lia). lia.
  - assert (0 <= clamp (rnd (- N1))) by (apply clamp_nonneg, rnd_nonneg; lia).
    assert (0 <= clamp (rnd N2)) by (apply clamp_nonneg, rnd_nonneg; lia). lia.
  - apply clamp_mono, rnd_mono; lia.
Qed.

(** ** Valid binary64 values on the grid

    A valid mantissa has at most 53 bits, and exactly 53 unless the exponent
    is the smallest one; the comparison of the library is the comparison of
    grid positions. *)

Lemma BIG_gt : 2 ^ 2098 < BIG.
Proof. apply Z.pow_lt_mono_r; lia. Qed.

Lemma valid_finite (s : bool) (m : positive) (e : Z) :
  valid_binary (S754_finite s m e) = true ->
  -1074 <= e <= 971 /\ Zdigits2 (Zpos m) <= 53
  /\ (-1074 < e -> 2 ^ 52 <= Zpos m)
  /\ Zpos m < 2 ^ 53
  /\ 0 < Zpos m * 2 ^ (e + 1074) < 2 ^ 2098.
Proof.
  unfold valid_binary, bounded, canonical_mantissa. rewrite fexp64.
  change (emax - prec) with 971.
  change (Zpos (digits2_pos m)) with (Zdigits2 (Zpos m)).
  intros H. apply andb_prop in H. destruct H as [C B].
  apply Z.eqb_eq in C. apply Z.leb_le in B.
  destruct (Zdigits2_bounds (Zpos m) ltac:(lia)) as (Hd & L & U).
  set (d := Zdigits2 (Zpos m)) in *.
  assert (D53 : d <= 53) by lia.
  assert (M53 : Zpos m < 2 ^ 53).
  { assert (2 ^ d <= 2 ^ 53) by (apply Z.pow_le_mono_r; lia). lia. }
  assert (0 < 2 ^ (e + 1074)) by (apply pow2_pos; lia).
  split; [lia|]. split; [lia|]. split; [|split; [lia|split; [lia|]]].
  - intros He. assert (d = 53) as E by lia. rewrite E in L. exact L.
  - apply (mul_pow2_lt _ 53); lia.
Qed.

(** On valid mantissas the lexicographic order on (exponent, mantissa) is
    the order of the values. *)
Lemma compare_finite (m1 m2 : positive) (e1 e2 : Z) (s1 s2 : bool) :
  valid_binary (S754_finite s1 m1 e1) = true ->
  valid_binary (S754_finite s2 m2 e2) = true ->
  match (e1 ?= e2) with
  | Lt => Lt
  | Gt => Gt
  | Eq => Pos.compare_cont Eq m1 m2
  end = (Zpos m1 * 2 ^ (e1 + 1074) ?= Zpos m2 * 2 ^ (e2 + 1074)).
Proof.
  intros V1 V2.
  destruct (valid_finite _ _ _ V1) as (He1 & D1 & N1 & U1 & _).
  destruct (valid_finite _ _ _ V2) as (He2 & D2 & N2 & U2 & _).
  assert (P1 : 0 < 2 ^ (e1 + 1074)) by (apply pow2_pos; lia).
  assert (P2 : 0 < 2 ^ (e2 + 1074)) by (apply pow2_pos; lia).
  destruct (Z.compare_spec e1 e2) as [E | L | G].
  - subst e2. change (Pos.compare_cont Eq m1 m2) with (Zpos m1 ?= Zpos m2).
    symmetry. destruct (Z.compare_spec (Zpos m1) (Zpos m2)) as [E' | L' | G'].
    + rewrite E'. apply Z.compare_refl.
    + apply Z.compare_lt_iff. nia.
    + apply Z.compare_gt_iff. nia.
  - symmetry. apply Z.compare_lt_iff.
    specialize (N2 ltac:(lia)).
    assert (2 ^ (e1 + 1074 + 1) <= 2 ^ (e2 + 1074)) by (apply Z.pow_le_mono_r; lia).
    rewrite pow2_split in H by lia. change (2 ^ 1) with 2 in H.
    change (2 ^ 53) with (2 * 2 ^ 52) in U1.
    assert (0 < 2 ^ 52) by (apply pow2_pos; lia).
    set (c := 2 ^ 52) in *.
    apply Z.lt_le_trans with (2 * c * 2 ^ (e1 + 1074)); [nia|].
    apply Z.le_trans with (c * 2 ^ (e2 + 1074)); nia.
  - symmetry. apply Z.compare_gt_iff.
    specialize (N1 ltac:(lia)).
    assert (2 ^ (e2 + 1074 + 1) <= 2 ^ (e1 + 1074)) by (apply Z.pow_le_mono_r; lia).
    rewrite pow2_split in H by lia. change (2 ^ 1) with 2 in H.
    change (2 ^ 53) with (2 * 2 ^ 52) in U2.
    assert (0 < 2 ^ 52) by (apply pow2_pos; lia).
    set (c := 2 ^ 52) in *.
    apply Z.lt_le_trans with (2 * c * 2 ^ (e2 + 1074)); [nia|].
    apply Z.le_trans with (c * 2 ^ (e1 + 1074)); nia.
Qed.

Lemma SFcompare_ord (x y : spec_float) :
  valid_binary x = true -> valid_binary y = true ->
  x <> S754_nan -> y <> S754_nan ->
  SFcompare x y = Some (ord x ?= ord y).
Proof.
  intros Vx Vy Nx Ny.
  pose proof BIG_gt as HB.
  assert (HB0 : 0 < 2 ^ 2098) by (apply pow2_pos; lia).
  destruct x as [sx|sx| |sx mx ex], y as [sy|sy| |sy my ey];
    try congruence; cbn [SFcompare ord]; f_equal; symmetry.
  - destruct sy; cbn [cond_Zopp]; [apply Z.compare_gt_iff | apply Z.compare_lt_iff]; symbolic (2 ^ 2098); lia.
  - destruct (valid_finite _ _ _ Vy) as (_ & _ & _ & _ & B).
    destruct sy; cbn [cond_Zopp]; [apply Z.compare_gt_iff | apply Z.compare_lt_iff]; symbolic (2 ^ 2098); lia.
  - destruct sx; cbn [cond_Zopp]; [apply Z.compare_lt_iff | apply Z.compare_gt_iff]; symbolic (2 ^ 2098); lia.
  - destruct sx, sy; cbn [cond_Zopp];
      [apply Z.compare_refl | apply Z.compare_lt_iff | apply Z.compare_gt_iff | apply Z.compare_refl]; symbolic (2 ^ 2098); lia.
  - destruct (valid_finite _ _ _ Vy) as (_ & _ & _ & _ & B).
    destruct sx, sy; cbn [cond_Zopp];
      [apply Z.compare_lt_iff | apply Z.compare_lt_iff | apply Z.compare_gt_iff | apply Z.compare_gt_iff]; symbolic (2 ^ 2098); lia.
  - destruct (valid_finite _ _ _ Vx) as (_ & _ & _ & _ & B).
    destruct sx; cbn [cond_Zopp]; [apply Z.compare_lt_iff | apply Z.compare_gt_iff]; symbolic (2 ^ 2098); lia.
  - destruct (valid_finite _ _ _ Vx) as (_ & _ & _ & _ & B).
    destruct sx, sy; cbn [cond_Zopp];
      [apply Z.compare_gt_iff | apply Z.compare_lt_iff | apply Z.compare_gt_iff | apply Z.compare_lt_iff]; symbolic (2 ^ 2098); lia.
  - destruct (valid_finite _ _ _ Vx) as (_ & _ & _ & _ & Bx).
    destruct (valid_finite _ _ _ Vy) as (_ & _ & _ & _ & By).
    destruct sx, sy; cbn [cond_Zopp].
    + rewrite Z.compare_opp. rewrite <- (compare_finite my mx ey ex true true Vy Vx).
      rewrite (Z.compare_antisym ey ex).
      destruct (ey ?= ex); cbn [CompOpp]; try reflexivity.
      rewrite (Pos.compare_cont_antisym mx my Eq). reflexivity.
    + apply Z.compare_lt_iff. symbolic (2 ^ 2098). lia.
    + apply Z.compare_gt_iff. symbolic (2 ^ 2098). lia.
    + symmetry. apply compare_finite with (s1 := false) (s2 := false); assumption.
Qed.

(** ** Exactly representable values *)

Lemma rnd_exact (a k : Z) :
  0 < a -> Zdigits2 a <= 53 -> 1074 <= k ->
  rnd (a * 2 ^ k) = a * 2 ^ (k - 1074).
Proof.
  intros Ha Hd Hk. unfold rnd.
  rewrite Zdigits2_shift by lia.
  destruct (Zdigits2_bounds a Ha) as (Hd0 & _ & _).
  set (j := Z.max (Zdigits2 a + k - 1127) 0).
  assert (Hj : 0 <= j /\ 1074 + j <= k) by lia.
  replace k with ((k - 1074 - j) + (1074 + j)) at 1 by lia.
  rewrite pow2_split, Z.mul_assoc by lia.
  rewrite rne_div_exact by lia.
  rewrite <- Z.mul_assoc, <- pow2_split by lia.
  f_equal. f_equal. lia.
Qed.

Lemma rnd_pow2 (k : Z) : 1127 <= k -> rnd (2 ^ k) = 2 ^ (k - 1074).
Proof.
  intros Hk. replace k with (52 + (k - 52)) at 1 by lia.
  rewrite pow2_split by lia.
  rewrite rnd_exact; [ | reflexivity | vm_compute; discriminate | lia ].
  rewrite <- pow2_split by lia. apply f_equal. lia.
Qed.

Lemma clamp_small (v : Z) : v < 2 ^ 2098 -> clamp v = v.
Proof. intros H. unfold clamp. apply Z.ltb_lt in H. rewrite H. reflexivity. Qed.

Lemma clamp_large (v : Z) : 2 ^ 2098 <= v -> clamp v = BIG.
Proof. intros H. unfold clamp. apply Z.ltb_ge in H. rewrite H. reflexivity. Qed.

Lemma round_fine_opp (N : Z) : round_fine (- N) = - round_fine N.
Proof.
  unfold round_fine.
  destruct (Z.ltb_spec (- N) 0), (Z.ltb_spec N 0); try lia.
  - rewrite Z.opp_involutive. lia.
  - assert (N = 0) by lia. subst N. reflexivity.
Qed.

Lemma round_fine_pos (N : Z) : 0 <= N -> round_fine N = clamp (rnd N).
Proof.
  intros H. unfold round_fine. destruct (Z.ltb_spec N 0); [lia | reflexivity].
Qed.

Lemma round_fine_signed (s : bool) (N : Z) :
  0 <= N -> round_fine (cond_Zopp s N) = cond_Zopp s (clamp (rnd N)).
Proof.
  intros H. destruct s; cbn [cond_Zopp].
  - rewrite round_fine_opp, round_fine_pos by assumption. reflexivity.
  - apply round_fine_pos; assumption.
Qed.

Lemma cond_Zopp_mul_r (s : bool) (a b : Z) : cond_Zopp s a * b = cond_Zopp s (a * b).
Proof. destruct s; cbn [cond_Zopp]; ring. Qed.

(** A valid finite value is its own rounding. *)
Lemma round_fine_exact (x : spec_float) :
  valid_binary x = true -> x <> S754_nan ->
  round_fine (ord x * 2 ^ 1074) = ord x.
Proof.
  intros V N. destruct x as [s|s| |s m e]; try congruence; cbn [ord].
  - reflexivity.
  - rewrite cond_Zopp_mul_r.
    rewrite round_fine_signed
      by (apply Z.mul_nonneg_nonneg; [unfold BIG|]; apply Z.pow_nonneg; lia).
    apply f_equal. apply clamp_large.
    unfold BIG. rewrite <- pow2_split by lia.
    rewrite rnd_pow2 by lia. apply Z.pow_le_mono_r; lia.
  - destruct (valid_finite _ _ _ V) as (He & D & _ & _ & B).
    replace (cond_Zopp s (Zpos m * 2 ^ (e + 1074)) * 2 ^ 1074)
      with (cond_Zopp s (Zpos m * 2 ^ (e + 2148))).
    2:{ replace (e + 2148) with (e + 1074 + 1074) by lia.
        rewrite pow2_split by lia. rewrite cond_Zopp_mul_r, Z.mul_assoc. reflexivity. }
    assert (0 < 2 ^ (e + 2148)) by (apply pow2_pos; lia).
    rewrite round_fine_signed by (apply Z.mul_nonneg_nonneg; lia).
    rewrite rnd_exact by lia.
    replace (e + 2148 - 1074) with (e + 1074) by lia.
    rewrite clamp_small by apply B. reflexivity.
Qed.

(** ** [binary_round] and [binary_normalize] *)

Lemma iter_xO (m d : positive) : Zpos (Pos.iter xO m d) = Zpos m * 2 ^ Zpos d.
Proof.
  induction d as [|d IH] using Pos.peano_ind.
  - cbn [Pos.iter]. rewrite Pos2Z.inj_xO. change (2 ^ 1) with 2. ring.
  - rewrite Pos.iter_succ, Pos2Z.inj_xO, IH, Pos2Z.inj_succ, Z.pow_succ_r by lia. ring.
Qed.

Lemma shl_align_spec (mx : positive) (ex ex' : Z) :
  snd (shl_align mx ex ex') = Z.min ex ex'
  /\ Zpos (fst (shl_align mx ex ex')) = Zpos mx * 2 ^ (ex - Z.min ex ex').
Proof.
  unfold shl_align. destruct (ex' - ex) as [|d|d] eqn:E; cbn [fst snd].
  - replace (Z.min ex ex') with ex by lia. rewrite Z.sub_diag. split; [reflexivity | ring].
  - replace (Z.min ex ex') with ex by lia. rewrite Z.sub_diag. split; [reflexivity | ring].
  - replace (Z.min ex ex') with ex' by lia. split; [reflexivity|].
    rewrite iter_xO. f_equal. f_equal. lia.
Qed.

Lemma binary_round_spec (s : bool) (m : positive) (e : Z) :
  -2148 <= e ->
  let r := binary_round prec emax s m e in
  valid_binary r = true /\ r <> S754_nan
  /\ ord r = cond_Zopp s (clamp (rnd (Zpos m * 2 ^ (e + 2148)))).
Proof.
  intros He r. subst r. unfold binary_round.
  pose proof (shl_align_spec m e (fexp prec emax (Zpos (digits2_pos m) + e))) as [Es Ef].
  destruct (shl_align m e (fexp prec emax (Zpos (digits2_pos m) + e))) as [mz ez].
  cbn [fst snd] in Es, Ef.
  change (Zpos (digits2_pos m)) with (Zdigits2 (Zpos m)) in *.
  rewrite fexp64 in Es, Ef.
  assert (Hd : Zdigits2 (Zpos mz) + ez = Zdigits2 (Zpos m) + e).
  { rewrite Ef, Zdigits2_shift by lia. lia. }
  assert (HN : Zpos mz * 2 ^ (ez + 2148) = Zpos m * 2 ^ (e + 2148)).
  { rewrite Ef, <- Z.mul_assoc, <- pow2_split by lia. f_equal. f_equal. lia. }
  rewrite <- HN. apply bra_spec; [lia|].
  rewrite Hd, fexp64. lia.
Qed.

Lemma binary_normalize_spec (z e : Z) (sz : bool) :
  -2148 <= e ->
  let r := binary_normalize prec emax z e sz in
  valid_binary r = true /\ r <> S754_nan
  /\ ord r = round_fine (z * 2 ^ (e + 2148)).
Proof.
  intros He. assert (0 < 2 ^ (e + 2148)) by (apply pow2_pos; lia).
  destruct z as [|p|p]; cbn [binary_normalize].
  - repeat split; discriminate.
  - rewrite round_fine_pos by nia. apply (binary_round_spec false p e He).
  - change (Zneg p) with (- Zpos p). rewrite Z.mul_opp_l, round_fine_opp.
    rewrite round_fine_pos by nia. apply (binary_round_spec true p e He).
Qed.

(** ** The operations on the grid

    Unless the result is [NaN], the position of a product is the rounding of
    the product of the positions, and the position of a sum or difference is
    the rounding of the sum or difference of the positions. *)

Lemma rnd_large (N : Z) : BIG <= N -> 2 ^ 2098 <= rnd N.
Proof.
  intros H.
  assert (E : rnd BIG = 2 ^ 2098).
  { unfold BIG. rewrite rnd_pow2 by lia. apply f_equal. reflexivity. }
  rewrite <- E. apply rnd_mono; [|assumption].
  unfold BIG. apply Z.pow_nonneg. lia.
Qed.

Lemma BIG_pos : 0 < BIG.
Proof. apply pow2_pos. lia. Qed.

Lemma round_fine_large (s : bool) (N : Z) :
  BIG <= N -> round_fine (cond_Zopp s N) = cond_Zopp s BIG.
Proof.
  intros H. pose proof BIG_pos.
  rewrite round_fine_signed by lia.
  rewrite clamp_large by (apply rnd_large; assumption). reflexivity.
Qed.

Lemma cond_Zopp_mul (sx sy : bool) (a b : Z) :
  cond_Zopp sx a * cond_Zopp sy b = cond_Zopp (xorb sx sy) (a * b).
Proof. destruct sx, sy; cbn [cond_Zopp xorb]; ring. Qed.

Lemma Zdigits2_ge_53 (M : Z) : 2 ^ 52 <= M -> 53 <= Zdigits2 M.
Proof.
  intros H. change 53 with (Zdigits2 (2 ^ 52)).
  apply Zdigits2_mono; [reflexivity | assumption].
Qed.

Lemma SFmul_ord (x y : spec_float) :
  valid_binary x = true -> valid_binary y = true ->
  SFmul prec emax x y <> S754_nan ->
  ord (SFmul prec emax x y) = round_fine (ord x * ord y).
Proof.
  intros Vx Vy NN. pose proof BIG_pos as HB.
  destruct x as [sx|sx| |sx mx ex], y as [sy|sy| |sy my ey];
    cbn [SFmul] in NN |- *; try congruence; cbn [ord].
  - rewrite Z.mul_0_l. reflexivity.
  - rewrite Z.mul_0_l. reflexivity.
  - rewrite cond_Zopp_mul, round_fine_large by (symbolic (2 ^ 2098); nia). reflexivity.
  - destruct (valid_finite _ _ _ Vy) as (_ & _ & _ & _ & B).
    rewrite cond_Zopp_mul, round_fine_large by (symbolic (2 ^ 2098); nia). reflexivity.
  - rewrite Z.mul_0_r. reflexivity.
  - destruct (valid_finite _ _ _ Vx) as (_ & _ & _ & _ & B).
    rewrite cond_Zopp_mul, round_fine_large by (symbolic (2 ^ 2098); nia). reflexivity.
  - destruct (valid_finite _ _ _ Vx) as (Hex & Dx & Nx & Ux & Bx).
    destruct (valid_finite _ _ _ Vy) as (Hey & Dy & Ny & Uy & By).
    rewrite cond_Zopp_mul. symbolic (2 ^ 2098).
    assert (P : 0 < Zpos mx * 2 ^ (ex + 1074) * (Zpos my * 2 ^ (ey + 1074))) by nia.
    rewrite round_fine_signed by lia.
    replace (Zpos mx * 2 ^ (ex + 1074) * (Zpos my * 2 ^ (ey + 1074)))
      with (Zpos (mx * my) * 2 ^ (ex + ey + 2148)).
    2:{ replace (ex + ey + 2148) with ((ex + 1074) + (ey + 1074)) by lia.
        rewrite pow2_split by lia. rewrite Pos2Z.inj_mul. ring. }
    apply bra_spec; [lia|].
    rewrite fexp64.
    destruct (Z.eq_dec ex (-1074)) as [Ex | Nex];
      [destruct (Z.eq_dec ey (-1074)) as [Ey | Ney]|]; [lia | |].
    + specialize (Ny ltac:(lia)).
      assert (53 <= Zdigits2 (Zpos (mx * my))); [|lia].
      apply Zdigits2_ge_53. rewrite Pos2Z.inj_mul. nia.
    + specialize (Nx ltac:(lia)).
      assert (53 <= Zdigits2 (Zpos (mx * my))); [|lia].
      apply Zdigits2_ge_53. rewrite Pos2Z.inj_mul. nia.
Qed.

Lemma SFadd_ord (x y : spec_float) :
  valid_binary x = true -> valid_binary y = true ->
  SFadd prec emax x y <> S754_nan ->
  ord (SFadd prec emax x y) = round_fine ((ord x + ord y) * 2 ^ 1074).
Proof.
  intros Vx Vy NN. pose proof BIG_pos as HB. pose proof BIG_gt as HG.
  assert (P74 : 2 <= 2 ^ 1074).
  { change 2 with (2 ^ 1) at 1. apply Z.pow_le_mono_r; lia. }
  assert (HBB : BIG <= (BIG - 2 ^ 2098) * 2 ^ 1074).
  { assert (2 * 2 ^ 2098 <= BIG).
    { unfold BIG. rewrite <- (Z.pow_succ_r 2 2098) by lia. apply Z.pow_le_mono_r; lia. }
    symbolic (2 ^ 2098). symbolic (2 ^ 1074). nia. }
  assert (Inf1 : forall (s : bool) (v : Z), - 2 ^ 2098 < v < 2 ^ 2098 ->
            round_fine ((cond_Zopp s BIG + v) * 2 ^ 1074) = cond_Zopp s BIG).
  { intros s v Hv.
    replace ((cond_Zopp s BIG + v) * 2 ^ 1074)
      with (cond_Zopp s ((BIG + cond_Zopp s v) * 2 ^ 1074))
      by (symbolic (2 ^ 1074); destruct s; cbn [cond_Zopp]; ring).
    apply round_fine_large.
    symbolic (2 ^ 2098). symbolic (2 ^ 1074).
    assert (BIG - pw <= BIG + cond_Zopp s v) by (destruct s; cbn [cond_Zopp]; lia).
    nia. }
  destruct x as [sx|sx| |sx mx ex], y as [sy|sy| |sy my ey];
    cbn [SFadd] in NN |- *; try congruence.
  - destruct sx, sy; reflexivity.
  - cbn [ord]. rewrite Z.add_0_l.
    change (cond_Zopp sy BIG) with (ord (S754_infinity sy)).
    symmetry. apply round_fine_exact; [reflexivity | discriminate].
  - rewrite Z.add_0_l. symmetry. apply round_fine_exact; [assumption | discriminate].
  - cbn [ord]. rewrite Z.add_0_r.
    change (cond_Zopp sx BIG) with (ord (S754_infinity sx)).
    symmetry. apply round_fine_exact; [reflexivity | discriminate].
  - destruct sx, sy; try congruence; cbn [ord cond_Zopp].
    + replace ((- BIG + - BIG) * 2 ^ 1074) with (cond_Zopp true ((BIG + BIG) * 2 ^ 1074))
        by (symbolic (2 ^ 1074); cbn [cond_Zopp]; ring).
      rewrite round_fine_large by (symbolic (2 ^ 2098); symbolic (2 ^ 1074); nia). reflexivity.
    + replace ((BIG + BIG) * 2 ^ 1074) with (cond_Zopp false ((BIG + BIG) * 2 ^ 1074))
        by reflexivity.
      rewrite round_fine_large by (symbolic (2 ^ 2098); symbolic (2 ^ 1074); nia). reflexivity.
  - destruct (valid_finite _ _ _ Vy) as (_ & _ & _ & _ & B).
    cbn [ord]. symmetry. apply Inf1. destruct sy; cbn [cond_Zopp]; symbolic (2 ^ 2098); lia.
  - cbn [ord]. rewrite Z.add_0_r. symmetry.
    apply (round_fine_exact (S754_finite sx mx ex)); [assumption | discriminate].
  - destruct (valid_finite _ _ _ Vx) as (_ & _ & _ & _ & B).
    cbn [ord]. rewrite Z.add_comm. symmetry. apply Inf1. destruct sx; cbn [cond_Zopp]; symbolic (2 ^ 2098); lia.
  - destruct (valid_finite _ _ _ Vx) as (Hex & _).
    destruct (valid_finite _ _ _ Vy) as (Hey & _).
    set (ez := Z.min ex ey).
    assert (Hez : ez <= ex /\ ez <= ey /\ -1074 <= ez) by (unfold ez; lia).
    destruct (shl_align_spec mx ex ez) as [_ Ex].
    destruct (shl_align_spec my ey ez) as [_ Ey].
    replace (Z.min ex ez) with ez in Ex by lia.
    replace (Z.min ey ez) with ez in Ey by lia.
    destruct (binary_normalize_spec
                (cond_Zopp sx (Zpos (fst (shl_align mx ex ez)))
                 + cond_Zopp sy (Zpos (fst (shl_align my ey ez)))) ez false ltac:(lia))
      as (_ & _ & O).
    rewrite O. f_equal. rewrite Ex, Ey. cbn [ord].
    replace (ex + 1074) with ((ex - ez) + (ez + 1074)) by lia.
    replace (ey + 1074) with ((ey - ez) + (ez + 1074)) by lia.
    replace (ez + 2148) with ((ez + 1074) + 1074) by lia.
    rewrite (pow2_split (ex - ez) (ez + 1074)), (pow2_split (ey - ez) (ez + 1074)),
      (pow2_split (ez + 1074) 1074) by lia.
    symbolic (2 ^ 1074). destruct sx, sy; cbn [cond_Zopp]; ring.
Qed.

Lemma cond_Zopp_negb (s : bool) (v : Z) : cond_Zopp (negb s) v = - cond_Zopp s v.
Proof. destruct s; cbn [cond_Zopp negb]; lia. Qed.

Lemma SFsub_add_opp (x y : spec_float) :
  SFsub prec emax x y = SFadd prec emax x (SFopp y).
Proof.
  destruct x as [sx|sx| |sx mx ex], y as [sy|sy| |sy my ey];
    cbn [SFsub SFadd SFopp]; try reflexivity.
  - destruct sx, sy; reflexivity.
  - destruct sx, sy; reflexivity.
  - rewrite cond_Zopp_negb. reflexivity.
Qed.

Lemma ord_opp (x : spec_float) : ord (SFopp x) = - ord x.
Proof.
  destruct x as [s|s| |s m e]; cbn [SFopp ord]; try reflexivity;
    apply cond_Zopp_negb.
Qed.

Lemma valid_opp (x : spec_float) : valid_binary x = true -> valid_binary (SFopp x) = true.
Proof. destruct x; intros H; exact H. Qed.

Lemma SFsub_ord (x y : spec_float) :
  valid_binary x = true -> valid_binary y = true ->
  SFsub prec emax x y <> S754_nan ->
  ord (SFsub prec emax x y) = round_fine ((ord x - ord y) * 2 ^ 1074).
Proof.
  intros Vx Vy. rewrite SFsub_add_opp. intros NN.
  rewrite SFadd_ord by (auto using valid_opp).
  rewrite ord_opp. f_equal.
Qed.

(** ** [Math.round] on the grid

    [SFround] returns a valid number, [NaN] only for [NaN], at the position
    [round_int] of its argument. *)

Lemma round_int_mono (g1 g2 : Z) : g1 <= g2 -> round_int g1 <= round_int g2.
Proof.
  intros H. unfold round_int.
  assert (0 < 2 ^ 1074) by (apply pow2_pos; lia).
  symbolic (2 ^ 1074) as q. symbolic (2 ^ 1073) as h.
  assert ((g1 + h) / q <= (g2 + h) / q) by (apply Z.div_le_mono; lia).
  nia.
Qed.

Lemma round_int_multiple (c : Z) : round_int (c * 2 ^ 1074) = c * 2 ^ 1074.
Proof.
  unfold round_int. f_equal.
  rewrite Z.div_add_l by (apply Z.pow_nonzero; lia).
  rewrite (Z.div_small (2 ^ 1073)); [apply Z.add_0_r|].
  split; [apply Z.pow_nonneg; lia | apply Z.pow_lt_mono_r; lia].
Qed.

Lemma Zdigits2_le_53 (n : Z) : 0 < n < 2 ^ 53 -> Zdigits2 n <= 53.
Proof.
  intros [H0 H1]. destruct (Zdigits2_bounds n H0) as (Hd & L & _).
  destruct (Z.le_gt_cases (Zdigits2 n) 53) as [?|G]; [assumption|exfalso].
  assert (2 ^ 53 <= 2 ^ (Zdigits2 n - 1)) by (apply Z.pow_le_mono_r; lia). lia.
Qed.

(** Integers of at most 53 bits are on the grid. *)
Lemma round_fine_int (n : Z) :
  - 2 ^ 53 < n < 2 ^ 53 -> round_fine (n * 2 ^ 2148) = n * 2 ^ 1074.
Proof.
  assert (K : forall a, 0 < a < 2 ^ 53 -> clamp (rnd (a * 2 ^ 2148)) = a * 2 ^ 1074).
  { intros a Ha. rewrite rnd_exact by (try apply Zdigits2_le_53; lia).
    change (2148 - 1074) with 1074. apply clamp_small.
    apply (mul_pow2_lt _ 53); lia. }
  assert (P : 0 < 2 ^ 2148) by (apply pow2_pos; lia).
  intros Hn. destruct (Z.lt_trichotomy n 0) as [L | [E | G]].
  - rewrite <- (Z.opp_involutive n) at 1. rewrite Z.mul_opp_l.
    rewrite round_fine_opp, round_fine_pos by (apply Z.mul_nonneg_nonneg; lia).
    rewrite K by lia. rewrite <- Z.mul_opp_l. apply f_equal2; [lia | reflexivity].
  - subst n. reflexivity.
  - rewrite round_fine_pos by (apply Z.mul_nonneg_nonneg; lia). apply K. lia.
Qed.

Lemma SFround_spec (x : spec_float) :
  valid_binary x = true ->
  valid_binary (SFround x) = true
  /\ (SFround x = S754_nan <-> x = S754_nan)
  /\ (x <> S754_nan -> ord (SFround x) = round_int (ord x)).
Proof.
  intros V. destruct x as [s|s| |s m e]; cbn [SFround].
  - split; [exact V | split; [tauto | intros _; reflexivity]].
  - split; [exact V | split; [tauto | intros _]]. cbn [ord].
    unfold BIG. change 3172 with (2098 + 1074).
    rewrite pow2_split, <- cond_Zopp_mul_r by lia.
    symmetry. apply round_int_multiple.
  - split; [exact V | split; [tauto | congruence]].
  - destruct (valid_finite _ _ _ V) as (He & D & _ & U & _).
    destruct (Z.leb_spec 0 e) as [Hpos | Hneg].
    + split; [exact V | split; [tauto | intros _]]. cbn [ord].
      rewrite pow2_split by lia.
      rewrite Z.mul_assoc, <- cond_Zopp_mul_r.
      symmetry. apply round_int_multiple.
    + set (n := (cond_Zopp s (2 * Zpos m) + 2 ^ (- e)) / 2 ^ (1 - e)).
      set (g := cond_Zopp s (Zpos m * 2 ^ (e + 1074))).
      assert (T : 0 < 2 ^ (e + 1074)) by (apply pow2_pos; lia).
      assert (T' : 2 ^ (e + 1074) <= 2 ^ 1073) by (apply Z.pow_le_mono_r; lia).
      assert (H73 : 0 < 2 ^ 1073) by (apply pow2_pos; lia).
      assert (En : n = (g + 2 ^ 1073) / 2 ^ 1074).
      { rewrite <- (Z.div_mul_cancel_l (g + 2 ^ 1073) (2 ^ 1074) 2)
          by (try apply Z.pow_nonzero; discriminate).
        unfold n. rewrite <- (Z.div_mul_cancel_r _ _ (2 ^ (e + 1074)))
          by (try apply Z.pow_nonzero; lia).
        f_equal.
        - rewrite Z.mul_add_distr_r, <- pow2_split by lia.
          replace (- e + (e + 1074)) with 1074 by lia.
          rewrite pow2_1074.
          unfold g. symbolic (2 ^ 1073). destruct s; cbn [cond_Zopp]; ring.
        - rewrite <- pow2_split by lia. replace (1 - e + (e + 1074)) with (1074 + 1) by lia.
          apply pow2_double. discriminate. }
      assert (Bn : - 2 ^ 53 < n < 2 ^ 53).
      { rewrite En, pow2_1074. change (2 ^ 53) with (2 * 2 ^ 52) in U |- *.
        assert (0 < 2 ^ 52) by (apply pow2_pos; lia).
        symbolic (2 ^ 1073) as h. symbolic (2 ^ 52) as c.
        assert (Bg : - (2 * c * h) < g < 2 * c * h).
        { unfold g. destruct s; cbn [cond_Zopp]; nia. }
        split.
        - apply Z.lt_le_trans with (- c); [lia|].
          apply Z.div_le_lower_bound; [lia|]. nia.
        - apply Z.div_lt_upper_bound; [lia|]. nia. }
      assert (O : round_int g = n * 2 ^ 1074) by (unfold round_int; rewrite En; reflexivity).
      destruct (binary_normalize_spec n 0 false ltac:(discriminate)) as (Vn & Nn & On).
      change (0 + 2148) with 2148 in On. rewrite round_fine_int in On by assumption.
      cbn [ord]. fold g. rewrite O.
      assert (NF : S754_finite s m e = S754_nan -> False) by discriminate.
      destruct n as [|p|p].
      * split; [reflexivity | split; [split; [discriminate | tauto] | intros _; reflexivity]].
      * split; [exact Vn | split; [tauto | intros _; exact On]].
      * split; [exact Vn | split; [tauto | intros _; exact On]].
Qed.

(** ** The primitive operations

    The same facts for the primitive floats, through the specifications of
    the standard library. *)

Lemma Prim2SF_nan (x : float) : Prim2SF x = S754_nan <-> is_nan x = true.
Proof.
  unfold Prim2SF. destruct (is_nan x); [tauto|].
  split; [|discriminate].
  destruct (is_zero x); [discriminate|].
  destruct (is_infinity x); [discriminate|].
  destruct (Z.frexp x) as [r e].
  destruct (shr_fexp prec emax _ _ _) as [mrs e'].
  destruct (shr_m mrs); discriminate.
Qed.

Lemma not_nan (x : float) : is_nan x = false <-> Prim2SF x <> S754_nan.
Proof.
  rewrite Prim2SF_nan. destruct (is_nan x); split; congruence.
Qed.

Lemma SFadd_nan_l (y : spec_float) : SFadd prec emax S754_nan y = S754_nan.
Proof. destruct y; reflexivity. Qed.
Lemma SFadd_nan_r (x : spec_float) : SFadd prec emax x S754_nan = S754_nan.
Proof. destruct x; reflexivity. Qed.
Lemma SFmul_nan_l (y : spec_float) : SFmul prec emax S754_nan y = S754_nan.
Proof. destruct y; reflexivity. Qed.
Lemma SFmul_nan_r (x : spec_float) : SFmul prec emax x S754_nan = S754_nan.
Proof. destruct x; reflexivity. Qed.
Lemma SFsub_nan_l (y : spec_float) : SFsub prec emax S754_nan y = S754_nan.
Proof. destruct y; reflexivity. Qed.
Lemma SFsub_nan_r (x : spec_float) : SFsub prec emax x S754_nan = S754_nan.
Proof. destruct x; reflexivity. Qed.

Lemma add_not_nan (x y : float) :
  is_nan (x + y)%float = false -> is_nan x = false /\ is_nan y = false.
Proof.
  rewrite !not_nan, FloatAxioms.add_spec. unfold SF64add. intros H.
  split; intros E; rewrite E in H; [rewrite SFadd_nan_l in H | rewrite SFadd_nan_r in H];
    congruence.
Qed.

Lemma mul_not_nan (x y : float) :
  is_nan (x * y)%float = false -> is_nan x = false /\ is_nan y = false.
Proof.
  rewrite !not_nan, FloatAxioms.mul_spec. unfold SF64mul. intros H.
  split; intros E; rewrite E in H; [rewrite SFmul_nan_l in H | rewrite SFmul_nan_r in H];
    congruence.
Qed.

Lemma sub_not_nan (x y : float) :
  is_nan (x - y)%float = false -> is_nan x = false /\ is_nan y = false.
Proof.
  rewrite !not_nan, FloatAxioms.sub_spec. unfold SF64sub. intros H.
  split; intros E; rewrite E in H; [rewrite SFsub_nan_l in H | rewrite SFsub_nan_r in H];
    congruence.
Qed.

Lemma grid_add (x y : float) :
  is_nan (x + y)%float = false ->
  grid (x + y)%float = round_fine ((grid x + grid y) * 2 ^ 1074).
Proof.
  intros H. unfold grid. rewrite FloatAxioms.add_spec. apply SFadd_ord; try apply Prim2SF_valid.
  apply not_nan in H. rewrite FloatAxioms.add_spec in H. exact H.
Qed.

Lemma grid_sub (x y : float) :
  is_nan (x - y)%float = false ->
  grid (x - y)%float = round_fine ((grid x - grid y) * 2 ^ 1074).
Proof.
  intros H. unfold grid. rewrite FloatAxioms.sub_spec. apply SFsub_ord; try apply Prim2SF_valid.
  apply not_nan in H. rewrite FloatAxioms.sub_spec in H. exact H.
Qed.

Lemma grid_mul (x y : float) :
  is_nan (x * y)%float = false ->
  grid (x * y)%float = round_fine (grid x * grid y).
Proof.
  intros H. unfold grid. rewrite FloatAxioms.mul_spec. apply SFmul_ord; try apply Prim2SF_valid.
  apply not_nan in H. rewrite FloatAxioms.mul_spec in H. exact H.
Qed.

Lemma SFleb_ord (x y : spec_float) :
  valid_binary x = true -> valid_binary y = true ->
  x <> S754_nan -> y <> S754_nan ->
  SFleb x y = (ord x <=? ord y).
Proof.
  intros Vx Vy Nx Ny. unfold SFleb. rewrite SFcompare_ord by assumption.
  unfold Z.leb. destruct (ord x ?= ord y); reflexivity.
Qed.

Lemma SFleb_not_nan (x y : spec_float) :
  SFleb x y = true -> x <> S754_nan /\ y <> S754_nan.
Proof.
  destruct x, y; cbn; intros H; split; congruence.
Qed.

Lemma leb_grid (x y : float) :
  (x <=? y)%float = true <->
  is_nan x = false /\ is_nan y = false /\ grid x <= grid y.
Proof.
  rewrite FloatAxioms.leb_spec, !not_nan. unfold grid. split.
  - intros H. destruct (SFleb_not_nan _ _ H) as [Nx Ny].
    rewrite SFleb_ord in H by (auto using Prim2SF_valid).
    apply Z.leb_le in H. auto.
  - intros (Nx & Ny & H).
    rewrite SFleb_ord by (auto using Prim2SF_valid).
    apply Z.leb_le. exact H.
Qed.

Lemma Math_round_spec (x : float) : Prim2SF (Math_round x) = SFround (Prim2SF x).
Proof.
  unfold Math_round. apply Prim2SF_SF2Prim.
  apply SFround_spec, Prim2SF_valid.
Qed.

Lemma Math_round_nan (x : float) : is_nan (Math_round x) = is_nan x.
Proof.
  destruct (SFround_spec (Prim2SF x) (Prim2SF_valid x)) as (_ & N & _).
  rewrite <- Math_round_spec, !Prim2SF_nan in N.
  destruct (is_nan (Math_round x)), (is_nan x); try reflexivity.
  - symmetry. apply N. reflexivity.
  - apply N. reflexivity.
Qed.

Lemma grid_Math_round (x : float) :
  is_nan x = false -> grid (Math_round x) = round_int (grid x).
Proof.
  intros H. unfold grid. rewrite Math_round_spec.
  apply SFround_spec; [apply Prim2SF_valid | apply not_nan; exact H].
Qed.


Lemma grid_linear (c0 c1 c2 c3 a h w : float) :
  is_nan (linear_formula c0 c1 c2 c3 a h w) = false ->
  grid (linear_formula c0 c1 c2 c3 a h w) =
    round_fine
      ((round_fine
          ((round_fine ((grid c0 + round_fine (grid c1 * grid w)) * 2 ^ 1074)
            + round_fine (grid c2 * grid h)) * 2 ^ 1074)
        - round_fine (grid c3 * grid a)) * 2 ^ 1074)%Z.
Proof.
  unfold linear_formula. intros N.
  destruct (sub_not_nan _ _ N) as [N1 N2].
  destruct (add_not_nan _ _ N1) as [N3 N4].
  destruct (add_not_nan _ _ N3) as [N5 N6].
  rewrite grid_sub, grid_add, grid_add, !grid_mul by assumption.
  reflexivity.
Qed.

Lemma linear_mono_weight (c0 c1 c2 c3 a h w1 w2 : float) :
  (0 <= grid c1)%Z -> (w1 <=? w2)%float = true ->
  is_nan (linear_formula c0 c1 c2 c3 a h w1) = false ->
  is_nan (linear_formula c0 c1 c2 c3 a h w2) = false ->
  (grid (linear_formula c0 c1 c2 c3 a h w1) <= grid (linear_formula c0 c1 c2 c3 a h w2))%Z.
Proof.
  intros Hc Hw N1 N2. apply leb_grid in Hw. destruct Hw as (_ & _ & Hw).
  rewrite !grid_linear by assumption.
  assert (P : (0 <= 2 ^ 1074)%Z) by (apply Z.pow_nonneg; lia).
  apply round_fine_mono, Z.mul_le_mono_nonneg_r, Z.sub_le_mono_r; [exact P|].
  apply round_fine_mono, Z.mul_le_mono_nonneg_r, Z.add_le_mono_r; [exact P|].
  apply round_fine_mono, Z.mul_le_mono_nonneg_r, Z.add_le_mono_l; [exact P|].
  apply round_fine_mono, Z.mul_le_mono_nonneg_l; assumption.
Qed.

Lemma linear_mono_height (c0 c1 c2 c3 a h1 h2 w : float) :
  (0 <= grid c2)%Z -> (h1 <=? h2)%float = true ->
  is_nan (linear_formula c0 c1 c2 c3 a h1 w) = false ->
  is_nan (linear_formula c0 c1 c2 c3 a h2 w) = false ->
  (grid (linear_formula c0 c1 c2 c3 a h1 w) <= grid (linear_formula c0 c1 c2 c3 a h2 w))%Z.
Proof.
  intros Hc Hh N1 N2. apply leb_grid in Hh. destruct Hh as (_ & _ & Hh).
  rewrite !grid_linear by assumption.
  assert (P : (0 <= 2 ^ 1074)%Z) by (apply Z.pow_nonneg; lia).
  apply round_fine_mono, Z.mul_le_mono_nonneg_r, Z.sub_le_mono_r; [exact P|].
  apply round_fine_mono, Z.mul_le_mono_nonneg_r, Z.add_le_mono_l; [exact P|].
  apply round_fine_mono, Z.mul_le_mono_nonneg_l; assumption.
Qed.

Lemma linear_anti_age (c0 c1 c2 c3 a1 a2 h w : float) :
  (0 <= grid c3)%Z -> (a1 <=? a2)%float = true ->
  is_nan (linear_formula c0 c1 c2 c3 a1 h w) = false ->
  is_nan (linear_formula c0 c1 c2 c3 a2 h w) = false ->
  (grid (linear_formula c0 c1 c2 c3 a2 h w) <= grid (linear_formula c0 c1 c2 c3 a1 h w))%Z.
Proof.
  intros Hc Ha N1 N2. apply leb_grid in Ha. destruct Ha as (_ & _ & Ha).
  rewrite !grid_linear by assumption.
  assert (P : (0 <= 2 ^ 1074)%Z) by (apply Z.pow_nonneg; lia).
  apply round_fine_mono, Z.mul_le_mono_nonneg_r, Z.sub_le_mono_l; [exact P|].
  apply round_fine_mono, Z.mul_le_mono_nonneg_l; assumption.
Qed.

(** ** Finite numbers and bounds

    Operations on finite numbers never return [NaN], and a bound on the grid
    positions of the inputs gives a bound on the position of the formula. *)

Lemma SFcompare_refl (x : spec_float) : x <> S754_nan -> SFcompare x x = Some Eq.
Proof.
  destruct x as [s|s| |s m e]; cbn [SFcompare]; try congruence; intros _.
  - destruct s; reflexivity.
  - rewrite Z.compare_refl, Pos.compare_cont_refl. destruct s; reflexivity.
Qed.

Lemma is_finite_SF (x : float) : is_finite x = SFfinite (Prim2SF x).
Proof.
  unfold is_finite, is_nan, is_infinity.
  rewrite !FloatAxioms.eqb_spec, FloatAxioms.abs_spec.
  change (Prim2SF infinity) with (S754_infinity false).
  unfold SFeqb.
  destruct (Prim2SF x) as [s|s| |s m e] eqn:E; cbn [SFabs SFfinite].
  - reflexivity.
  - destruct s; reflexivity.
  - reflexivity.
  - rewrite SFcompare_refl by discriminate. reflexivity.
Qed.

Lemma finite_grid (x : float) :
  is_finite x = true <-> is_nan x = false /\ - 2 ^ 2098 < grid x < 2 ^ 2098.
Proof.
  rewrite is_finite_SF, not_nan. unfold grid.
  pose proof (Prim2SF_valid x) as V. pose proof BIG_gt as HB.
  assert (0 < 2 ^ 2098) by (apply pow2_pos; lia).
  destruct (Prim2SF x) as [s|s| |s m e]; cbn [SFfinite ord].
  - symbolic (2 ^ 2098). split; [intros _; split; [discriminate | lia] | reflexivity].
  - symbolic (2 ^ 2098).
    split; [discriminate | intros (_ & B); destruct s; cbn [cond_Zopp] in B; lia].
  - split; [discriminate | intros (N & _); congruence].
  - destruct (valid_finite _ _ _ V) as (_ & _ & _ & _ & B). symbolic (2 ^ 2098).
    split; [intros _; split; [discriminate | destruct s; cbn [cond_Zopp]; lia] | reflexivity].
Qed.

Lemma SFmul_finite (x y : spec_float) :
  valid_binary x = true -> valid_binary y = true ->
  SFfinite x = true -> SFfinite y = true -> SFmul prec emax x y <> S754_nan.
Proof.
  intros Vx Vy Fx Fy.
  destruct x as [sx|sx| |sx mx ex], y as [sy|sy| |sy my ey];
    try discriminate; cbn [SFmul]; try discriminate.
  destruct (valid_finite _ _ _ Vx) as (Hex & Dx & Nx & Ux & _).
  destruct (valid_finite _ _ _ Vy) as (Hey & Dy & Ny & Uy & _).
  apply bra_spec; [lia|].
  rewrite fexp64.
  destruct (Z.eq_dec ex (-1074)) as [Ex | Nex];
    [destruct (Z.eq_dec ey (-1074)) as [Ey | Ney]|]; [lia | |].
  + specialize (Ny ltac:(lia)).
    assert (53 <= Zdigits2 (Zpos (mx * my))); [|lia].
    apply Zdigits2_ge_53. rewrite Pos2Z.inj_mul. nia.
  + specialize (Nx ltac:(lia)).
    assert (53 <= Zdigits2 (Zpos (mx * my))); [|lia].
    apply Zdigits2_ge_53. rewrite Pos2Z.inj_mul. nia.
Qed.

Lemma SFadd_finite (x y : spec_float) :
  valid_binary x = true -> valid_binary y = true ->
  SFfinite x = true -> SFfinite y = true -> SFadd prec emax x y <> S754_nan.
Proof.
  intros Vx Vy Fx Fy.
  destruct x as [sx|sx| |sx mx ex], y as [sy|sy| |sy my ey];
    try discriminate; cbn [SFadd]; try discriminate.
  - destruct sx, sy; discriminate.
  - destruct (valid_finite _ _ _ Vx) as (Hex & _).
    destruct (valid_finite _ _ _ Vy) as (Hey & _).
    apply binary_normalize_spec. lia.
Qed.

Lemma SFfinite_opp (x : spec_float) : SFfinite (SFopp x) = SFfinite x.
Proof. destruct x; reflexivity. Qed.

Lemma mul_finite (x y : float) :
  is_finite x = true -> is_finite y = true -> is_nan (x * y)%float = false.
Proof.
  rewrite !is_finite_SF, not_nan, FloatAxioms.mul_spec. apply SFmul_finite; apply Prim2SF_valid.
Qed.

Lemma add_finite (x y : float) :
  is_finite x = true -> is_finite y = true -> is_nan (x + y)%float = false.
Proof.
  rewrite !is_finite_SF, not_nan, FloatAxioms.add_spec. apply SFadd_finite; apply Prim2SF_valid.
Qed.

Lemma sub_finite (x y : float) :
  is_finite x = true -> is_finite y = true -> is_nan (x - y)%float = false.
Proof.
  rewrite !is_finite_SF, not_nan, FloatAxioms.sub_spec. unfold SF64sub. rewrite SFsub_add_opp.
  intros Fx Fy. apply SFadd_finite; try apply valid_opp; try apply Prim2SF_valid; auto.
  rewrite SFfinite_opp. exact Fy.
Qed.

Lemma within_finite (K : Z) (x : float) :
  K < 2 ^ 2098 -> within K x -> is_finite x = true.
Proof.
  intros HK [N B]. apply finite_grid. symbolic (2 ^ 2098). split; [assumption | lia].
Qed.

Lemma abs_mul_bound (a n k : Z) :
  - k <= n <= k -> - (Z.abs a * k) <= a * n <= Z.abs a * k.
Proof. intros H. destruct (Z.abs_spec a) as [[? ->]|[? ->]]; nia. Qed.

Lemma within_mul (K : Z) (c x : float) :
  K < 2 ^ 2098 -> is_finite c = true -> within K x ->
  within (round_fine (Z.abs (grid c) * K)) (c * x)%float.
Proof.
  intros HK Fc W. pose proof (within_finite K x HK W) as Fx.
  destruct W as [N B].
  pose proof (mul_finite c x Fc Fx) as NN. split; [exact NN|].
  rewrite grid_mul by exact NN.
  pose proof (abs_mul_bound (grid c) (grid x) K B) as [L U].
  rewrite <- round_fine_opp. split; apply round_fine_mono; assumption.
Qed.

Lemma within_add (K1 K2 : Z) (x y : float) :
  K1 < 2 ^ 2098 -> K2 < 2 ^ 2098 -> within K1 x -> within K2 y ->
  within (round_fine ((K1 + K2) * 2 ^ 1074)) (x + y)%float.
Proof.
  intros H1 H2 W1 W2.
  pose proof (within_finite _ _ H1 W1) as F1. pose proof (within_finite _ _ H2 W2) as F2.
  destruct W1 as [N1 B1], W2 as [N2 B2].
  pose proof (add_finite x y F1 F2) as NN. split; [exact NN|].
  rewrite grid_add by exact NN.
  assert (0 < 2 ^ 1074) by (apply pow2_pos; lia).
  rewrite <- round_fine_opp. clear H1 H2.
  split; apply round_fine_mono; symbolic (2 ^ 1074); nia.
Qed.

Lemma within_sub (K1 K2 : Z) (x y : float) :
  K1 < 2 ^ 2098 -> K2 < 2 ^ 2098 -> within K1 x -> within K2 y ->
  within (round_fine ((K1 + K2) * 2 ^ 1074)) (x - y)%float.
Proof.
  intros H1 H2 W1 W2.
  pose proof (within_finite _ _ H1 W1) as F1. pose proof (within_finite _ _ H2 W2) as F2.
  destruct W1 as [N1 B1], W2 as [N2 B2].
  pose proof (sub_finite x y F1 F2) as NN. split; [exact NN|].
  rewrite grid_sub by exact NN.
  assert (0 < 2 ^ 1074) by (apply pow2_pos; lia).
  rewrite <- round_fine_opp. clear H1 H2.
  split; apply round_fine_mono; symbolic (2 ^ 1074); nia.
Qed.

Lemma within_const (c : float) : is_nan c = false -> within (Z.abs (grid c)) c.
Proof. intros H. split; [assumption | lia]. Qed.

Lemma within_linear (c0 c1 c2 c3 a h w : float) (K : Z) :
  is_finite c0 = true -> is_finite c1 = true ->
  is_finite c2 = true -> is_finite c3 = true ->
  no_overflow c0 c1 c2 c3 K = true ->
  within K a -> within K h -> within K w ->
  is_finite (linear_formula c0 c1 c2 c3 a h w) = true.
Proof.
  unfold no_overflow. cbv zeta. intros F0 F1 F2 F3 OK Wa Wh Ww.
  repeat (apply andb_prop in OK; destruct OK as [OK ?]).
  repeat match goal with H : (_ <? _) = true |- _ => apply Z.ltb_lt in H end.
  apply (within_finite (linear_bound c0 c1 c2 c3 K)); [assumption|].
  unfold linear_formula, linear_bound, term_bound in *.
  assert (W0 : within (Z.abs (grid c0)) c0).
  { apply within_const. apply finite_grid in F0. tauto. }
  assert (B0 : Z.abs (grid c0) < 2 ^ 2098).
  { apply finite_grid in F0. clear - F0. symbolic (2 ^ 2098). lia. }
  apply within_sub; [assumption | assumption | | apply within_mul; assumption].
  apply within_add; [assumption | assumption | | apply within_mul; assumption].
  apply within_add; [assumption | assumption | assumption | apply within_mul; assumption].
Qed.

(** ** [Math.round] of a finite number *)

Lemma round_int_finite (x : spec_float) :
  valid_binary x = true -> SFfinite x = true ->
  - 2 ^ 2098 < round_int (ord x) < 2 ^ 2098.
Proof.
  intros V F. destruct x as [s|s| |s m e]; try discriminate; cbn [ord].
  - pose proof (round_int_multiple 0) as E. rewrite Z.mul_0_l in E. rewrite E.
    assert (0 < 2 ^ 2098) by (apply pow2_pos; lia). symbolic (2 ^ 2098). lia.
  - destruct (valid_finite _ _ _ V) as (He & D & _ & U & B).
    destruct (Z.le_gt_cases 0 e) as [Hpos | Hneg].
    + rewrite pow2_split in B |- * by lia.
      rewrite Z.mul_assoc, <- cond_Zopp_mul_r.
      rewrite round_int_multiple. rewrite cond_Zopp_mul_r, <- Z.mul_assoc.
      symbolic (2 ^ 2098). symbolic (2 ^ 1074).
      destruct s; cbn [cond_Zopp]; lia.
    + clear B.
      assert (T : 0 < 2 ^ (e + 1074)) by (apply pow2_pos; lia).
      assert (T' : 2 ^ (e + 1074) <= 2 ^ 1073) by (apply Z.pow_le_mono_r; lia).
      assert (P : 0 < 2 ^ 1073) by (apply pow2_pos; lia).
      assert (H98 : 2 ^ 52 * 2 ^ 1074 < 2 ^ 2098).
      { apply (mul_pow2_lt _ 53); [discriminate | discriminate | reflexivity | discriminate]. }
      assert (E1 : round_int (2 ^ 53 * 2 ^ 1073) = 2 ^ 52 * 2 ^ 1074).
      { replace (2 ^ 53 * 2 ^ 1073) with (2 ^ 52 * 2 ^ 1074); [apply round_int_multiple|].
        rewrite pow2_1074. change (2 ^ 53) with (2 ^ 52 * 2). symbolic (2 ^ 1073). ring. }
      assert (E2 : round_int (- (2 ^ 53 * 2 ^ 1073)) = - 2 ^ 52 * 2 ^ 1074).
      { replace (- (2 ^ 53 * 2 ^ 1073)) with (- 2 ^ 52 * 2 ^ 1074); [apply round_int_multiple|].
        rewrite pow2_1074. change (2 ^ 53) with (2 ^ 52 * 2). symbolic (2 ^ 1073). ring. }
      set (g := cond_Zopp s (Zpos m * 2 ^ (e + 1074))).
      assert (Bg : - (2 ^ 53 * 2 ^ 1073) < g < 2 ^ 53 * 2 ^ 1073).
      { unfold g. clear - U T T' P. symbolic (2 ^ 1073).
        destruct s; cbn [cond_Zopp]; nia. }
      pose proof (round_int_mono _ _ (Z.lt_le_incl _ _ (proj1 Bg))) as L.
      pose proof (round_int_mono _ _ (Z.lt_le_incl _ _ (proj2 Bg))) as R.
      rewrite E1 in R. rewrite E2 in L.
      symbolic (2 ^ 2098). symbolic (2 ^ 1074). lia.
Qed.

Lemma Math_round_finite (x : float) :
  is_finite x = true ->
  is_finite (Math_round x) = true
  /\ grid (Math_round x) = (grid x + 2 ^ 1073) / 2 ^ 1074 * 2 ^ 1074.
Proof.
  intros F. pose proof F as F'. apply finite_grid in F'. destruct F' as [N _].
  rewrite is_finite_SF in F.
  pose proof (round_int_finite _ (Prim2SF_valid x) F) as B.
  split.
  - apply finite_grid. rewrite Math_round_nan. split; [exact N|].
    rewrite grid_Math_round by exact N. exact B.
  - rewrite grid_Math_round by exact N. reflexivity.
Qed.

Lemma Math_round_not_finite (x : float) :
  is_finite x = false -> Math_round x = x.
Proof.
  rewrite is_finite_SF. unfold Math_round. intros F.
  rewrite <- (SF2Prim_Prim2SF x) at 2. f_equal.
  destruct (Prim2SF x); try discriminate; reflexivity.
Qed.

Lemma isInteger_of_grid (x : float) (n : Z) :
  is_finite x = true -> grid x = n * 2 ^ 1074 -> Number_isInteger x = true.
Proof.
  rewrite is_finite_SF. unfold Number_isInteger, grid.
  pose proof (Prim2SF_valid x) as V.
  destruct (Prim2SF x) as [s|s| |s m e]; try discriminate; [reflexivity|].
  intros _ E. cbn [ord] in E.
  destruct (valid_finite _ _ _ V) as (He & _).
  destruct (Z.leb_spec 0 e) as [Hpos | Hneg]; [reflexivity|]. cbn [orb].
  apply Z.eqb_eq.
  assert (T : 0 < 2 ^ (e + 1074)) by (apply pow2_pos; lia).
  assert (S : 2 ^ 1074 = 2 ^ (- e) * 2 ^ (e + 1074)).
  { rewrite <- pow2_split by lia. f_equal. lia. }
  assert (Em : Zpos m = Z.abs n * 2 ^ (- e)).
  { rewrite S in E. clear S V. destruct s; cbn [cond_Zopp] in E; nia. }
  rewrite Em. apply Z.mod_mul. apply Z.pow_nonzero; lia.
Qed.

(** A finite number lies in the half-open unit interval centred on its
    rounding. *)
Lemma Math_round_nearest (x : float) :
  is_finite x = true ->
  exists n : Z,
    is_finite (Math_round x) = true
    /\ (exact (Math_round x) == inject_Z n)%Q
    /\ (inject_Z n - (1 # 2) <= exact x)%Q
    /\ (exact x < inject_Z n + (1 # 2))%Q.
Proof.
  intros F. destruct (Math_round_finite x F) as [FR G].
  exists ((grid x + 2 ^ 1073) / 2 ^ 1074). split; [exact FR|].
  assert (P : 0 < 2 ^ 1074) by (apply pow2_pos; lia).
  pose proof (Z.div_mod (grid x + 2 ^ 1073) (2 ^ 1074) ltac:(lia)) as D.
  pose proof (Z.mod_pos_bound (grid x + 2 ^ 1073) (2 ^ 1074) P) as B.
  set (n := (grid x + 2 ^ 1073) / 2 ^ 1074) in *.
  set (r := (grid x + 2 ^ 1073) mod 2 ^ 1074) in *.
  pose proof pow2_1074 as H2.
  unfold exact, Qeq, Qle, Qlt, Qminus, Qplus, Qopp, inject_Z. cbn [Qnum Qden].
  rewrite G. fold n.
  rewrite !Pos2Z.inj_pow.
  change (Zpos (1 * 2)) with 2.
  symbolic (2 ^ 1074) as q. symbolic (2 ^ 1073) as h.
  repeat split; lia.
Qed.

(** ** Bounds by powers of two

    The overflow check of a formula whose constants and inputs are bounded
    by powers of two, without computing on the grid. *)

Lemma round_fine_pow2 (n : Z) :
  1127 <= n -> n < 3172 -> round_fine (2 ^ n) = 2 ^ (n - 1074).
Proof.
  intros H1 H2. rewrite round_fine_pos by (apply Z.pow_nonneg; lia).
  rewrite rnd_pow2 by assumption. apply clamp_small. apply Z.pow_lt_mono_r; lia.
Qed.

Lemma round_fine_below_pow2 (N n : Z) :
  1127 <= n -> n < 3172 -> N <= 2 ^ n -> round_fine N <= 2 ^ (n - 1074).
Proof.
  intros H1 H2 H. rewrite <- round_fine_pow2 by assumption.
  apply round_fine_mono. assumption.
Qed.

Lemma abs_cond_Zopp (s : bool) (v : Z) : 0 <= v -> Z.abs (cond_Zopp s v) = v.
Proof. intros H. destruct s; cbn [cond_Zopp]; lia. Qed.

Lemma abs_grid_lt (x : float) (n : Z) :
  match Prim2SF x with
  | S754_zero _ => 0 <=? n
  | S754_finite _ _ e => e + 1127 <=? n
  | _ => false
  end = true ->
  Z.abs (grid x) < 2 ^ n.
Proof.
  unfold grid. pose proof (Prim2SF_valid x) as V.
  destruct (Prim2SF x) as [s|s| |s m e]; try discriminate; cbn [ord];
    intros H; apply Z.leb_le in H.
  - apply pow2_pos. assumption.
  - destruct (valid_finite _ _ _ V) as (He & _ & _ & U & _).
    assert (0 < 2 ^ (e + 1074)) by (apply pow2_pos; lia).
    rewrite abs_cond_Zopp by (apply Z.mul_nonneg_nonneg; lia).
    apply (mul_pow2_lt _ 53); lia.
Qed.

Lemma abs_grid_le (x : float) (n : Z) :
  match Prim2SF x with
  | S754_zero _ => 0 <=? n
  | S754_finite _ _ e => e + 1127 <=? n
  | _ => false
  end = true ->
  Z.abs (grid x) <= 2 ^ n.
Proof. intros H. apply Z.lt_le_incl, abs_grid_lt, H. Qed.

Lemma grid_le_pow2 (x : float) (n : Z) :
  match Prim2SF x with
  | S754_zero _ => 0 <=? n
  | S754_finite _ _ e => e + 1127 <=? n
  | _ => false
  end = true ->
  grid x <= 2 ^ n.
Proof. intros H. apply abs_grid_lt in H. lia. Qed.

Lemma grid_nonneg (x : float) : (0 <=? x)%float = true -> 0 <= grid x.
Proof. intros H. apply leb_grid in H. apply H. Qed.

Lemma grid_opp (x : float) : grid (- x)%float = - grid x.
Proof. unfold grid. rewrite FloatAxioms.opp_spec. apply ord_opp. Qed.

Lemma no_overflow_pow2 (c0 c1 c2 c3 : float) (K a k : Z) :
  0 <= a -> 0 <= k -> a + k + 3 <= 1023 ->
  Z.abs (grid c0) <= 2 ^ (a + 1074) -> Z.abs (grid c1) <= 2 ^ (a + 1074) ->
  Z.abs (grid c2) <= 2 ^ (a + 1074) -> Z.abs (grid c3) <= 2 ^ (a + 1074) ->
  K <= 2 ^ (k + 1074) ->
  no_overflow c0 c1 c2 c3 K = true.
Proof.
  intros Ha Hk Hak B0 B1 B2 B3 BK.
  assert (T : forall c, Z.abs (grid c) <= 2 ^ (a + 1074) ->
              term_bound c K <= 2 ^ (a + k + 1074)).
  { intros c Bc. unfold term_bound.
    replace (a + k + 1074) with (a + 1074 + (k + 1074) - 1074) by lia.
    apply round_fine_below_pow2; [lia | lia |].
    rewrite pow2_split by lia.
    assert (0 < 2 ^ (a + 1074)) by (apply pow2_pos; lia).
    assert (0 < 2 ^ (k + 1074)) by (apply pow2_pos; lia).
    pose proof (Z.abs_nonneg (grid c)).
    destruct (Z.le_gt_cases 0 K).
    - apply Z.mul_le_mono_nonneg; assumption.
    - apply Z.le_trans with 0; [|apply Z.mul_nonneg_nonneg; lia].
      apply Z.mul_nonneg_nonpos; lia. }
  assert (S : forall u v n, 0 <= n -> n + 1 <= 1023 ->
              u <= 2 ^ (n + 1074) -> v <= 2 ^ (n + 1074) ->
              round_fine ((u + v) * 2 ^ 1074) <= 2 ^ (n + 1 + 1074)).
  { intros u v n Hn Hn1 Bu Bv.
    replace (n + 1 + 1074) with (n + 1074 + 1 + 1074 - 1074) by lia.
    apply round_fine_below_pow2; [lia | lia |].
    rewrite (pow2_split (n + 1074 + 1)), pow2_double by lia.
    apply Z.mul_le_mono_nonneg_r; [apply Z.pow_nonneg; lia | lia]. }
  assert (M : forall n, a <= n -> 2 ^ (a + 1074) <= 2 ^ (n + 1074))
    by (intros n Hn; apply Z.pow_le_mono_r; lia).
  pose proof (T c1 B1) as T1. pose proof (T c2 B2) as T2. pose proof (T c3 B3) as T3.
  assert (L : forall n v, n + 1074 < 2098 -> v <= 2 ^ (n + 1074) -> (v <? 2 ^ 2098) = true).
  { intros n v Hn Hv. apply Z.ltb_lt. apply Z.le_lt_trans with (1 := Hv).
    apply Z.pow_lt_mono_r; lia. }
  assert (U : forall n v, a + k <= n -> v <= 2 ^ (a + k + 1074) -> v <= 2 ^ (n + 1074)).
  { intros n v Hn Hv. apply Z.le_trans with (1 := Hv). apply Z.pow_le_mono_r; lia. }
  unfold no_overflow. cbv zeta.
  set (s1 := round_fine ((Z.abs (grid c0) + term_bound c1 K) * 2 ^ 1074)).
  set (s2 := round_fine ((s1 + term_bound c2 K) * 2 ^ 1074)).
  set (s3 := round_fine ((s2 + term_bound c3 K) * 2 ^ 1074)).
  assert (S1 : s1 <= 2 ^ (a + k + 1 + 1074)).
  { apply S; [lia | lia | | assumption]. apply Z.le_trans with (1 := B0). apply M. lia. }
  assert (S2 : s2 <= 2 ^ (a + k + 1 + 1 + 1074)).
  { apply S; [lia | lia | assumption | apply U; [lia | assumption]]. }
  assert (S3 : s3 <= 2 ^ (a + k + 1 + 1 + 1 + 1074)).
  { apply S; [lia | lia | assumption | apply U; [lia | assumption]]. }
  rewrite (L k K ltac:(lia) BK).
  rewrite (L (a + k) _ ltac:(lia) T1), (L (a + k) _ ltac:(lia) T2),
    (L (a + k) _ ltac:(lia) T3).
  rewrite (L (a + k + 1) _ ltac:(lia) S1), (L (a + k + 1 + 1) _ ltac:(lia) S2),
    (L (a + k + 1 + 1 + 1) _ ltac:(lia) S3).
  reflexivity.
Qed.

End Binary64.

(* ================================================================= *)
(** * [validateInputs]: accepted and rejected measurements *)

Lemma in_range_not_rejected (lo hi x : number) :
  (0 <? lo) = true -> (lo <=? x) = true -> (x <=? hi) = true ->
  JS.not x || (x <? lo) || (hi <? x) = false.
Proof.
  intros Hlo Hx Hhi. unfold JS.not.
  rewrite (Binary64.above_positive_truthy lo x Hlo Hx).
  rewrite (Binary64.leb_ltb_false _ _ Hx), (Binary64.leb_ltb_false _ _ Hhi).
  reflexivity.
Qed.

(** C2.  Every age in [1,120], height in [50,250] and weight in [20,300],
    the bounds included, is accepted: [validateInputs] returns [isValid]
    true with the empty message. *)
Theorem validateInputs_accepts_in_range (age height weight : number) :
  (1 <=? age) = true -> (age <=? 120) = true ->
  (50 <=? height) = true -> (height <=? 250) = true ->
  (20 <=? weight) = true -> (weight <=? 300) = true ->
  validateInputs age height weight = {| isValid := true; message := "" |}.
Proof.
  intros Ha1 Ha2 Hh1 Hh2 Hw1 Hw2.
  unfold validateInputs, age_rejected, height_rejected, weight_rejected.
  rewrite (in_range_not_rejected 1 120 age), (in_range_not_rejected 50 250 height),
    (in_range_not_rejected 20 300 weight); auto.
Qed.

Lemma validateInputs_accepts_in_range_witness :
  validateInputs 1 250 20 = {| isValid := true; message := "" |}.
Proof.
  apply (validateInputs_accepts_in_range 1 250 20); reflexivity.
Defined.

(** C3 (as the script has it).  An age that is [NaN], zero, below 1 or above
    120 is rejected whatever the other fields are, with the script's age
    message; [NaN] and zero are caught by the falsy test [!age]. *)
Theorem validateInputs_rejects_age (age height weight : number) :
  is_nan age = true \/ is_zero age = true \/
  (age <? 1) = true \/ (120 <? age) = true ->
  validateInputs age height weight = {| isValid := false; message := age_message |}
  /\ (is_nan age = true \/ is_zero age = true -> JS.not age = true).
Proof.
  intros H. split.
  - unfold validateInputs, age_rejected, JS.not, ToBoolean.
    destruct H as [H | [H | [H | H]]]; rewrite H;
      rewrite ?orb_true_r; reflexivity.
  - unfold JS.not, ToBoolean.
    intros [H' | H']; rewrite H'; rewrite ?orb_true_r; reflexivity.
Qed.

Lemma validateInputs_rejects_age_witness :
  validateInputs nan 170 70 = {| isValid := false; message := age_message |}
  /\ (is_nan nan = true \/ is_zero nan = true -> JS.not nan = true).
Proof.
  apply (validateInputs_rejects_age nan 170 70). left. reflexivity.
Defined.

(** C3 as the specification words it fails: the message of a rejected age is
    the script's own text, not the English sentence of the specification. *)
Lemma age_message_is_not_the_spec_text :
  validateInputs 0 170 70 = {| isValid := false; message := age_message |}
  /\ message (validateInputs 0 170 70) <> spec_age_message.
Proof. split; [reflexivity | discriminate]. Qed.

(** C4.  The rules are checked in the order age, height, weight and the
    first one that fails decides the result: the message is that of the
    first rejected field in that order, and the three messages differ. *)
Theorem validateInputs_first_failure_wins (age height weight : number) :
  validateInputs age height weight =
    match find (fun f => rejected f age height weight) rule_order with
    | Some f => {| isValid := false; message := message_of f |}
    | None => {| isValid := true; message := "" |}
    end
  /\ rule_order = [Age; Height; Weight]
  /\ (forall f g : Field, message_of f = message_of g -> f = g).
Proof.
  split; [|split].
  - unfold validateInputs, rule_order; simpl.
    destruct (age_rejected age); [reflexivity|].
    destruct (height_rejected height); [reflexivity|].
    destruct (weight_rejected weight); reflexivity.
  - reflexivity.
  - intros [] []; simpl; intros H; try reflexivity; discriminate H.
Qed.

(* ================================================================= *)
(** * [calculateBMR]: test vectors, gender branch *)

(** C5.  The two test vectors of the specification. *)
Theorem calculateBMR_test_vectors :
  calculateBMR "male" 30 175 70 = 1696
  /\ calculateBMR "female" 30 165 60 = 1384.
Proof. split; vm_compute; reflexivity. Qed.

(** C6.  Every gender string other than ["male"] is computed with the
    female formula. *)
Theorem calculateBMR_not_male_is_female (gender : string) (age height weight : number) :
  gender <> "male"%string ->
  calculateBMR gender age height weight = calculateBMR "female" age height weight.
Proof.
  intros H. unfold calculateBMR, strict_eq.
  destruct (String.eqb_spec gender "male") as [E | _]; [contradiction|].
  reflexivity.
Qed.

Lemma calculateBMR_not_male_is_female_witness :
  calculateBMR "other" 30 165 60 = calculateBMR "female" 30 165 60.
Proof.
  apply (calculateBMR_not_male_is_female "other" 30 165 60). discriminate.
Defined.

(* ================================================================= *)
(** * [performCalculation]: validate, then calculate *)

(** C8 (as the script has it).  [performCalculation] takes no argument: it
    reads the four raw values from the form, parses the three numbers, and
    validates them.  When [validateInputs] rejects, [showError] is called
    with the validation message and neither [calculateBMR] nor
    [displayResult] is called; when it accepts, [displayResult] is called
    with [calculateBMR] of the same gender and parsed numbers.  Either way
    the page's form is left as it was and the function returns
    [undefined]. *)
Theorem performCalculation_validate_then_calculate
    (parseInt parseFloat : string -> number) (w : World) :
  let gender := gender_checked (page w) in
  let age := parseInt (age_value (page w)) in
  let height := parseFloat (height_value (page w)) in
  let weight := parseFloat (weight_value (page w)) in
  let validation := validateInputs age height weight in
  performCalculation parseInt parseFloat w =
    (VUndefined,
     {| page := page w;
        calls := calls w ++
          if isValid validation then
            [validateInputs_called age height weight;
             calculateBMR_called gender age height weight;
             displayResult_called (calculateBMR gender age height weight)]
          else
            [validateInputs_called age height weight;
             showError_called (message validation)] |}).
Proof.
  intros gender age height weight validation.
  unfold performCalculation, bind, read, call_validateInputs,
    call_calculateBMR, showError, displayResult, record, ret, bind; simpl.
  fold gender age height weight validation.
  destruct (isValid validation); simpl; rewrite <- !app_assoc; reflexivity.
Qed.

(** C8 as the specification words it fails: on a valid form the function
    does not return the tagged result [{ ok: true, bmr }], and on an invalid
    one it does not return [{ ok: false, message }]; it returns [undefined]
    and hands the number to [displayResult], the message to [showError]. *)
Lemma performCalculation_returns_undefined :
  let run := performCalculation parse_digits parse_digits
               {| page := form_male_30; calls := [] |} in
  let run0 := performCalculation parse_digits parse_digits
                {| page := form_male_0; calls := [] |} in
  validateInputs (parse_digits "30") (parse_digits "175") (parse_digits "70")
    = {| isValid := true; message := "" |}
  /\ fst run = VUndefined
  /\ fst run <> spec_ok (calculateBMR "male" 30 175 70)
  /\ calls (snd run) =
       [validateInputs_called 30 175 70;
        calculateBMR_called "male" 30 175 70;
        displayResult_called 1696]
  /\ fst run0 = VUndefined
  /\ fst run0 <> spec_error age_message
  /\ calls (snd run0) =
       [validateInputs_called 0 175 70; showError_called age_message].
Proof.
  cbv zeta.
  refine (conj _ (conj _ (conj _ (conj _ (conj _ (conj _ _))))));
    try discriminate; vm_compute; reflexivity.
Qed.

(* ================================================================= *)
(** * [calculateBMR]: the formula, its rounding, its range *)

Import Grid Binary64.

Lemma calculateBMR_unfold (gender : string) (age height weight : number) :
  calculateBMR gender age height weight
  = Math_round (reference_BMR (gender_of gender) age height weight).
Proof.
  unfold calculateBMR, reference_BMR, gender_of.
  destruct (strict_eq gender "male"); reflexivity.
Qed.

Lemma coefficients_finite (g : Gender) :
  let c := harris_benedict g in
  is_finite (base c) = true /\ is_finite (per_kg c) = true
  /\ is_finite (per_cm c) = true /\ is_finite (per_year c) = true
  /\ (0 <= grid (per_kg c))%Z /\ (0 <= grid (per_cm c))%Z /\ (0 <= grid (per_year c))%Z
  /\ no_overflow (base c) (per_kg c) (per_cm c) (per_year c) (grid 1e300) = true.
Proof.
  destruct g; cbv zeta; cbn [harris_benedict base per_kg per_cm per_year];
    refine (conj _ (conj _ (conj _ (conj _ (conj _ (conj _ (conj _ _)))))));
    first
      [ apply (no_overflow_pow2 _ _ _ _ _ 9 997);
          [ discriminate | discriminate | discriminate
          | apply abs_grid_le; reflexivity | apply abs_grid_le; reflexivity
          | apply abs_grid_le; reflexivity | apply abs_grid_le; reflexivity
          | apply grid_le_pow2; reflexivity ]
      | apply grid_nonneg; reflexivity
      | reflexivity ].
Qed.

Lemma within_1e300 (x : float) :
  (-1e300 <=? x) = true -> (x <=? 1e300) = true -> within (grid 1e300) x.
Proof.
  intros L U. apply leb_grid in L, U.
  destruct L as (_ & N & L), U as (_ & _ & U).
  split; [exact N|].
  change (-1e300)%float with (- (1e300))%float in L. rewrite grid_opp in L.
  split; assumption.
Qed.

Lemma reference_BMR_finite (g : Gender) (age height weight : number) :
  (-1e300 <=? age) = true -> (age <=? 1e300) = true ->
  (-1e300 <=? height) = true -> (height <=? 1e300) = true ->
  (-1e300 <=? weight) = true -> (weight <=? 1e300) = true ->
  is_finite (reference_BMR g age height weight) = true.
Proof.
  intros A1 A2 H1 H2 W1 W2.
  destruct (coefficients_finite g) as (F0 & F1 & F2 & F3 & _ & _ & _ & OK).
  unfold reference_BMR.
  apply (within_linear _ _ _ _ _ _ _ (grid 1e300)); auto using within_1e300.
Qed.

(** C9 (as the script has it).  [calculateBMR] is a total function that
    validates nothing and signals no error.  Whenever the value of its
    formula is finite the result is an integer; that is the case for all
    ages, heights and weights between -1e300 and 1e300, zero and negative
    values included.  When the formula overflows to an infinity, or is
    [NaN], that value is returned as it is. *)
Theorem calculateBMR_total (gender : string) (age height weight : number) :
  let bmr := reference_BMR (gender_of gender) age height weight in
  (is_finite bmr = true ->
   Number_isInteger (calculateBMR gender age height weight) = true)
  /\ (is_finite bmr = false -> calculateBMR gender age height weight = bmr)
  /\ ((-1e300 <=? age) = true -> (age <=? 1e300) = true ->
      (-1e300 <=? height) = true -> (height <=? 1e300) = true ->
      (-1e300 <=? weight) = true -> (weight <=? 1e300) = true ->
      is_finite bmr = true).
Proof.
  intros bmr. rewrite calculateBMR_unfold. fold bmr. split; [|split].
  - intros F. destruct (Math_round_finite bmr F) as [FR G].
    apply (isInteger_of_grid _ _ FR G).
  - apply Math_round_not_finite.
  - apply reference_BMR_finite.
Qed.

(** C9 as stated fails: a weight of 1e308 is a number, the formula overflows
    and the result is [Infinity], which is no integer. *)
Lemma calculateBMR_overflows :
  calculateBMR "male" 0 0 1e308 = infinity
  /\ Number_isInteger (calculateBMR "male" 0 0 1e308) = false.
Proof. split; vm_compute; reflexivity. Qed.


(** C10 (as the script has it).  For each gender, with the other arguments
    held fixed, [calculateBMR] is non-decreasing in weight and in height and
    non-increasing in age, whenever the two results compared are numbers
    (not [NaN]); and no result is [NaN] when age, height and weight all lie
    between -1e300 and 1e300. *)
Theorem calculateBMR_monotone (gender : string) (age height weight : number) :
  (forall weight' : number,
      (weight <=? weight') = true ->
      is_nan (calculateBMR gender age height weight) = false ->
      is_nan (calculateBMR gender age height weight') = false ->
      (calculateBMR gender age height weight
       <=? calculateBMR gender age height weight') = true)
  /\ (forall height' : number,
      (height <=? height') = true ->
      is_nan (calculateBMR gender age height weight) = false ->
      is_nan (calculateBMR gender age height' weight) = false ->
      (calculateBMR gender age height weight
       <=? calculateBMR gender age height' weight) = true)
  /\ (forall age' : number,
      (age <=? age') = true ->
      is_nan (calculateBMR gender age height weight) = false ->
      is_nan (calculateBMR gender age' height weight) = false ->
      (calculateBMR gender age' height weight
       <=? calculateBMR gender age height weight) = true)
  /\ ((-1e300 <=? age) = true -> (age <=? 1e300) = true ->
      (-1e300 <=? height) = true -> (height <=? 1e300) = true ->
      (-1e300 <=? weight) = true -> (weight <=? 1e300) = true ->
      is_nan (calculateBMR gender age height weight) = false).
Proof.
  destruct (coefficients_finite (gender_of gender)) as (_ & _ & _ & _ & P1 & P2 & P3 & _).
  split; [|split; [|split]].
  1-3: intros x Hx N1 N2;
    rewrite !calculateBMR_unfold in *; unfold reference_BMR in *;
    pose proof N1 as N1'; pose proof N2 as N2';
    rewrite Math_round_nan in N1', N2';
    apply leb_grid; (split; [assumption | split; [assumption|]]);
    rewrite !grid_Math_round by assumption; apply round_int_mono.
  - apply linear_mono_weight; assumption.
  - apply linear_mono_height; assumption.
  - apply linear_anti_age; assumption.
  - intros A1 A2 H1 H2 W1 W2.
    rewrite calculateBMR_unfold, Math_round_nan.
    apply finite_grid, reference_BMR_finite; assumption.
Qed.

Lemma calculateBMR_monotone_witness :
  (calculateBMR "male" 30 175 70 <=? calculateBMR "male" 30 175 80) = true
  /\ (calculateBMR "male" 30 175 70 <=? calculateBMR "male" 30 180 70) = true
  /\ (calculateBMR "male" 40 175 70 <=? calculateBMR "male" 30 175 70) = true
  /\ is_nan (calculateBMR "male" 30 175 70) = false.
Proof.
  destruct (calculateBMR_monotone "male" 30 175 70) as (W & H & A & N).
  split; [|split; [|split]].
  - apply (W 80); vm_compute; reflexivity.
  - apply (H 180); vm_compute; reflexivity.
  - apply (A 40); vm_compute; reflexivity.
  - apply N; vm_compute; reflexivity.
Defined.

(** C10 as stated fails: with a height of -1e308 the weight term overflows
    at 1e308 and the sum of two opposite infinities is [NaN], which is not
    above the result [-Infinity] for the smaller weight 1e307. *)
Lemma calculateBMR_not_monotone_on_overflow :
  (1e307 <=? 1e308) = true
  /\ calculateBMR "male" 0 (-1e308) 1e307 = neg_infinity
  /\ is_nan (calculateBMR "male" 0 (-1e308) 1e308) = true
  /\ (calculateBMR "male" 0 (-1e308) 1e307
      <=? calculateBMR "male" 0 (-1e308) 1e308) = false.
Proof. repeat split; vm_compute; reflexivity. Qed.

(** X1.  The binary64 value of the formula can fall on the other side of a
    tie than its exact decimal value.  For a woman of 40 years, 174 cm and 65 kg
    the decimal value is 1414.5, which rounds up to 1415; the binary64 value
    is just below 1414.5 and [calculateBMR] returns 1414. *)
Theorem calculateBMR_below_decimal_tie :
  calculateBMR "female" 40 174 65 = 1414
  /\ (decimal_BMR Female 40 174 65 == 14145 # 10)%Q
  /\ nearest_integer (decimal_BMR Female 40 174 65) = 1415%Z
  /\ (exact (reference_BMR Female 40%float 174%float 65%float) < 14145 # 10)%Q.
Proof.
  split; [|split; [|split]]; vm_compute; reflexivity.
Qed.

(* ================================================================= *)
(** * More on [validateInputs] and [calculateBMR] *)

Lemma SFltb_ord (x y : spec_float) :
  valid_binary x = true -> valid_binary y = true ->
  x <> S754_nan -> y <> S754_nan ->
  SFltb x y = (ord x <? ord y)%Z.
Proof.
  intros Vx Vy Nx Ny. unfold SFltb. rewrite SFcompare_ord by assumption.
  unfold Z.ltb. destruct (ord x ?= ord y)%Z; reflexivity.
Qed.

Lemma SFeqb_ord (x y : spec_float) :
  valid_binary x = true -> valid_binary y = true ->
  x <> S754_nan -> y <> S754_nan ->
  SFeqb x y = (ord x =? ord y)%Z.
Proof.
  intros Vx Vy Nx Ny. unfold SFeqb. rewrite SFcompare_ord by assumption.
  rewrite Z.eqb_compare. reflexivity.
Qed.

Lemma leb_bool (x y : float) :
  is_nan x = false -> is_nan y = false -> (x <=? y) = (grid x <=? grid y)%Z.
Proof.
  intros Nx Ny. rewrite FloatAxioms.leb_spec. apply not_nan in Nx, Ny.
  apply SFleb_ord; auto using Prim2SF_valid.
Qed.

Lemma ltb_bool (x y : float) :
  is_nan x = false -> is_nan y = false -> (x <? y) = (grid x <? grid y)%Z.
Proof.
  intros Nx Ny. rewrite FloatAxioms.ltb_spec. apply not_nan in Nx, Ny.
  apply SFltb_ord; auto using Prim2SF_valid.
Qed.

Lemma is_zero_bool (x : float) :
  is_nan x = false -> is_zero x = (grid x =? 0)%Z.
Proof.
  intros Nx. unfold is_zero. rewrite FloatAxioms.eqb_spec. apply not_nan in Nx.
  change (Prim2SF PrimFloat.zero) with (S754_zero false).
  rewrite SFeqb_ord; auto using Prim2SF_valid. discriminate.
Qed.

Lemma SFcompare_nan_l (y : spec_float) : SFcompare S754_nan y = None.
Proof. destruct y; reflexivity. Qed.

Lemma SFcompare_nan_r (x : spec_float) : SFcompare x S754_nan = None.
Proof. destruct x; reflexivity. Qed.

Lemma leb_nan_r (x y : float) : is_nan y = true -> (x <=? y) = false.
Proof.
  intros N. apply Prim2SF_nan in N.
  rewrite FloatAxioms.leb_spec, N. unfold SFleb. rewrite SFcompare_nan_r. reflexivity.
Qed.

Lemma leb_nan_l (x y : float) : is_nan x = true -> (x <=? y) = false.
Proof.
  intros N. apply Prim2SF_nan in N.
  rewrite FloatAxioms.leb_spec, N. unfold SFleb. rewrite SFcompare_nan_l. reflexivity.
Qed.

(** The test of one [if] statement of [validateInputs] is the negation of
    the range test. *)
Lemma rejected_outside_range (lo hi x : number) :
  (0 <? lo) = true -> is_nan hi = false ->
  JS.not x || (x <? lo) || (hi <? x) = negb ((lo <=? x) && (x <=? hi)).
Proof.
  intros Hlo Nhi.
  assert (Nlo : is_nan lo = false).
  { destruct (is_nan lo) eqn:E; [|reflexivity].
    apply Prim2SF_nan in E. rewrite FloatAxioms.ltb_spec, E in Hlo.
    unfold SFltb in Hlo. rewrite SFcompare_nan_r in Hlo. discriminate. }
  rewrite (ltb_bool 0 lo) in Hlo by (reflexivity || assumption).
  change (grid 0) with 0%Z in Hlo. apply Z.ltb_lt in Hlo.
  unfold JS.not, ToBoolean. rewrite negb_involutive.
  destruct (is_nan x) eqn:Nx.
  - rewrite (leb_nan_r lo x Nx), orb_true_r. reflexivity.
  - rewrite is_zero_bool, !ltb_bool, !leb_bool by assumption.
    rewrite orb_false_r.
    destruct (Z.eqb_spec (grid x) 0), (Z.ltb_spec (grid x) (grid lo)),
      (Z.ltb_spec (grid hi) (grid x)), (Z.leb_spec (grid lo) (grid x)),
      (Z.leb_spec (grid x) (grid hi)); try reflexivity; lia.
Qed.

Lemma validateInputs_unfold (age height weight : number) :
  validateInputs age height weight
  = if negb ((1 <=? age) && (age <=? 120)) then
      {| isValid := false; message := age_message |}
    else if negb ((50 <=? height) && (height <=? 250)) then
      {| isValid := false; message := height_message |}
    else if negb ((20 <=? weight) && (weight <=? 300)) then
      {| isValid := false; message := weight_message |}
    else {| isValid := true; message := "" |}.
Proof.
  unfold validateInputs, age_rejected, height_rejected, weight_rejected.
  rewrite (rejected_outside_range 1 120 age), (rejected_outside_range 50 250 height),
    (rejected_outside_range 20 300 weight) by reflexivity.
  reflexivity.
Qed.

Lemma isValid_in_range (age height weight : number) :
  isValid (validateInputs age height weight) = true ->
  ((1 <=? age) = true /\ (age <=? 120) = true)
  /\ ((50 <=? height) = true /\ (height <=? 250) = true)
  /\ ((20 <=? weight) = true /\ (weight <=? 300) = true).
Proof.
  rewrite validateInputs_unfold.
  destruct ((1 <=? age) && (age <=? 120)) eqn:A; [|discriminate].
  destruct ((50 <=? height) && (height <=? 250)) eqn:H; [|discriminate].
  destruct ((20 <=? weight) && (weight <=? 300)) eqn:W; [|discriminate].
  intros _. apply andb_prop in A, H, W. auto.
Qed.

(** X2.  [validateInputs] accepts exactly the measurements in range: its
    [isValid] is the conjunction of the six comparisons [1 <= age],
    [age <= 120], [50 <= height], [height <= 250], [20 <= weight] and
    [weight <= 300] as the runtime evaluates them (a comparison with [NaN]
    is false), and the message is empty exactly when it accepts. *)
Theorem validateInputs_accepts_exactly (age height weight : number) :
  isValid (validateInputs age height weight)
  = (1 <=? age) && (age <=? 120) && (50 <=? height) && (height <=? 250)
    && (20 <=? weight) && (weight <=? 300)
  /\ (isValid (validateInputs age height weight) = true
      <-> message (validateInputs age height weight) = ""%string).
Proof.
  rewrite validateInputs_unfold.
  destruct ((1 <=? age) && (age <=? 120)); cbn [negb andb isValid message];
    [|split; [reflexivity | split; discriminate]].
  destruct ((50 <=? height) && (height <=? 250)); cbn [negb andb isValid message];
    [|split; [reflexivity | split; discriminate]].
  destruct ((20 <=? weight) && (weight <=? 300)); cbn [negb andb isValid message];
    split; try reflexivity; split; try discriminate; reflexivity.
Qed.

Lemma age_in_range_not_rejected (age : number) :
  (1 <=? age) = true -> (age <=? 120) = true -> age_rejected age = false.
Proof.
  intros L U. unfold age_rejected.
  rewrite (rejected_outside_range 1 120 age), L, U by reflexivity. reflexivity.
Qed.

Lemma height_in_range_not_rejected (height : number) :
  (50 <=? height) = true -> (height <=? 250) = true -> height_rejected height = false.
Proof.
  intros L U. unfold height_rejected.
  rewrite (rejected_outside_range 50 250 height), L, U by reflexivity. reflexivity.
Qed.

(** X3.  With the age in range, a height that is [NaN], zero, less than 50
    or greater than 250 is rejected with the height message, whatever the
    weight is. *)
Theorem validateInputs_rejects_height (age height weight : number) :
  (1 <=? age) = true -> (age <=? 120) = true ->
  is_nan height = true \/ is_zero height = true \/
  (height <? 50) = true \/ (250 <? height) = true ->
  validateInputs age height weight = {| isValid := false; message := height_message |}.
Proof.
  intros L U H. unfold validateInputs.
  rewrite (age_in_range_not_rejected age L U).
  unfold height_rejected, JS.not, ToBoolean.
  destruct H as [H | [H | [H | H]]]; rewrite H; rewrite ?orb_true_r; reflexivity.
Qed.

Lemma validateInputs_rejects_height_witness :
  validateInputs 30 49.9 nan = {| isValid := false; message := height_message |}.
Proof.
  apply (validateInputs_rejects_height 30 49.9 nan); try reflexivity.
  right. right. left. reflexivity.
Defined.

(** X4.  With the age and the height in range, a weight that is [NaN],
    zero, less than 20 or greater than 300 is rejected with the weight
    message. *)
Theorem validateInputs_rejects_weight (age height weight : number) :
  (1 <=? age) = true -> (age <=? 120) = true ->
  (50 <=? height) = true -> (height <=? 250) = true ->
  is_nan weight = true \/ is_zero weight = true \/
  (weight <? 20) = true \/ (300 <? weight) = true ->
  validateInputs age height weight = {| isValid := false; message := weight_message |}.
Proof.
  intros L U L' U' H. unfold validateInputs.
  rewrite (age_in_range_not_rejected age L U),
    (height_in_range_not_rejected height L' U').
  unfold weight_rejected, JS.not, ToBoolean.
  destruct H as [H | [H | [H | H]]]; rewrite H; rewrite ?orb_true_r; reflexivity.
Qed.

Lemma validateInputs_rejects_weight_witness :
  validateInputs 120 50 300.5 = {| isValid := false; message := weight_message |}.
Proof.
  apply (validateInputs_rejects_weight 120 50 300.5); try reflexivity.
  right. right. right. reflexivity.
Defined.

Lemma mul_nan_r (x y : float) : is_nan y = true -> is_nan (x * y) = true.
Proof.
  intros N. apply Prim2SF_nan in N. apply Prim2SF_nan.
  rewrite FloatAxioms.mul_spec, N. apply SFmul_nan_r.
Qed.

Lemma add_nan_l (x y : float) : is_nan x = true -> is_nan (x + y) = true.
Proof.
  intros N. apply Prim2SF_nan in N. apply Prim2SF_nan.
  rewrite FloatAxioms.add_spec, N. apply SFadd_nan_l.
Qed.

Lemma add_nan_r (x y : float) : is_nan y = true -> is_nan (x + y) = true.
Proof.
  intros N. apply Prim2SF_nan in N. apply Prim2SF_nan.
  rewrite FloatAxioms.add_spec, N. apply SFadd_nan_r.
Qed.

Lemma sub_nan_l (x y : float) : is_nan x = true -> is_nan (x - y) = true.
Proof.
  intros N. apply Prim2SF_nan in N. apply Prim2SF_nan.
  rewrite FloatAxioms.sub_spec, N. apply SFsub_nan_l.
Qed.

Lemma sub_nan_r (x y : float) : is_nan y = true -> is_nan (x - y) = true.
Proof.
  intros N. apply Prim2SF_nan in N. apply Prim2SF_nan.
  rewrite FloatAxioms.sub_spec, N. apply SFsub_nan_r.
Qed.

(** X5.  [calculateBMR] does not validate: when the age, the height or the
    weight is [NaN], so is the result, for every gender string. *)
Theorem calculateBMR_nan (gender : string) (age height weight : number) :
  is_nan age = true \/ is_nan height = true \/ is_nan weight = true ->
  is_nan (calculateBMR gender age height weight) = true.
Proof.
  intros H. unfold calculateBMR. rewrite Math_round_nan.
  destruct (strict_eq gender "male"); destruct H as [H | [H | H]].
  all: first
    [ apply sub_nan_r, mul_nan_r, H
    | apply sub_nan_l, add_nan_r, mul_nan_r, H
    | apply sub_nan_l, add_nan_l, add_nan_r, mul_nan_r, H ].
Qed.

Lemma calculateBMR_nan_witness :
  is_nan (calculateBMR "male" 30 nan 70) = true.
Proof.
  apply (calculateBMR_nan "male" 30 nan 70). right. left. reflexivity.
Defined.

Lemma leb_trans (x y z : float) :
  (x <=? y) = true -> (y <=? z) = true -> (x <=? z) = true.
Proof.
  intros A B. apply leb_grid in A, B. apply leb_grid.
  destruct A as (Nx & _ & A), B as (_ & Nz & B). repeat split; try assumption. lia.
Qed.

Lemma finite_not_nan (x : float) : is_finite x = true -> is_nan x = false.
Proof. intros F. apply finite_grid in F. tauto. Qed.

(** The formula on a measurement in range is finite. *)
Lemma reference_BMR_in_range_finite (g : Gender) (age height weight : number) :
  (1 <=? age) = true -> (age <=? 120) = true ->
  (50 <=? height) = true -> (height <=? 250) = true ->
  (20 <=? weight) = true -> (weight <=? 300) = true ->
  is_finite (reference_BMR g age height weight) = true.
Proof.
  intros A1 A2 H1 H2 W1 W2.
  apply reference_BMR_finite.
  - apply (leb_trans _ 1 _); [reflexivity | assumption].
  - apply (leb_trans _ 120 _); [assumption | reflexivity].
  - apply (leb_trans _ 50 _); [reflexivity | assumption].
  - apply (leb_trans _ 250 _); [assumption | reflexivity].
  - apply (leb_trans _ 20 _); [reflexivity | assumption].
  - apply (leb_trans _ 300 _); [assumption | reflexivity].
Qed.

Lemma calculateBMR_between_extremes (g : Gender) (age height weight : number) :
  (1 <=? age) = true -> (age <=? 120) = true ->
  (50 <=? height) = true -> (height <=? 250) = true ->
  (20 <=? weight) = true -> (weight <=? 300) = true ->
  let r := Math_round (reference_BMR g age height weight) in
  (Math_round (reference_BMR g 120 50 20) <=? r) = true
  /\ (r <=? Math_round (reference_BMR g 1 250 300)) = true.
Proof.
  intros A1 A2 H1 H2 W1 W2 r. subst r.
  destruct (coefficients_finite g) as (_ & _ & _ & _ & P1 & P2 & P3 & _).
  assert (N : forall a h w,
             (1 <=? a) = true -> (a <=? 120) = true ->
             (50 <=? h) = true -> (h <=? 250) = true ->
             (20 <=? w) = true -> (w <=? 300) = true ->
             is_nan (reference_BMR g a h w) = false).
  { intros. apply finite_not_nan, reference_BMR_in_range_finite; assumption. }
  assert (R : forall x y,
             is_nan x = false -> is_nan y = false -> (grid x <= grid y)%Z ->
             (Math_round x <=? Math_round y) = true).
  { intros x y Nx Ny L. apply leb_grid. rewrite !Math_round_nan.
    repeat split; try assumption.
    rewrite !grid_Math_round by assumption. apply round_int_mono. exact L. }
  pose proof (N age height weight A1 A2 H1 H2 W1 W2) as N0.
  pose proof (N 120 height weight eq_refl eq_refl H1 H2 W1 W2) as Na.
  pose proof (N 120 50 weight eq_refl eq_refl eq_refl eq_refl W1 W2) as Nah.
  pose proof (N 120 50 20 eq_refl eq_refl eq_refl eq_refl eq_refl eq_refl) as Nlo.
  pose proof (N 1 height weight eq_refl eq_refl H1 H2 W1 W2) as Nb.
  pose proof (N 1 250 weight eq_refl eq_refl eq_refl eq_refl W1 W2) as Nbh.
  pose proof (N 1 250 300 eq_refl eq_refl eq_refl eq_refl eq_refl eq_refl) as Nhi.
  unfold reference_BMR in *. cbv zeta in *.
  split; apply R; try assumption.
  - eapply Z.le_trans; [|eapply Z.le_trans].
    + apply (linear_mono_weight _ _ _ _ 120 50 20 weight); assumption.
    + apply (linear_mono_height _ _ _ _ 120 50 height weight); assumption.
    + apply (linear_anti_age _ _ _ _ age 120 height weight); assumption.
  - eapply Z.le_trans; [|eapply Z.le_trans].
    + apply (linear_anti_age _ _ _ _ 1 age height weight); assumption.
    + apply (linear_mono_height _ _ _ _ 1 height 250 weight); assumption.
    + apply (linear_mono_weight _ _ _ _ 1 250 weight 300); assumption.
Qed.

(** Measurements in range give an integer between the values at the two
    extreme measurements of the gender. *)
Lemma calculateBMR_in_range (g : Gender) (age height weight : number) :
  (1 <=? age) = true -> (age <=? 120) = true ->
  (50 <=? height) = true -> (height <=? 250) = true ->
  (20 <=? weight) = true -> (weight <=? 300) = true ->
  let r := Math_round (reference_BMR g age height weight) in
  Number_isInteger r = true
  /\ match g with
     | Male => (-85 <=? r) = true /\ (r <=? 5302) = true
     | Female => (268 <=? r) = true /\ (r <=? 3992) = true
     end.
Proof.
  intros A1 A2 H1 H2 W1 W2 r. subst r.
  destruct (calculateBMR_between_extremes g age height weight A1 A2 H1 H2 W1 W2)
    as [Lo Hi].
  split.
  - destruct (Math_round_finite (reference_BMR g age height weight)) as [FR G].
    { apply reference_BMR_in_range_finite; assumption. }
    apply (isInteger_of_grid _ _ FR G).
  - destruct g.
    + change (Math_round (reference_BMR Male 120 50 20)) with (-85) in Lo.
      change (Math_round (reference_BMR Male 1 250 300)) with 5302 in Hi.
      split; assumption.
    + change (Math_round (reference_BMR Female 120 50 20)) with 268 in Lo.
      change (Math_round (reference_BMR Female 1 250 300)) with 3992 in Hi.
      split; assumption.
Qed.

(** X6.  For every measurement [validateInputs] accepts, [calculateBMR]
    returns an integer between its values at the two extreme measurements:
    age 120, height 50, weight 20 and age 1, height 250, weight 300.  These
    are -85 and 5302 for [male], 268 and 3992 for every other gender
    string. *)
Theorem calculateBMR_of_accepted (gender : string) (age height weight : number) :
  isValid (validateInputs age height weight) = true ->
  let r := calculateBMR gender age height weight in
  let lowest := calculateBMR gender 120 50 20 in
  let highest := calculateBMR gender 1 250 300 in
  Number_isInteger r = true
  /\ (lowest <=? r) = true /\ (r <=? highest) = true
  /\ (gender = "male"%string -> lowest = -85 /\ highest = 5302)
  /\ (gender <> "male"%string -> lowest = 268 /\ highest = 3992).
Proof.
  intros V r lowest highest. apply isValid_in_range in V.
  destruct V as ((A1 & A2) & (H1 & H2) & (W1 & W2)).
  subst r lowest highest. rewrite !calculateBMR_unfold.
  destruct (calculateBMR_in_range (gender_of gender) age height weight A1 A2 H1 H2 W1 W2)
    as [Int _].
  destruct (calculateBMR_between_extremes (gender_of gender) age height weight
              A1 A2 H1 H2 W1 W2) as [Lo Hi].
  split; [exact Int | split; [exact Lo | split; [exact Hi | split]]].
  - intros ->. split; reflexivity.
  - intros NM. assert (Eg : gender_of gender = Female).
    { unfold gender_of, strict_eq.
      destruct (String.eqb_spec gender "male"); [contradiction | reflexivity]. }
    rewrite Eg. split; reflexivity.
Qed.

Lemma calculateBMR_of_accepted_witness :
  let r := calculateBMR "male" 30 175 70 in
  let lowest := calculateBMR "male" 120 50 20 in
  let highest := calculateBMR "male" 1 250 300 in
  Number_isInteger r = true
  /\ (lowest <=? r) = true /\ (r <=? highest) = true
  /\ ("male"%string = "male"%string -> lowest = -85 /\ highest = 5302)
  /\ ("male"%string <> "male"%string -> lowest = 268 /\ highest = 3992).
Proof.
  apply (calculateBMR_of_accepted "male" 30 175 70). reflexivity.
Defined.

(* ================================================================= *)
(** * The accuracy of [calculateBMR]

    The formula is evaluated in binary64, with constants that are not the
    decimal ones and seven roundings.  On the measurements [validateInputs]
    accepts the value stays within [2^-36] of the exact decimal value. *)

Module Accuracy.

Import Grid Binary64.

#[local] Open Scope Z_scope.

(** The rounding to the grid moves a value of at most [n] bits by at most
    half a unit of its last place. *)
Lemma rnd_error (N n : Z) :
  0 <= N <= 2 ^ n -> 1127 <= n ->
  2 * Z.abs (rnd N * 2 ^ 1074 - N) <= 2 ^ (n - 53).
Proof.
  intros [H0 Hn] Hm.
  assert (P0 : 0 <= 2 ^ (n - 53)) by (apply Z.pow_nonneg; lia).
  destruct (Z.eq_dec N (2 ^ n)) as [-> | Hne].
  { rewrite rnd_pow2 by assumption. rewrite <- pow2_split by lia.
    replace (n - 1074 + 1074) with n by lia. rewrite Z.sub_diag. exact P0. }
  unfold rnd. set (j := Z.max (Zdigits2 N - 1127) 0).
  assert (Hj : 0 <= j <= n - 1127).
  { destruct (Z.eq_dec N 0) as [-> | NZ]; [unfold j; cbn; lia|].
    destruct (Zdigits2_bounds N ltac:(lia)) as (_ & L & _).
    assert (Zdigits2 N - 1 < n); [|unfold j; lia].
    apply (Z.pow_lt_mono_r_iff 2); lia. }
  destruct (rne_div_spec N (1074 + j) ltac:(lia)) as (B & _ & _).
  set (q := rne_div N (1074 + j)) in *.
  rewrite <- Z.mul_assoc, <- (pow2_split j 1074), (Z.add_comm j 1074) by lia.
  assert (2 ^ (1074 + j) <= 2 ^ (n - 53)) by (apply Z.pow_le_mono_r; lia).
  assert (0 < 2 ^ (1074 + j)) by (apply pow2_pos; lia).
  symbolic (2 ^ (1074 + j)) as P. symbolic (2 ^ (n - 53)) as T. lia.
Qed.

Lemma round_fine_error_pos (N n : Z) :
  0 <= N <= 2 ^ n -> 1127 <= n -> n < 3172 ->
  2 * Z.abs (round_fine N * 2 ^ 1074 - N) <= 2 ^ (n - 53)
  /\ 0 <= round_fine N <= 2 ^ (n - 1074).
Proof.
  intros HN Hm Hn.
  assert (B : 0 <= rnd N <= 2 ^ (n - 1074)).
  { split; [apply rnd_nonneg; lia|].
    rewrite <- rnd_pow2 by assumption. apply rnd_mono; lia. }
  rewrite round_fine_pos by lia.
  rewrite clamp_small.
  - split; [apply rnd_error; assumption | exact B].
  - apply Z.le_lt_trans with (2 ^ (n - 1074)); [apply B|].
    apply Z.pow_lt_mono_r; lia.
Qed.

Lemma round_fine_error (N n : Z) :
  Z.abs N <= 2 ^ n -> 1127 <= n -> n < 3172 ->
  2 * Z.abs (round_fine N * 2 ^ 1074 - N) <= 2 ^ (n - 53)
  /\ Z.abs (round_fine N) <= 2 ^ (n - 1074).
Proof.
  intros HN Hm Hn. destruct (Z.le_gt_cases 0 N) as [P | M].
  - destruct (round_fine_error_pos N n ltac:(lia) Hm Hn) as [E B].
    split; [exact E | lia].
  - destruct (round_fine_error_pos (- N) n ltac:(lia) Hm Hn) as [E B].
    rewrite round_fine_opp in E, B.
    symbolic (2 ^ (n - 53)). symbolic (2 ^ (n - 1074)). symbolic (2 ^ 1074).
    split; lia.
Qed.

Lemma abs_mul_le (a x alpha beta : Z) :
  Z.abs a <= alpha -> Z.abs x <= beta -> Z.abs (a * x) <= alpha * beta.
Proof.
  intros Ha Hx. rewrite Z.abs_mul.
  apply Z.mul_le_mono_nonneg; try assumption; apply Z.abs_nonneg.
Qed.

(** A product of two positions, rounded. *)
Lemma product_error (G X a b : Z) :
  0 <= a -> 0 <= b -> a + b <= 1023 ->
  Z.abs G <= 2 ^ (a + 1074) -> Z.abs X <= 2 ^ (b + 1074) ->
  2 * Z.abs (round_fine (G * X) * 2 ^ 1074 - G * X) <= 2 ^ (a + b + 2095)
  /\ Z.abs (round_fine (G * X)) <= 2 ^ (a + b + 1074).
Proof.
  intros Ha Hb Hab HG HX.
  pose proof (abs_mul_le G X _ _ HG HX) as HP.
  rewrite <- pow2_split in HP by lia.
  destruct (round_fine_error (G * X) (a + 1074 + (b + 1074)) HP ltac:(lia) ltac:(lia))
    as [E B].
  replace (a + 1074 + (b + 1074) - 53) with (a + b + 2095) in E by lia.
  replace (a + 1074 + (b + 1074) - 1074) with (a + b + 1074) in B by lia.
  split; assumption.
Qed.

(** A sum of two positions of at most [n] bits, rounded. *)
Lemma sum_error (u v n : Z) :
  0 <= n -> n + 1 <= 1023 ->
  Z.abs u <= 2 ^ (n + 1074) -> Z.abs v <= 2 ^ (n + 1074) ->
  2 * Z.abs (round_fine ((u + v) * 2 ^ 1074) * 2 ^ 1074 - (u + v) * 2 ^ 1074)
    <= 2 ^ (n + 2096)
  /\ Z.abs (round_fine ((u + v) * 2 ^ 1074)) <= 2 ^ (n + 1 + 1074).
Proof.
  intros Hn Hn1 Hu Hv.
  assert (HS : Z.abs ((u + v) * 2 ^ 1074) <= 2 ^ (n + 1 + 1074 + 1074)).
  { rewrite (pow2_split (n + 1 + 1074)) by lia.
    replace (n + 1 + 1074) with (n + 1074 + 1) by lia. rewrite pow2_double by lia.
    assert (0 < 2 ^ 1074) by (apply pow2_pos; lia).
    rewrite Z.abs_mul, (Z.abs_eq (2 ^ 1074)) by lia.
    apply Z.mul_le_mono_nonneg_r; lia. }
  destruct (round_fine_error _ _ HS ltac:(lia) ltac:(lia)) as [E B].
  replace (n + 1 + 1074 + 1074 - 53) with (n + 2096) in E by lia.
  replace (n + 1 + 1074 + 1074 - 1074) with (n + 1 + 1074) in B by lia.
  split; assumption.
Qed.

Lemma half_abs_le (x b : Z) : 2 * Z.abs x <= b -> - b <= 2 * x <= b.
Proof. lia. Qed.

Lemma abs_le_pow2 (x a b : Z) : Z.abs x <= 2 ^ a -> a <= b -> Z.abs x <= 2 ^ b.
Proof.
  intros H L. apply Z.le_trans with (1 := H). apply Z.pow_le_mono_r; lia.
Qed.

(** The formula on the grid against the formula with the decimal constants
    [k0/1000 ... k3/1000], both scaled by [1000 * 2^2148]: constants below
    [2^9] and [2^4] that are within half a unit of their last place of the
    decimal ones, and inputs below [2^9], give a difference below
    [1000 * 2^-36]. *)
Lemma linear_error (G0 G1 G2 G3 A H W k0 k1 k2 k3 : Z) :
  Z.abs G0 <= 2 ^ (9 + 1074) -> Z.abs (1000 * G0 - k0 * 2 ^ 1074) <= 500 * 2 ^ 1030 ->
  Z.abs G1 <= 2 ^ (4 + 1074) -> Z.abs (1000 * G1 - k1 * 2 ^ 1074) <= 500 * 2 ^ 1025 ->
  Z.abs G2 <= 2 ^ (4 + 1074) -> Z.abs (1000 * G2 - k2 * 2 ^ 1074) <= 500 * 2 ^ 1025 ->
  Z.abs G3 <= 2 ^ (4 + 1074) -> Z.abs (1000 * G3 - k3 * 2 ^ 1074) <= 500 * 2 ^ 1025 ->
  Z.abs A <= 2 ^ (9 + 1074) -> Z.abs H <= 2 ^ (9 + 1074) -> Z.abs W <= 2 ^ (9 + 1074) ->
  let R :=
    round_fine
      ((round_fine
          ((round_fine ((G0 + round_fine (G1 * W)) * 2 ^ 1074)
            + round_fine (G2 * H)) * 2 ^ 1074)
        - round_fine (G3 * A)) * 2 ^ 1074) in
  Z.abs (1000 * (R * 2 ^ 1074)
         - (k0 * (2 ^ 1074 * 2 ^ 1074) + k1 * (2 ^ 1074 * W) + k2 * (2 ^ 1074 * H)
            - k3 * (2 ^ 1074 * A)))
  <= 1000 * 2 ^ 2112.
Proof.
  intros B0 C0 B1 C1 B2 C2 B3 C3 BA BH BW R. subst R.
  destruct (product_error G1 W 4 9 ltac:(discriminate) ltac:(discriminate) ltac:(discriminate) B1 BW) as [E1 P1].
  destruct (product_error G2 H 4 9 ltac:(discriminate) ltac:(discriminate) ltac:(discriminate) B2 BH) as [E2 P2].
  destruct (product_error G3 A 4 9 ltac:(discriminate) ltac:(discriminate) ltac:(discriminate) B3 BA) as [E3 P3].
  set (p1 := round_fine (G1 * W)) in *.
  set (p2 := round_fine (G2 * H)) in *.
  set (p3 := round_fine (G3 * A)) in *.
  destruct (sum_error G0 p1 13 ltac:(discriminate) ltac:(discriminate)
              (abs_le_pow2 _ (9 + 1074) (13 + 1074) B0 ltac:(discriminate)) P1) as [F1 S1].
  set (s1 := round_fine ((G0 + p1) * 2 ^ 1074)) in *.
  destruct (sum_error s1 p2 14 ltac:(discriminate) ltac:(discriminate) S1
              (abs_le_pow2 _ (4 + 9 + 1074) (14 + 1074) P2 ltac:(discriminate))) as [F2 S2].
  set (s2 := round_fine ((s1 + p2) * 2 ^ 1074)) in *.
  assert (P3' : Z.abs (- p3) <= 2 ^ (15 + 1074)).
  { rewrite Z.abs_opp. apply (abs_le_pow2 _ (4 + 9 + 1074) (15 + 1074) P3). discriminate. }
  destruct (sum_error s2 (- p3) 15 ltac:(discriminate) ltac:(discriminate) S2 P3') as [F3 _].
  rewrite Z.add_opp_r in F3.
  set (s3 := round_fine ((s2 - p3) * 2 ^ 1074)) in *.
  (* the constants against their decimals, times the inputs *)
  pose proof (abs_mul_le _ _ _ _ C1 BW) as D1.
  pose proof (abs_mul_le _ _ _ _ C2 BH) as D2.
  pose proof (abs_mul_le _ _ _ _ C3 BA) as D3.
  assert (Q0 : Z.abs (2 ^ 1074) <= 2 ^ 1074)
    by (rewrite Z.abs_eq; [apply Z.le_refl | apply Z.pow_nonneg; discriminate]).
  pose proof (abs_mul_le _ _ _ _ C0 Q0) as D0.
  (* everything in units of 2^2104 *)
  assert (U : 0 < 2 ^ 2104) by (apply pow2_pos; discriminate).
  replace (2 ^ (4 + 9 + 2095)) with (16 * 2 ^ 2104) in E1, E2, E3
    by (change (4 + 9 + 2095) with (4 + 2104); rewrite pow2_split by discriminate; reflexivity).
  replace (2 ^ (13 + 2096)) with (32 * 2 ^ 2104) in F1
    by (change (13 + 2096) with (5 + 2104); rewrite pow2_split by discriminate; reflexivity).
  replace (2 ^ (14 + 2096)) with (64 * 2 ^ 2104) in F2
    by (change (14 + 2096) with (6 + 2104); rewrite pow2_split by discriminate; reflexivity).
  replace (2 ^ (15 + 2096)) with (128 * 2 ^ 2104) in F3
    by (change (15 + 2096) with (7 + 2104); rewrite pow2_split by discriminate; reflexivity).
  replace (500 * 2 ^ 1025 * 2 ^ (9 + 1074)) with (8000 * 2 ^ 2104) in D1, D2, D3
    by (rewrite <- Z.mul_assoc, <- pow2_split by discriminate;
        change (1025 + (9 + 1074)) with (4 + 2104); rewrite pow2_split by discriminate; reflexivity).
  replace (500 * 2 ^ 1030 * 2 ^ 1074) with (500 * 2 ^ 2104) in D0
    by (rewrite <- Z.mul_assoc, <- pow2_split by discriminate; reflexivity).
  replace (2 ^ 2112) with (256 * 2 ^ 2104)
    by (change 2112 with (8 + 2104); rewrite pow2_split by discriminate; reflexivity).
  clear B0 C0 B1 C1 B2 C2 B3 C3 BA BH BW P1 P2 P3 S1 S2 P3' Q0.
  symbolic (2 ^ 2104) as u. symbolic (2 ^ 1074) as q.
  apply Z.abs_le. apply Z.abs_le in D0, D1, D2, D3.
  apply half_abs_le in E1, E2, E3, F1, F2, F3.
  lia.
Qed.

(** A binary64 constant against a decimal [k/1000]: correctly rounded, it
    is within half a unit of its last place. *)
Lemma constant_error (c : float) (k t : Z) :
  match Prim2SF c with
  | S754_finite false m e =>
      (-1074 <=? e) && (e <? 0) && (e + 1074 <=? t)
      && (Z.abs (1000 * Zpos m - k * 2 ^ (- e)) <=? 500)
  | _ => false
  end = true ->
  Z.abs (1000 * grid c - k * 2 ^ 1074) <= 500 * 2 ^ t.
Proof.
  unfold grid. destruct (Prim2SF c) as [| | |[|] m e]; try discriminate.
  intros C. cbn [ord cond_Zopp].
  repeat (apply andb_prop in C; destruct C as [C ?]).
  repeat match goal with
         | H : (_ <=? _) = true |- _ => apply Z.leb_le in H
         | H : (_ <? _) = true |- _ => apply Z.ltb_lt in H
         end.
  replace (2 ^ 1074) with (2 ^ (- e) * 2 ^ (e + 1074))
    by (rewrite <- pow2_split by lia; apply f_equal; lia).
  replace (1000 * (Zpos m * 2 ^ (e + 1074)) - k * (2 ^ (- e) * 2 ^ (e + 1074)))
    with ((1000 * Zpos m - k * 2 ^ (- e)) * 2 ^ (e + 1074)) by ring.
  apply abs_mul_le; [assumption|].
  rewrite Z.abs_eq by (apply Z.pow_nonneg; lia).
  apply Z.pow_le_mono_r; lia.
Qed.

(** The constants of the two formulas against their decimals. *)
Lemma male_decimal : close_to_decimal (harris_benedict Male) 88362 13397 4799 5677.
Proof.
  unfold close_to_decimal. cbn [harris_benedict base per_kg per_cm per_year].
  refine (conj (conj _ _) (conj (conj _ _) (conj (conj _ _) (conj _ _))));
    [ apply (abs_grid_le _ (9 + 1074)) | apply (constant_error _ _ 1030)
    | apply (abs_grid_le _ (4 + 1074)) | apply (constant_error _ _ 1025)
    | apply (abs_grid_le _ (4 + 1074)) | apply (constant_error _ _ 1025)
    | apply (abs_grid_le _ (4 + 1074)) | apply (constant_error _ _ 1025) ];
    reflexivity.
Qed.

Lemma female_decimal : close_to_decimal (harris_benedict Female) 447593 9247 3098 4330.
Proof.
  unfold close_to_decimal. cbn [harris_benedict base per_kg per_cm per_year].
  refine (conj (conj _ _) (conj (conj _ _) (conj (conj _ _) (conj _ _))));
    [ apply (abs_grid_le _ (9 + 1074)) | apply (constant_error _ _ 1030)
    | apply (abs_grid_le _ (4 + 1074)) | apply (constant_error _ _ 1025)
    | apply (abs_grid_le _ (4 + 1074)) | apply (constant_error _ _ 1025)
    | apply (abs_grid_le _ (4 + 1074)) | apply (constant_error _ _ 1025) ];
    reflexivity.
Qed.

(** A measurement in range is below [2^9]. *)
Lemma input_bound (lo x hi : float) :
  (lo <=? x)%float = true -> (x <=? hi)%float = true ->
  (0 <=? lo)%float = true ->
  match Prim2SF hi with
  | S754_zero _ => 0 <=? 9 + 1074
  | S754_finite _ _ e => e + 1127 <=? 9 + 1074
  | _ => false
  end = true ->
  Z.abs (grid x) <= 2 ^ (9 + 1074).
Proof.
  intros L U Z0 B. apply leb_grid in L, U. apply grid_nonneg in Z0.
  apply grid_le_pow2 in B.
  destruct L as (_ & _ & L), U as (_ & _ & U).
  symbolic (2 ^ (9 + 1074)). lia.
Qed.

(** The value of the formula on the grid against the decimal formula. *)
Lemma reference_BMR_error (g : Gender) (k0 k1 k2 k3 : Z) (age height weight : number) :
  close_to_decimal (harris_benedict g) k0 k1 k2 k3 ->
  (1 <=? age)%float = true -> (age <=? 120)%float = true ->
  (50 <=? height)%float = true -> (height <=? 250)%float = true ->
  (20 <=? weight)%float = true -> (weight <=? 300)%float = true ->
  Z.abs (1000 * (grid (reference_BMR g age height weight) * 2 ^ 1074)
         - (k0 * (2 ^ 1074 * 2 ^ 1074) + k1 * (2 ^ 1074 * grid weight)
            + k2 * (2 ^ 1074 * grid height) - k3 * (2 ^ 1074 * grid age)))
  <= 1000 * 2 ^ 2112.
Proof.
  intros ((B0 & C0) & (B1 & C1) & (B2 & C2) & (B3 & C3)) A1 A2 H1 H2 W1 W2.
  assert (F : is_nan (reference_BMR g age height weight) = false).
  { apply finite_not_nan, reference_BMR_in_range_finite; assumption. }
  pose proof (input_bound _ _ _ A1 A2 eq_refl eq_refl) as BA.
  pose proof (input_bound _ _ _ H1 H2 eq_refl eq_refl) as BH.
  pose proof (input_bound _ _ _ W1 W2 eq_refl eq_refl) as BW.
  unfold reference_BMR in *. cbv zeta in *. rewrite grid_linear by exact F.
  apply linear_error; assumption.
Qed.

(** From the scaled integers to the rational values. *)
Lemma decimal_within (R A H W k0 k1 k2 k3 : Z) :
  Z.abs (1000 * (R * 2 ^ 1074)
         - (k0 * (2 ^ 1074 * 2 ^ 1074) + k1 * (2 ^ 1074 * W) + k2 * (2 ^ 1074 * H)
            - k3 * (2 ^ 1074 * A)))
  <= 1000 * 2 ^ 2112 ->
  let q := (2 ^ 1074)%positive in
  let v := ((k0 # 1000) + (k1 # 1000) * (W # q) + (k2 # 1000) * (H # q)
            - (k3 # 1000) * (A # q))%Q in
  ((R # q) - (1 # 2 ^ 36) <= v)%Q /\ (v <= (R # q) + (1 # 2 ^ 36))%Q.
Proof.
  intros B q v.
  set (D := k0 * (Zpos q * Zpos q) + k1 * (Zpos q * W) + k2 * (Zpos q * H)
            - k3 * (Zpos q * A)).
  assert (E : (v == D # (1000 * q * q))%Q).
  { unfold v, D. cbv [Qeq Qplus Qminus Qmult Qopp Qnum Qden].
    rewrite !Pos2Z.inj_mul. ring. }
  rewrite E. clear E v.
  assert (Eq : Zpos q = 2 ^ 1074) by (unfold q; rewrite Pos2Z.inj_pow; reflexivity).
  apply Z.abs_le in B. rewrite <- Eq in B. fold D in B.
  assert (S : Zpos q = 2 ^ 36 * 2 ^ 1038).
  { rewrite Eq, <- pow2_split by discriminate. reflexivity. }
  assert (T : 2 ^ 2112 = 2 ^ 1038 * Zpos q).
  { rewrite Eq, <- pow2_split by discriminate. reflexivity. }
  assert (Pq : 0 < Zpos q) by reflexivity.
  assert (Pt : 0 < 2 ^ 1038) by (apply pow2_pos; discriminate).
  rewrite T in B. clear T Eq.
  cbv [Qle Qminus Qplus Qopp Qnum Qden].
  rewrite !Pos2Z.inj_mul. change (Zpos (2 ^ 36)) with (2 ^ 36).
  change (2 ^ 36) with 68719476736 in *.
  clearbody D. symbolic (2 ^ 1038) as t. set (z := Zpos q) in *. clearbody z. clear q.
  subst z.
  split; nia.
Qed.

(** A whole number, read off the mantissa and the exponent. *)
Lemma exact_whole (x : float) (z : Z) :
  match Prim2SF x with
  | S754_zero _ => z =? 0
  | S754_finite s m e =>
      (-1074 <=? e) && (e <=? 0) && (cond_Zopp s (Zpos m) =? z * 2 ^ (- e))
  | _ => false
  end = true ->
  (exact x == inject_Z z)%Q.
Proof.
  unfold exact, grid, Qeq, inject_Z. cbn [Qnum Qden].
  rewrite Pos2Z.inj_pow, Z.mul_1_r.
  destruct (Prim2SF x) as [s|s| |s m e]; try discriminate; cbn [ord]; intros C.
  - apply Z.eqb_eq in C. subst z. reflexivity.
  - repeat (apply andb_prop in C; destruct C as [C ?]).
    repeat match goal with
           | H : (_ <=? _) = true |- _ => apply Z.leb_le in H
           | H : (_ =? _) = true |- _ => apply Z.eqb_eq in H
           end.
    rewrite <- cond_Zopp_mul_r.
    replace (2 ^ 1074) with (2 ^ (- e) * 2 ^ (e + 1074))
      by (rewrite <- pow2_split by lia; apply f_equal; lia).
    rewrite Z.mul_assoc. apply f_equal2; [assumption | reflexivity].
Qed.

End Accuracy.

Import Accuracy.

(** The result against the exact value of the decimal formula. *)
Lemma decimal_BMR_close (gender : string) (age height weight : number) :
  isValid (validateInputs age height weight) = true ->
  let decimal :=
    decimal_BMR (gender_of gender) (exact age) (exact height) (exact weight) in
  exists n : Z,
    (exact (calculateBMR gender age height weight) == inject_Z n)%Q
    /\ (inject_Z n - (1 # 2) - (1 # 2 ^ 36) <= decimal)%Q
    /\ (decimal < inject_Z n + (1 # 2) + (1 # 2 ^ 36))%Q.
Proof.
  intros V decimal. apply isValid_in_range in V.
  destruct V as ((A1 & A2) & (H1 & H2) & (W1 & W2)).
  rewrite calculateBMR_unfold.
  destruct (Math_round_nearest (reference_BMR (gender_of gender) age height weight))
    as (n & _ & En & Lo & Hi).
  { apply reference_BMR_in_range_finite; assumption. }
  exists n. split; [exact En|].
  assert (D : (exact (reference_BMR (gender_of gender) age height weight)
               - (1 # 2 ^ 36) <= decimal
               /\ decimal <= exact (reference_BMR (gender_of gender) age height weight)
                             + (1 # 2 ^ 36))%Q).
  { unfold decimal, decimal_BMR, exact.
    destruct (gender_of gender); apply decimal_within;
      [ apply (reference_BMR_error Male _ _ _ _ _ _ _ male_decimal)
      | apply (reference_BMR_error Female _ _ _ _ _ _ _ female_decimal) ];
      assumption. }
  destruct D as [DL DU].
  change (2 ^ 36)%positive with 68719476736%positive in *.
  split; lra.
Qed.

(** X7.  Accuracy against the decimal formula.  For every measurement
    [validateInputs] accepts, take the formula with its decimal constants
    in exact arithmetic, at the exact values of the three numbers.
    [calculateBMR] returns an integer [n] with
    [n - 1/2 - 2^-36 <= decimal < n + 1/2 + 2^-36]: the binary64 evaluation
    is within [2^-36] of the exact value, so the result is the nearest
    integer unless the exact value is that close to a tie. *)
Theorem calculateBMR_accuracy (gender : string) (age height weight : number) :
  isValid (validateInputs age height weight) = true ->
  let decimal :=
    decimal_BMR (gender_of gender) (exact age) (exact height) (exact weight) in
  exists n : Z,
    (exact (calculateBMR gender age height weight) == inject_Z n)%Q
    /\ (inject_Z n - (1 # 2) - (1 # 2 ^ 36) <= decimal)%Q
    /\ (decimal < inject_Z n + (1 # 2) + (1 # 2 ^ 36))%Q.
Proof. intros V. exact (decimal_BMR_close gender age height weight V). Qed.

Lemma calculateBMR_accuracy_witness :
  exists n : Z,
    (exact (calculateBMR "male" 30%float 175%float 70%float) == inject_Z n)%Q
    /\ (inject_Z n - (1 # 2) - (1 # 2 ^ 36)
        <= decimal_BMR (gender_of "male") (exact 30%float) (exact 175%float) (exact 70%float))%Q
    /\ (decimal_BMR (gender_of "male") (exact 30%float) (exact 175%float) (exact 70%float)
        < inject_Z n + (1 # 2) + (1 # 2 ^ 36))%Q.
Proof. apply (calculateBMR_accuracy "male" 30 175 70). reflexivity. Defined.

(** The decimal formula at whole numbers is a number of thousandths. *)
Lemma decimal_BMR_thousandths (g : Gender) (a h w : Z) :
  (decimal_BMR g (inject_Z a) (inject_Z h) (inject_Z w)
   == match g with
      | Male => (88362 + 13397 * w + 4799 * h - 5677 * a) # 1000
      | Female => (447593 + 9247 * w + 3098 * h - 4330 * a) # 1000
      end)%Q.
Proof.
  destruct g; unfold decimal_BMR; cbv [Qeq Qplus Qminus Qmult Qopp inject_Z Qnum Qden];
    rewrite !Pos2Z.inj_mul; ring.
Qed.

Lemma decimal_BMR_compat (g : Gender) (a a' h h' w w' : Q) :
  (a == a' -> h == h' -> w == w' -> decimal_BMR g a h w == decimal_BMR g a' h' w')%Q.
Proof.
  intros Ea Eh Ew. destruct g; unfold decimal_BMR; rewrite Ea, Eh, Ew; reflexivity.
Qed.

(** An integer [n] with [n - 1/2 - eps <= K/1000 < n + 1/2 + eps] is the
    nearest integer of [K/1000], or one below it at a tie. *)
Lemma nearest_thousandths (K n : Z) :
  (inject_Z n - (1 # 2) - (1 # 2 ^ 36) <= K # 1000)%Q ->
  (K # 1000 < inject_Z n + (1 # 2) + (1 # 2 ^ 36))%Q ->
  nearest_integer (K # 1000) = n
  \/ (((K # 1000) + (1 # 2) == inject_Z (nearest_integer (K # 1000)))%Q
      /\ nearest_integer (K # 1000) = (n + 1)%Z).
Proof.
  change (2 ^ 36)%positive with 68719476736%positive.
  unfold nearest_integer, Qfloor.
  cbv [Qle Qlt Qeq Qplus Qminus Qopp inject_Z Qnum Qden].
  change (Zpos (1000 * 2)) with 2000%Z.
  change (Zpos (1 * 2 * 68719476736)) with 137438953472%Z.
  intros Lo Hi.
  assert (B : (1000 * n - 500 <= K <= 1000 * n + 500)%Z) by lia.
  destruct (Z.eq_dec K (1000 * n + 500)) as [T | NT].
  - right.
    assert (E : ((K * 2 + 1 * 1000) / 2000 = n + 1)%Z).
    { symmetry. apply (Z.div_unique _ _ _ 0); lia. }
    rewrite E. split; [lia | reflexivity].
  - left. symmetry. apply (Z.div_unique _ _ _ (K * 2 + 1000 - 2000 * n)); lia.
Qed.

(** X8.  For whole-number measurements that [validateInputs] accepts,
    [calculateBMR] returns the exact decimal value of the formula rounded to
    the nearest integer with a tie rounded up - except possibly when that
    value is exactly a tie ([n - 1/2] for the integer [n] it rounds up
    to), where the result may be [n - 1].  (It is, for a few measurements:
    X1 is one.) *)
Theorem calculateBMR_whole_numbers
    (gender : string) (age height weight : number) (a h w : Z) :
  isValid (validateInputs age height weight) = true ->
  (exact age == inject_Z a)%Q -> (exact height == inject_Z h)%Q ->
  (exact weight == inject_Z w)%Q ->
  let decimal := decimal_BMR (gender_of gender) (inject_Z a) (inject_Z h) (inject_Z w) in
  let n := nearest_integer decimal in
  (exact (calculateBMR gender age height weight) == inject_Z n)%Q
  \/ ((decimal + (1 # 2) == inject_Z n)%Q
      /\ (exact (calculateBMR gender age height weight) == inject_Z (n - 1))%Q).
Proof.
  intros V Ea Eh Ew decimal n.
  destruct (decimal_BMR_close gender age height weight V) as (n0 & En & Lo & Hi).
  cbv zeta in Lo, Hi.
  rewrite (decimal_BMR_compat _ _ _ _ _ _ _ Ea Eh Ew) in Lo, Hi.
  pose proof (decimal_BMR_thousandths (gender_of gender) a h w) as EK.
  fold decimal in Lo, Hi, EK.
  set (K := match gender_of gender with
            | Male => (88362 + 13397 * w + 4799 * h - 5677 * a)%Z
            | Female => (447593 + 9247 * w + 3098 * h - 4330 * a)%Z
            end).
  assert (EK' : (decimal == K # 1000)%Q).
  { rewrite EK. unfold K. destruct (gender_of gender); reflexivity. }
  clear EK. rewrite EK' in Lo, Hi.
  assert (N : n = nearest_integer (K # 1000)).
  { unfold n, nearest_integer. rewrite EK'. reflexivity. }
  destruct (nearest_thousandths K n0 Lo Hi) as [E | [T E]].
  - left. rewrite N, E. exact En.
  - right. rewrite EK', N. split; [exact T|].
    rewrite E. replace (n0 + 1 - 1)%Z with n0 by lia. exact En.
Qed.

Lemma calculateBMR_whole_numbers_witness :
  let decimal := decimal_BMR (gender_of "female") (inject_Z 40) (inject_Z 174) (inject_Z 65) in
  let n := nearest_integer decimal in
  (exact (calculateBMR "female" 40%float 174%float 65%float) == inject_Z n)%Q
  \/ ((decimal + (1 # 2) == inject_Z n)%Q
      /\ (exact (calculateBMR "female" 40%float 174%float 65%float) == inject_Z (n - 1))%Q).
Proof.
  apply (calculateBMR_whole_numbers "female" 40 174 65 40 174 65);
    [reflexivity | apply exact_whole; reflexivity ..].
Defined.

(* ================================================================= *)
(** * [calculateBMR] against the formula of the specification *)

(** An integer no further than [1/2 + 2^-36] from [q] is the nearest
    integer of [q], or the integer on the other side of a tie that [q] is
    within [2^-36] of. *)
Lemma nearest_integer_cases (q : Q) (n : Z) :
  (inject_Z n - (1 # 2) - (1 # 2 ^ 36) <= q)%Q ->
  (q < inject_Z n + (1 # 2) + (1 # 2 ^ 36))%Q ->
  let rounded := nearest_integer q in
  n = rounded
  \/ (n = (rounded - 1)%Z
      /\ (inject_Z rounded - (1 # 2) <= q)%Q
      /\ (q < inject_Z rounded - (1 # 2) + (1 # 2 ^ 36))%Q)
  \/ (n = (rounded + 1)%Z
      /\ (inject_Z rounded + (1 # 2) - (1 # 2 ^ 36) <= q)%Q
      /\ (q < inject_Z rounded + (1 # 2))%Q).
Proof.
  intros Lo Hi rounded.
  change (2 ^ 36)%positive with 68719476736%positive in *.
  pose proof (Qfloor_le (q + (1 # 2))) as F1.
  pose proof (Qlt_floor (q + (1 # 2))) as F2.
  fold (nearest_integer q) in F1, F2. fold rounded in F1, F2.
  rewrite inject_Z_plus in F2. change (inject_Z 1) with 1%Q in F2.
  assert (A : (rounded < n + 2)%Z).
  { rewrite Zlt_Qlt, inject_Z_plus. change (inject_Z 2) with 2%Q. lra. }
  assert (B : (n < rounded + 2)%Z).
  { rewrite Zlt_Qlt, inject_Z_plus. change (inject_Z 2) with 2%Q. lra. }
  assert (C : n = rounded \/ n = (rounded - 1)%Z \/ n = (rounded + 1)%Z) by lia.
  destruct C as [C | [C | C]].
  - left. exact C.
  - right. left. split; [exact C|].
    assert (E : (inject_Z n == inject_Z rounded - 1)%Q).
    { rewrite C. unfold Z.sub. rewrite inject_Z_plus. reflexivity. }
    split; lra.
  - right. right. split; [exact C|].
    assert (E : (inject_Z n == inject_Z rounded + 1)%Q).
    { rewrite C, inject_Z_plus. reflexivity. }
    split; lra.
Qed.

(** C1 (as the script has it).  Take the Harris-Benedict reference formula
    with the constants exactly as written, in exact arithmetic: for the
    gender ['male'] [88.362 + 13.397 * weight + 4.799 * height - 5.677 * age],
    otherwise [447.593 + 9.247 * weight + 3.098 * height - 4.330 * age].
    For every measurement [validateInputs] accepts, [calculateBMR] returns
    an integer [n], and [n] is the formula rounded to the nearest integer
    (a tie rounded up) unless the exact value is within [2^-36] of a tie:
    then [n] may be the integer on the other side of that tie.  For
    whole-number measurements the only exception is an exact tie, where [n]
    may be one below the integer the tie rounds up to. *)
Theorem calculateBMR_harris_benedict (gender : string) (age height weight : number) :
  isValid (validateInputs age height weight) = true ->
  let formula :=
    decimal_BMR (gender_of gender) (exact age) (exact height) (exact weight) in
  let rounded := nearest_integer formula in
  exists n : Z,
    (exact (calculateBMR gender age height weight) == inject_Z n)%Q
    /\ (n = rounded
        \/ (n = (rounded - 1)%Z
            /\ (inject_Z rounded - (1 # 2) <= formula)%Q
            /\ (formula < inject_Z rounded - (1 # 2) + (1 # 2 ^ 36))%Q)
        \/ (n = (rounded + 1)%Z
            /\ (inject_Z rounded + (1 # 2) - (1 # 2 ^ 36) <= formula)%Q
            /\ (formula < inject_Z rounded + (1 # 2))%Q))
    /\ (forall a h w : Z,
          (exact age == inject_Z a)%Q -> (exact height == inject_Z h)%Q ->
          (exact weight == inject_Z w)%Q ->
          n = rounded
          \/ (n = (rounded - 1)%Z /\ (formula == inject_Z rounded - (1 # 2))%Q)).
Proof.
  intros V formula rounded.
  destruct (decimal_BMR_close gender age height weight V) as (n & En & Lo & Hi).
  cbv zeta in Lo, Hi. fold formula in Lo, Hi.
  exists n. split; [exact En | split].
  - exact (nearest_integer_cases formula n Lo Hi).
  - intros a h w Ea Eh Ew.
    set (K := match gender_of gender with
              | Male => (88362 + 13397 * w + 4799 * h - 5677 * a)%Z
              | Female => (447593 + 9247 * w + 3098 * h - 4330 * a)%Z
              end).
    assert (EK : (formula == K # 1000)%Q).
    { unfold formula. rewrite (decimal_BMR_compat _ _ _ _ _ _ _ Ea Eh Ew).
      rewrite decimal_BMR_thousandths. unfold K.
      destruct (gender_of gender); reflexivity. }
    assert (R : rounded = nearest_integer (K # 1000)).
    { unfold rounded, nearest_integer. rewrite EK. reflexivity. }
    rewrite EK in Lo, Hi.
    destruct (nearest_thousandths K n Lo Hi) as [E | [T E]].
    + left. rewrite R, E. reflexivity.
    + right. rewrite EK, R. split; [lia|].
      rewrite <- T. ring.
Qed.

Lemma calculateBMR_harris_benedict_witness :
  let formula :=
    decimal_BMR (gender_of "female") (exact 40%float) (exact 174%float) (exact 65%float) in
  let rounded := nearest_integer formula in
  exists n : Z,
    (exact (calculateBMR "female" 40%float 174%float 65%float) == inject_Z n)%Q
    /\ (n = rounded
        \/ (n = (rounded - 1)%Z /\ (formula == inject_Z rounded - (1 # 2))%Q)).
Proof.
  destruct (calculateBMR_harris_benedict "female" 40 174 65) as (n & E & _ & W);
    [reflexivity|].
  exists n. split; [exact E|].
  apply (W 40 174 65)%Z; apply exact_whole; reflexivity.
Defined.

(** C1 as stated fails.  A woman of 40 years, 174 cm and 65 kg is an accepted
    measurement; the formula is exactly 1414.5, which rounds to 1415, and
    [calculateBMR] returns 1414: the binary64 constants and operations leave
    the sum just below the tie.  No rule for ties repairs the claim: at
    925.5 (a man of 1 year, 50 cm, 45 kg) the result is 926, the tie rounded
    up, and at 935.5 (a man of 1 year, 80 cm, 35 kg) it is 935, the tie
    rounded down.  Outside the accepted ranges the distance is not bounded
    by a tie: for a weight of 1e17 the formula rounds to
    1339700000000000088 and the result is 1339700000000000000. *)
Lemma calculateBMR_is_not_the_rounded_formula :
  let formula (gender : string) (age height weight : number) :=
    decimal_BMR (gender_of gender) (exact age) (exact height) (exact weight) in
  let tie_below := formula "female"%string 40 174 65 in
  let tie_up := formula "male"%string 1 50 45 in
  let tie_down := formula "male"%string 1 80 35 in
  let large := formula "male"%string 0 0 1e17 in
  isValid (validateInputs 40 174 65) = true
  /\ (tie_below == 14145 # 10)%Q
  /\ nearest_integer tie_below = 1415%Z
  /\ calculateBMR "female" 40 174 65 = 1414
  /\ ~ (exact (calculateBMR "female"%string 40%float 174%float 65%float)
        == inject_Z (nearest_integer tie_below))%Q
  /\ isValid (validateInputs 1 50 45) = true
  /\ (tie_up == 9255 # 10)%Q
  /\ calculateBMR "male" 1 50 45 = 926
  /\ isValid (validateInputs 1 80 35) = true
  /\ (tie_down == 9355 # 10)%Q
  /\ calculateBMR "male" 1 80 35 = 935
  /\ isValid (validateInputs 0 0 1e17) = false
  /\ nearest_integer large = 1339700000000000088%Z
  /\ calculateBMR "male" 0 0 1e17 = 1339700000000000000.
Proof.
  cbv zeta.
  refine (conj _ (conj _ (conj _ (conj _ (conj _ (conj _ (conj _
         (conj _ (conj _ (conj _ (conj _ (conj _ (conj _ _)))))))))))));
    try (vm_compute; reflexivity).
  vm_compute. discriminate.
Qed.

(* ================================================================= *)
(** * The page: banners, result and reset *)

Section PageLemmas.

Import Dom.

Lemma same_node_refl (n : Node) : same_node n n = true.
Proof. apply Nat.eqb_refl. Qed.

Lemma insertBefore_firstChild (n : Node) (children : list Node) :
  insertBefore n (firstChild children) children = Some (n :: children).
Proof.
  destruct children as [|c rest]; cbn [firstChild hd_error insertBefore].
  - reflexivity.
  - rewrite same_node_refl. reflexivity.
Qed.

(** [showError] puts a new banner first and schedules its removal. *)
Lemma showError_unfold (message : string) (d : Document) :
  let errorDiv :=
    {| node_id := next_id d; tagName := "div"; className := "error-message";
       textContent := message; cssText := error_style |} in
  showError message d
  = setTimeout (remove_errorDiv errorDiv) 3000
      (set_calculator (errorDiv :: calculator d) (set_next_id (S (next_id d)) d)).
Proof.
  cbv zeta. unfold showError, createElement.
  cbn [set_cssText set_textContent set_className node_id tagName className textContent
       cssText set_next_id calculator].
  rewrite insertBefore_firstChild. reflexivity.
Qed.

Lemma validateInputs_message (age height weight : number) :
  isValid (validateInputs age height weight) = false ->
  In (message (validateInputs age height weight)) validation_messages.
Proof.
  unfold validateInputs, validation_messages.
  destruct (age_rejected age); [intros _; left; reflexivity|].
  destruct (height_rejected height); [intros _; right; left; reflexivity|].
  destruct (weight_rejected weight); [intros _; right; right; left; reflexivity|].
  discriminate.
Qed.

Lemma In_without_nth {A} (x t : A) (l : list A) (i : nat) :
  nth_error l i = Some t -> x <> t -> In x l -> In x (firstn i l ++ skipn (S i) l).
Proof.
  revert i. induction l as [|a l IH]; intros [|i] E N H; cbn in *; try discriminate.
  - injection E as ->. destruct H as [->|H]; [congruence | assumption].
  - destruct H as [->|H]; [left; reflexivity | right; apply (IH i); assumption].
Qed.

Lemma nth_error_Forall {A} (P : A -> Prop) (l : list A) (i : nat) (t : A) :
  Forall P l -> nth_error l i = Some t -> P t.
Proof.
  intros F E. apply nth_error_In in E. rewrite Forall_forall in F. auto.
Qed.

Lemma In_without_nth_inv {A} (x : A) (l : list A) (i : nat) :
  In x (firstn i l ++ skipn (S i) l) -> In x l.
Proof.
  revert i. induction l as [|a l IH]; intros [|i] H; cbn in *; try contradiction.
  - right. exact H.
  - destruct H as [->|H]; [left; reflexivity | right; apply (IH i); exact H].
Qed.

Lemma Forall_without_nth {A} (P : A -> Prop) (l : list A) (i : nat) :
  Forall P l -> Forall P (firstn i l ++ skipn (S i) l).
Proof.
  rewrite !Forall_forall. intros F x H. apply F. apply (In_without_nth_inv x l i H).
Qed.

Lemma StronglySorted_filter {A} (R : A -> A -> Prop) (f : A -> bool) (l : list A) :
  StronglySorted R l -> StronglySorted R (filter f l).
Proof.
  induction 1 as [|a l S IH F]; cbn [filter]; [constructor|].
  destruct (f a); [|exact IH].
  constructor; [exact IH|].
  rewrite Forall_forall in *. intros x H. apply filter_In in H. apply F, H.
Qed.

Lemma Forall_filter {A} (P : A -> Prop) (f : A -> bool) (l : list A) :
  Forall P l -> Forall P (filter f l).
Proof.
  rewrite !Forall_forall. intros F x H. apply filter_In in H. apply F, H.
Qed.

Lemma filter_all {A} (f : A -> bool) (l : list A) :
  (forall x, In x l -> f x = true) -> filter f l = l.
Proof.
  induction l as [|a l IH]; intros H; cbn [filter]; [reflexivity|].
  rewrite (H a) by (left; reflexivity). f_equal. apply IH.
  intros x Hx. apply H. right. exact Hx.
Qed.

Variable parseInt : string -> number.
Variable parseFloat : string -> number.
Variable toLocaleString : number -> string.

#[local] Abbreviation performCalculation :=
  (Dom.performCalculation parseInt parseFloat toLocaleString).
#[local] Abbreviation handle := (Dom.handle parseInt parseFloat toLocaleString).
#[local] Abbreviation run := (Dom.run parseInt parseFloat toLocaleString).

Lemma run_snoc (events : list Event) (e : Event) (d : Document) :
  run (events ++ [e]) d = handle e (run events d).
Proof. unfold Dom.run. rewrite fold_left_app. reflexivity. Qed.

(** *** The banners *)

Lemma banners_frame (d0 d d' : Document) (banners : list Node) :
  calculator d' = calculator d -> next_id d' = next_id d ->
  timers d' = timers d
  \/ timers d' = timers d ++ [{| callback := scroll_resultSection; delay := 100 |}] ->
  banners_of d0 d banners /\ created_since d0 d banners ->
  banners_of d0 d' banners /\ created_since d0 d' banners.
Proof.
  intros Ec En Et [(C & B & P & Srt) (Ib & T)].
  assert (In' : forall t, In t (timers d) -> In t (timers d')).
  { intros t H. destruct Et as [-> | ->]; [exact H | apply in_or_app; left; exact H]. }
  split; [split; [|split; [|split]] | split].
  - rewrite Ec. exact C.
  - exact B.
  - rewrite Forall_forall in *. intros b H. apply In', P, H.
  - exact Srt.
  - rewrite En. exact Ib.
  - destruct Et as [-> | ->]; [exact T|].
    apply Forall_app. split; [exact T|]. constructor; [exact Logic.I | constructor].
Qed.

Lemma banners_showError (d0 d : Document) (banners : list Node) (message : string) :
  In message validation_messages ->
  (next_id d0 <= next_id d)%nat ->
  banners_of d0 d banners /\ created_since d0 d banners ->
  exists banners',
    banners_of d0 (showError message d) banners'
    /\ created_since d0 (showError message d) banners'.
Proof.
  intros Hm Hn [(C & B & P & Srt) (Ib & T)].
  rewrite showError_unfold. cbv zeta.
  set (errorDiv := {| node_id := next_id d; tagName := "div"; className := "error-message";
                      textContent := message; cssText := error_style |}).
  exists (errorDiv :: banners).
  split; [split; [|split; [|split]] | split].
  - cbn. rewrite C. reflexivity.
  - constructor; [|exact B]. repeat split; try reflexivity. exact Hm.
  - constructor.
    + unfold dismissal_pending. cbn. apply in_or_app. right. left. reflexivity.
    + rewrite Forall_forall in *. intros b H. unfold dismissal_pending. cbn.
      apply in_or_app. left. apply P, H.
  - constructor; [exact Srt|].
    rewrite Forall_forall in *. intros b H. unfold newer. cbn. apply Ib, H.
  - cbn. constructor; [cbn; lia|].
    rewrite Forall_forall in *. intros b H. specialize (Ib b H). lia.
  - cbn. apply Forall_app. split; [exact T|]. constructor; [cbn; exact Hn | constructor].
Qed.

Lemma handle_next_id (d0 d : Document) (e : Event) :
  (next_id d0 <= next_id d)%nat -> (next_id d0 <= next_id (handle e d))%nat.
Proof.
  intros H.
  assert (P : (next_id d0 <= next_id (performCalculation d))%nat).
  { unfold Dom.performCalculation. cbv zeta.
    destruct (negb _); [rewrite showError_unfold; cbn; lia | cbn; exact H]. }
  destruct e as [| |key|i|f]; cbn [Dom.handle]; try assumption.
  - destruct (strict_eq key "Enter"); assumption.
  - unfold fire. destruct (nth_error (timers d) i) as [t|]; [|exact H].
    destruct (callback t) as [e|]; cbn [run_callback]; [|exact H].
    destruct (parentNode e _); exact H.
Qed.

Lemma banners_performCalculation (d0 d : Document) (banners : list Node) :
  (next_id d0 <= next_id d)%nat ->
  banners_of d0 d banners /\ created_since d0 d banners ->
  exists banners',
    banners_of d0 (performCalculation d) banners'
    /\ created_since d0 (performCalculation d) banners'.
Proof.
  intros Hn H. unfold Dom.performCalculation. cbv zeta.
  destruct (isValid (validateInputs _ _ _)) eqn:V; cbn [negb].
  - exists banners. apply (banners_frame d0 d); try reflexivity; [|exact H].
    right. reflexivity.
  - apply (banners_showError d0 d banners); [|exact Hn | exact H].
    apply validateInputs_message. exact V.
Qed.

Lemma banners_fire (d0 d : Document) (banners : list Node) (i : nat) :
  (forall n, In n (calculator d0) -> (node_id n < next_id d0)%nat) ->
  banners_of d0 d banners /\ created_since d0 d banners ->
  exists banners',
    banners_of d0 (fire i d) banners' /\ created_since d0 (fire i d) banners'.
Proof.
  intros W [(C & B & P & Srt) (Ib & T)]. unfold fire.
  destruct (nth_error (timers d) i) as [t|] eqn:Et;
    [|exists banners; repeat split; assumption].
  pose proof (nth_error_Forall _ _ _ _ T Et) as Ht. cbv beta in Ht.
  pose proof (Forall_without_nth _ _ i T) as T'.
  (* the banners other than the one of this timer keep their timer *)
  assert (Keep : forall b, In b banners ->
            match callback t with
            | remove_errorDiv e => same_node e b = false
            | scroll_resultSection => True
            end ->
            In {| callback := remove_errorDiv b; delay := 3000 |}
               (firstn i (timers d) ++ skipn (S i) (timers d))).
  { intros b Hb Hd. rewrite Forall_forall in P.
    apply (In_without_nth _ t _ _ Et); [|apply P, Hb].
    intros <-. cbn in Hd. rewrite same_node_refl in Hd. discriminate. }
  destruct (callback t) as [e|] eqn:Ec; cbn [run_callback].
  - destruct (parentNode e _) eqn:Ep.
    + unfold remove. cbn [calculator set_timers set_calculator].
      exists (filter (fun c => negb (same_node e c)) banners).
      split; [split; [|split; [|split]] | split].
      * cbn. rewrite C, filter_app. f_equal. apply filter_all.
        intros c Hc. specialize (W c Hc). unfold same_node.
        apply negb_true_iff, Nat.eqb_neq. lia.
      * apply Forall_filter; exact B.
      * apply Forall_forall. intros b Hb. apply filter_In in Hb. destruct Hb as [Hb Hd].
        unfold dismissal_pending. cbn. apply Keep; [exact Hb|].
        apply negb_true_iff. exact Hd.
      * apply StronglySorted_filter; exact Srt.
      * cbn. apply Forall_filter; exact Ib.
      * cbn. exact T'.
    + exists banners. unfold parentNode in Ep. cbn in Ep.
      split; [split; [|split; [|split]] | split]; try assumption.
      apply Forall_forall. intros b Hb. unfold dismissal_pending. cbn.
      apply Keep; [exact Hb|].
      destruct (same_node e b) eqn:Es; [|reflexivity].
      rewrite <- Ep. symmetry. apply existsb_exists. exists b. split; [|exact Es].
      rewrite C. apply in_or_app. left. exact Hb.
  - exists banners. cbn.
    split; [split; [|split; [|split]] | split]; try assumption.
    apply Forall_forall. intros b Hb. unfold dismissal_pending. cbn.
    apply Keep; [exact Hb | exact Logic.I].
Qed.

Lemma banners_handle (d0 d : Document) (banners : list Node) (e : Event) :
  (forall n, In n (calculator d0) -> (node_id n < next_id d0)%nat) ->
  (next_id d0 <= next_id d)%nat ->
  banners_of d0 d banners /\ created_since d0 d banners ->
  exists banners',
    banners_of d0 (handle e d) banners' /\ created_since d0 (handle e d) banners'.
Proof.
  intros W Hn H. destruct e as [| |key|i|f]; cbn [Dom.handle].
  - apply (banners_performCalculation d0 d banners); assumption.
  - exists banners. apply (banners_frame d0 d); try reflexivity; [|exact H].
    left. reflexivity.
  - destruct (strict_eq key "Enter");
      [apply (banners_performCalculation d0 d banners); assumption | exists banners; exact H].
  - apply (banners_fire d0 d banners); assumption.
  - exists banners. apply (banners_frame d0 d); try reflexivity; [|exact H].
    left. reflexivity.
Qed.

Lemma banners_run (d0 : Document) (events : list Event) :
  timers d0 = [] ->
  (forall n, In n (calculator d0) -> (node_id n < next_id d0)%nat) ->
  (next_id d0 <= next_id (run events d0))%nat
  /\ exists banners,
       banners_of d0 (run events d0) banners
       /\ created_since d0 (run events d0) banners.
Proof.
  intros T0 W. induction events as [|e events IH] using rev_ind.
  - split; [apply Nat.le_refl|]. exists []. cbn.
    repeat split; try constructor. rewrite T0. constructor.
  - rewrite run_snoc. destruct IH as [Hn (banners & H)]. split.
    + apply handle_next_id. exact Hn.
    + apply (banners_handle d0 _ banners); assumption.
Qed.


(** *** The result *)

Lemma showError_sections (message : string) (d : Document) :
  bmrResult (showError message d) = bmrResult d
  /\ resultSection_display (showError message d) = resultSection_display d
  /\ inputSection_display (showError message d) = inputSection_display d.
Proof. rewrite showError_unfold. repeat split. Qed.

Lemma fire_sections (i : nat) (d : Document) :
  bmrResult (fire i d) = bmrResult d
  /\ resultSection_display (fire i d) = resultSection_display d
  /\ inputSection_display (fire i d) = inputSection_display d.
Proof.
  unfold fire. destruct (nth_error (timers d) i) as [t|]; [|repeat split].
  destruct (callback t) as [e|]; cbn [run_callback]; [|repeat split].
  destruct (parentNode e _); repeat split.
Qed.

Lemma accepted_result (gender : string) (age height weight : number) :
  isValid (validateInputs age height weight) = true ->
  Number_isInteger (calculateBMR gender age height weight) = true
  /\ (-85 <=? calculateBMR gender age height weight) = true
  /\ (calculateBMR gender age height weight <=? 5302) = true.
Proof.
  intros V. apply isValid_in_range in V.
  destruct V as ((A1 & A2) & (H1 & H2) & (W1 & W2)).
  rewrite calculateBMR_unfold.
  destruct (calculateBMR_in_range (gender_of gender) age height weight A1 A2 H1 H2 W1 W2)
    as [Int B].
  split; [exact Int|].
  destruct (gender_of gender); destruct B as [Lo Hi].
  - split; assumption.
  - split.
    + apply (leb_trans _ 268 _); [reflexivity | exact Lo].
    + apply (leb_trans _ 3992 _); [exact Hi | reflexivity].
Qed.

Lemma validated_performCalculation (d : Document) :
  (resultSection_display d = "block"%string -> validated_result toLocaleString d) ->
  resultSection_display (performCalculation d) = "block"%string ->
  validated_result toLocaleString (performCalculation d).
Proof.
  unfold Dom.performCalculation. cbv zeta.
  destruct (isValid (validateInputs _ _ _)) eqn:V; cbn [negb].
  - intros _ _. split; [reflexivity|].
    eexists _, _, _, _. split; [exact V|]. split; [reflexivity|].
    apply accepted_result. exact V.
  - destruct (showError_sections (message (validateInputs
        (parseInt (age_value (form d))) (parseFloat (height_value (form d)))
        (parseFloat (weight_value (form d))))) d) as (E1 & E2 & E3).
    unfold validated_result. rewrite E1, E2, E3. auto.
Qed.

Lemma validated_run (d0 : Document) (events : list Event) :
  resultSection_display d0 <> "block"%string ->
  resultSection_display (run events d0) = "block"%string ->
  validated_result toLocaleString (run events d0).
Proof.
  intros H0. induction events as [|e events IH] using rev_ind.
  - intros H. contradiction.
  - rewrite run_snoc. set (d := run events d0) in *.
    destruct e as [| |key|i|f]; cbn [Dom.handle].
    + apply validated_performCalculation. exact IH.
    + discriminate.
    + destruct (strict_eq key "Enter");
        [apply validated_performCalculation; exact IH | exact IH].
    + destruct (fire_sections i d) as (E1 & E2 & E3).
      unfold validated_result. rewrite E1, E2, E3. exact IH.
    + exact IH.
Qed.



(** *** Rejected calculations in a row *)

Lemma rejected_run (d0 : Document) (n : nat) :
  let validation :=
    validateInputs (parseInt (age_value (form d0))) (parseFloat (height_value (form d0)))
      (parseFloat (weight_value (form d0))) in
  isValid validation = false ->
  let d := run (repeat call_performCalculation n) d0 in
  form d = form d0
  /\ bmrResult d = bmrResult d0
  /\ resultSection_display d = resultSection_display d0
  /\ inputSection_display d = inputSection_display d0
  /\ length (timers d) = (length (timers d0) + n)%nat
  /\ exists banners : list Node,
       calculator d = banners ++ calculator d0
       /\ length banners = n
       /\ Forall (fun b => className b = "error-message"%string
                           /\ textContent b = message validation) banners.
Proof.
  intros validation V. induction n as [|n IH]; cbv zeta.
  - cbn. rewrite Nat.add_0_r. repeat split; try reflexivity. exists []. repeat split. constructor.
  - cbv zeta in IH. destruct IH as (F & R & RS & IS & T & banners & C & L & B).
    change (repeat call_performCalculation (S n))
      with (call_performCalculation :: repeat call_performCalculation n).
    rewrite repeat_cons, run_snoc. cbn [Dom.handle].
    set (d := run (repeat call_performCalculation n) d0) in *.
    unfold Dom.performCalculation. cbv zeta. rewrite F. fold validation. rewrite V.
    cbn [negb]. rewrite showError_unfold. cbn.
    rewrite length_app. cbn. rewrite T, C.
    repeat split; try assumption; try lia.
    eexists (_ :: banners). repeat split; [cbn; rewrite L; reflexivity|].
    constructor; [split; reflexivity | exact B].
Qed.

End PageLemmas.

(** X9.  Error banners never outlive their timers.  On a page that starts
    with no timer pending (and whose nodes are older than the ones the
    script will create), after any sequence of calculations, resets, key
    presses, edits and timers firing in any order, the children of
    [.calculator] are the original ones preceded by error banners only:
    each is a [div] of class [error-message] showing one of the three
    validation messages, each still has its 3000 ms removal timer pending,
    and the newest comes first.  So once no timer is pending the children
    are exactly the original ones. *)
Theorem error_banners_are_dismissed
    (parseInt parseFloat : string -> number) (toLocaleString : number -> string)
    (d0 : Dom.Document) (events : list Dom.Event) :
  Dom.timers d0 = [] ->
  (forall n, In n (Dom.calculator d0) -> (Dom.node_id n < Dom.next_id d0)%nat) ->
  let d := Dom.run parseInt parseFloat toLocaleString events d0 in
  exists banners : list Dom.Node,
    Dom.calculator d = banners ++ Dom.calculator d0
    /\ Forall Dom.error_banner banners
    /\ Forall (Dom.dismissal_pending d) banners
    /\ StronglySorted Dom.newer banners
    /\ (Dom.timers d = [] -> Dom.calculator d = Dom.calculator d0).
Proof.
  intros T0 W d. subst d.
  destruct (banners_run parseInt parseFloat toLocaleString d0 events T0 W)
    as (_ & banners & (C & B & P & Srt) & _).
  exists banners. split; [exact C | split; [exact B | split; [exact P | split; [exact Srt|]]]].
  intros E. destruct banners as [|b rest]; [exact C|].
  inversion P as [|? ? Hb _]. unfold Dom.dismissal_pending in Hb. rewrite E in Hb.
  destruct Hb.
Qed.

Lemma error_banners_are_dismissed_witness :
  let d := Dom.run parse_digits parse_digits (fun _ => ""%string)
             [Dom.call_performCalculation; Dom.timeout 0]
             (Dom.loaded_page form_male_0) in
  exists banners : list Dom.Node,
    Dom.calculator d = banners ++ Dom.calculator (Dom.loaded_page form_male_0)
    /\ Forall Dom.error_banner banners
    /\ Forall (Dom.dismissal_pending d) banners
    /\ StronglySorted Dom.newer banners
    /\ (Dom.timers d = [] -> Dom.calculator d = Dom.calculator (Dom.loaded_page form_male_0)).
Proof.
  apply (error_banners_are_dismissed parse_digits parse_digits (fun _ => ""%string)
           (Dom.loaded_page form_male_0) [Dom.call_performCalculation; Dom.timeout 0]).
  - reflexivity.
  - intros n [<- | [<- | []]]; cbn; lia.
Defined.

(** X10.  The result section is never shown without a validated result in
    it.  On a page whose result section does not start displayed, after any
    sequence of events: whenever [#resultSection] has [display: block], the
    input section has [display: none] and the text of [#bmrResult] is
    [toLocaleString] of [calculateBMR] at measurements that [validateInputs]
    accepts, an integer between -85 and 5302. *)
Theorem shown_result_is_validated
    (parseInt parseFloat : string -> number) (toLocaleString : number -> string)
    (d0 : Dom.Document) (events : list Dom.Event) :
  Dom.resultSection_display d0 <> "block"%string ->
  let d := Dom.run parseInt parseFloat toLocaleString events d0 in
  Dom.resultSection_display d = "block"%string ->
  Dom.inputSection_display d = "none"%string
  /\ exists (gender : string) (age height weight : number),
       isValid (validateInputs age height weight) = true
       /\ Dom.bmrResult d = toLocaleString (calculateBMR gender age height weight)
       /\ Number_isInteger (calculateBMR gender age height weight) = true
       /\ (-85 <=? calculateBMR gender age height weight) = true
       /\ (calculateBMR gender age height weight <=? 5302) = true.
Proof.
  intros H0 d H.
  exact (validated_run parseInt parseFloat toLocaleString d0 events H0 H).
Qed.

Lemma shown_result_is_validated_witness :
  let d := Dom.run parse_digits parse_digits (fun _ => ""%string)
             [Dom.call_performCalculation] (Dom.loaded_page form_male_30) in
  Dom.inputSection_display d = "none"%string
  /\ exists (gender : string) (age height weight : number),
       isValid (validateInputs age height weight) = true
       /\ Dom.bmrResult d = ""%string
       /\ Number_isInteger (calculateBMR gender age height weight) = true
       /\ (-85 <=? calculateBMR gender age height weight) = true
       /\ (calculateBMR gender age height weight <=? 5302) = true.
Proof.
  apply (shown_result_is_validated parse_digits parse_digits (fun _ => ""%string)
           (Dom.loaded_page form_male_30) [Dom.call_performCalculation]).
  - discriminate.
  - reflexivity.
Defined.

(** X11.  After [resetCalculator], [performCalculation] reports the age:
    the three fields are empty, [parseInt] of the empty string is [NaN], and
    the run has exactly the effect of [showError] with the age message - no
    result is computed or shown. *)
Theorem calculate_after_reset_reports_age
    (parseInt parseFloat : string -> number) (toLocaleString : number -> string)
    (d : Dom.Document) :
  is_nan (parseInt ""%string) = true ->
  Dom.performCalculation parseInt parseFloat toLocaleString (Dom.resetCalculator d)
  = Dom.showError age_message (Dom.resetCalculator d).
Proof.
  intros N. unfold Dom.performCalculation. cbv zeta.
  change (age_value (Dom.form (Dom.resetCalculator d))) with ""%string.
  unfold validateInputs, age_rejected, JS.not, ToBoolean.
  rewrite N, orb_true_r. reflexivity.
Qed.

Lemma calculate_after_reset_reports_age_witness :
  Dom.performCalculation parse_digits parse_digits (fun _ => ""%string)
    (Dom.resetCalculator (Dom.loaded_page form_male_30))
  = Dom.showError age_message (Dom.resetCalculator (Dom.loaded_page form_male_30)).
Proof.
  apply (calculate_after_reset_reports_age parse_digits parse_digits (fun _ => ""%string)
           (Dom.loaded_page form_male_30)).
  reflexivity.
Defined.

(** X12.  Banners stack: [showError] never replaces or reuses a banner.  On
    a form [validateInputs] rejects, [n] calls of [performCalculation] in a
    row (no timer firing in between) put [n] banners before the original
    children of [.calculator], each showing the message of that rejection,
    and leave [n] more timers pending; the form, the text of [#bmrResult]
    and the display of the two sections stay as they were. *)
Theorem error_banners_stack
    (parseInt parseFloat : string -> number) (toLocaleString : number -> string)
    (d0 : Dom.Document) (n : nat) :
  let validation :=
    validateInputs (parseInt (age_value (Dom.form d0)))
      (parseFloat (height_value (Dom.form d0)))
      (parseFloat (weight_value (Dom.form d0))) in
  isValid validation = false ->
  let d := Dom.run parseInt parseFloat toLocaleString
             (repeat Dom.call_performCalculation n) d0 in
  Dom.form d = Dom.form d0
  /\ Dom.bmrResult d = Dom.bmrResult d0
  /\ Dom.resultSection_display d = Dom.resultSection_display d0
  /\ Dom.inputSection_display d = Dom.inputSection_display d0
  /\ length (Dom.timers d) = (length (Dom.timers d0) + n)%nat
  /\ exists banners : list Dom.Node,
       Dom.calculator d = banners ++ Dom.calculator d0
       /\ length banners = n
       /\ Forall (fun b => Dom.className b = "error-message"%string
                           /\ Dom.textContent b = message validation) banners.
Proof.
  intros validation V d.
  exact (rejected_run parseInt parseFloat toLocaleString d0 n V).
Qed.

Lemma error_banners_stack_witness :
  let d := Dom.run parse_digits parse_digits (fun _ => ""%string)
             (repeat Dom.call_performCalculation 3) (Dom.loaded_page form_male_0) in
  Dom.form d = form_male_0
  /\ Dom.bmrResult d = ""%string
  /\ Dom.resultSection_display d = ""%string
  /\ Dom.inputSection_display d = ""%string
  /\ length (Dom.timers d) = 3%nat
  /\ exists banners : list Dom.Node,
       Dom.calculator d = banners ++ [Dom.markup_node 0; Dom.markup_node 1]
       /\ length banners = 3%nat
       /\ Forall (fun b => Dom.className b = "error-message"%string
                           /\ Dom.textContent b = age_message) banners.
Proof.
  apply (error_banners_stack parse_digits parse_digits (fun _ => ""%string)
           (Dom.loaded_page form_male_0) 3).
  reflexivity.
Defined.

(** X13.  [resetCalculator] cancels nothing.  When the calculator is reset
    before the 100 ms timer of [displayResult] has fired, the timer is still
    pending, and when it fires the page is asked to scroll to the result
    section although that section is hidden again: after the three steps the
    scroll requests are the top of the page, then the result section. *)
Theorem reset_keeps_pending_scroll
    (toLocaleString : number -> string) (bmr : number) (d : Dom.Document) :
  let shown := Dom.displayResult toLocaleString bmr d in
  let reset := Dom.resetCalculator shown in
  let fired := Dom.fire (length (Dom.timers d)) reset in
  Dom.timers reset
  = Dom.timers d ++ [{| Dom.callback := Dom.scroll_resultSection; Dom.delay := 100 |}]
  /\ Dom.timers fired = Dom.timers d
  /\ Dom.scrolls fired
     = Dom.scrolls d ++ [Dom.scrollTo_top; Dom.scrollIntoView_resultSection]
  /\ Dom.resultSection_display fired = "none"%string
  /\ Dom.inputSection_display fired = "block"%string.
Proof.
  cbv zeta. split; [reflexivity|].
  unfold Dom.fire.
  change (Dom.timers (Dom.resetCalculator (Dom.displayResult toLocaleString bmr d)))
    with (Dom.timers d
          ++ [{| Dom.callback := Dom.scroll_resultSection; Dom.delay := 100 |}]).
  rewrite nth_error_app2, Nat.sub_diag by apply Nat.le_refl.
  cbn [nth_error Dom.callback Dom.run_callback].
  assert (E : firstn (length (Dom.timers d))
                (Dom.timers d
                 ++ [{| Dom.callback := Dom.scroll_resultSection; Dom.delay := 100 |}])
              ++ skipn (S (length (Dom.timers d)))
                   (Dom.timers d
                    ++ [{| Dom.callback := Dom.scroll_resultSection; Dom.delay := 100 |}])
              = Dom.timers d).
  { rewrite firstn_app, Nat.sub_diag, firstn_all, skipn_app, skipn_all2 by lia.
    replace (S (length (Dom.timers d)) - length (Dom.timers d))%nat with 1%nat by lia.
    cbn. rewrite !app_nil_r. reflexivity. }
  rewrite E. cbn. rewrite <- app_assoc. repeat split.
Qed.
